(** * senseye / senses / rwstat.c

    A shallow embedding of the channel engine of [rwstat.c] (window
    buffering and clocking, histogram, Hilbert lookup table, packing
    footprint, pattern-driven alpha, command dispatch) together with the
    properties of it that the specification states.

    Conventions.
    - [uint8_t] values are [Byte.byte]; [size_t] values are [Z] reduced
      modulo 2^64 by [wrap_sz]; [uint32_t] histogram counters are [Z]
      reduced modulo 2^32 by [wrap32]; [int] is [Z] reduced by [wrap_int].
    - A heap buffer is a [list]; its allocated size is the list's length.
      A store at an index outside the allocation is undefined in C: the
      embedding is total and leaves the buffer as it is there.
    - The pixel page [cont->vidp], the time stamp and the [float] fields of
      the events belong to the transport and are not part of the state.
    - [float] is IEEE 754 binary32 ([spec_float] at precision 24 and
      maximal exponent 128), every operation rounded to nearest even in
      that format; [log2f] belongs to the C library and is a parameter of
      the entropy functions. *)

From Stdlib Require Import ZArith List Lia Bool.
From Stdlib Require Import SpecFloat.
From Stdlib Require Import Strings.Byte.
From stdpp Require Import base tactics option list.
Import ListNotations.
Local Open Scope Z_scope.

Abbreviation byte := Byte.byte.

#[global] Instance byte_eq_dec : EqDecision byte := Byte.byte_eq_dec.

(** ** Machine integers *)

Definition wrap_sz (z : Z) : Z := z mod 2 ^ 64.
Definition wrap32 (z : Z) : Z := z mod 2 ^ 32.
Definition wrap_int (z : Z) : Z := (z + 2 ^ 31) mod 2 ^ 32 - 2 ^ 31.

Definition byteZ (b : byte) : Z := Z.of_nat (Byte.to_nat b).

(** ** Enumerations of rwstat.h *)

(** Modelled from the spec: [enum rwstat_clock] is declared in rwstat.h,
    which is not among the sources.  Block and slide clocking; the test
    [1 == (clock & RW_CLK_SLIDE)] of [ch_step] selects slide mode. *)
Inductive rwstat_clock := RW_CLK_BLOCK | RW_CLK_SLIDE.

(** Modelled from the spec: [enum rwstat_pack] is declared in rwstat.h.
    The order is the one [pack_sizes] is documented to match: full-tight,
    tight-no-alpha, intensity, histogram-intensity. *)
Inductive rwstat_pack := PACK_TIGHT | PACK_TNOALPHA | PACK_INTENS | PACK_HINTENS.

(** Modelled from the spec: [enum rwstat_mapping] is declared in rwstat.h:
    raster (wrap), coordinate tuple, space-filling curve. *)
Inductive rwstat_mapping := MAP_WRAP | MAP_TUPLE | MAP_HILBERT.

(** Modelled from the spec: [enum rwstat_alpha] is declared in rwstat.h:
    constant (the value [ch_alpha] tests with [0 == amode]), pattern
    driven, block entropy. *)
Inductive rwstat_alpha := RW_ALPHA_FULL | RW_ALPHA_PTN | RW_ALPHA_ENTBASE.

#[global] Instance rwstat_clock_eq_dec : EqDecision rwstat_clock.
Proof. solve_decision. Defined.
#[global] Instance rwstat_pack_eq_dec : EqDecision rwstat_pack.
Proof. solve_decision. Defined.
#[global] Instance rwstat_mapping_eq_dec : EqDecision rwstat_mapping.
Proof. solve_decision. Defined.
#[global] Instance rwstat_alpha_eq_dec : EqDecision rwstat_alpha.
Proof. solve_decision. Defined.

Definition pack_index (p : rwstat_pack) : nat :=
  match p with
  | PACK_TIGHT => 0 | PACK_TNOALPHA => 1 | PACK_INTENS => 2 | PACK_HINTENS => 3
  end%nat.

Definition map_index (m : rwstat_mapping) : nat :=
  match m with MAP_WRAP => 0 | MAP_TUPLE => 1 | MAP_HILBERT => 2 end%nat.

(** Modelled from the spec: [enum ptn_flags] is declared in rwstat.h: two
    independent flag bits, persist-as-default-opacity and emit-match-event. *)
Definition FLAG_STATE : Z := 1.
Definition FLAG_EVENT : Z := 2.

(** ** struct pattern *)

Module Pattern.
Record t := mk {
  buf : list byte;
  buf_pos : Z;
  evc : Z;
  alpha : byte;
  id : Z;
  flags : Z
}.
(** [buf_sz] is the length [ch_pattern] was given with [buf]. *)
Definition buf_sz (p : t) : Z := Z.of_nat (length (buf p)).
Definition set_buf_pos (v : Z) (p : t) : t :=
  mk (buf p) v (evc p) (alpha p) (id p) (flags p).
Definition set_evc (v : Z) (p : t) : t :=
  mk (buf p) (buf_pos p) v (alpha p) (id p) (flags p).
End Pattern.

(** ** Events queued on the output segment *)

Inductive event :=
| FRAMESTATUS (framenumber pts : Z)
| STREAMINFO (lang0 lang1 lang2 : Z)
| CURSORINPUT (id x : Z).

(** ** struct rwstat_ch_priv

    [chmap] is the field [map]; [cont] is the queue of events passed to
    [arcan_shmif_enqueue], oldest first. *)
Record rwstat_ch_priv := mk_chp {
  clock : rwstat_clock;
  pack : rwstat_pack;
  chmap : rwstat_mapping;
  amode : rwstat_alpha;
  status_dirty : bool;
  pack_sz : Z;
  cmap : option (list (Z * Z));
  patterns : list Pattern.t;
  cnt_total : Z;
  cnt_local : Z;
  buf_ofs : Z;
  hgram : list Z;
  base : Z;
  buf : list byte;
  buf_sz : Z;
  alpha : list byte;
  cont : list event
}.

(** Field updates, one per field the code assigns. *)
Definition set_clock (v : rwstat_clock) (c : rwstat_ch_priv) : rwstat_ch_priv :=
  mk_chp v (pack c) (chmap c) (amode c) (status_dirty c) (pack_sz c) (cmap
    c) (patterns c) (cnt_total c) (cnt_local c) (buf_ofs c) (hgram c) (base c)
    (buf c) (buf_sz c) (alpha c) (cont c).
Definition set_pack (v : rwstat_pack) (c : rwstat_ch_priv) : rwstat_ch_priv :=
  mk_chp (clock c) v (chmap c) (amode c) (status_dirty c) (pack_sz c) (cmap
    c) (patterns c) (cnt_total c) (cnt_local c) (buf_ofs c) (hgram c) (base c)
    (buf c) (buf_sz c) (alpha c) (cont c).
Definition set_chmap (v : rwstat_mapping) (c : rwstat_ch_priv) : rwstat_ch_priv :=
  mk_chp (clock c) (pack c) v (amode c) (status_dirty c) (pack_sz c) (cmap
    c) (patterns c) (cnt_total c) (cnt_local c) (buf_ofs c) (hgram c) (base c)
    (buf c) (buf_sz c) (alpha c) (cont c).
Definition set_amode (v : rwstat_alpha) (c : rwstat_ch_priv) : rwstat_ch_priv :=
  mk_chp (clock c) (pack c) (chmap c) v (status_dirty c) (pack_sz c) (cmap
    c) (patterns c) (cnt_total c) (cnt_local c) (buf_ofs c) (hgram c) (base c)
    (buf c) (buf_sz c) (alpha c) (cont c).
Definition set_status_dirty (v : bool) (c : rwstat_ch_priv) : rwstat_ch_priv :=
  mk_chp (clock c) (pack c) (chmap c) (amode c) v (pack_sz c) (cmap c)
    (patterns c) (cnt_total c) (cnt_local c) (buf_ofs c) (hgram c) (base c)
    (buf c) (buf_sz c) (alpha c) (cont c).
Definition set_pack_sz (v : Z) (c : rwstat_ch_priv) : rwstat_ch_priv :=
  mk_chp (clock c) (pack c) (chmap c) (amode c) (status_dirty c) v (cmap c)
    (patterns c) (cnt_total c) (cnt_local c) (buf_ofs c) (hgram c) (base c)
    (buf c) (buf_sz c) (alpha c) (cont c).
Definition set_cmap (v : option (list (Z * Z))) (c : rwstat_ch_priv) : rwstat_ch_priv :=
  mk_chp (clock c) (pack c) (chmap c) (amode c) (status_dirty c) (pack_sz c)
    v (patterns c) (cnt_total c) (cnt_local c) (buf_ofs c) (hgram c) (base c)
    (buf c) (buf_sz c) (alpha c) (cont c).
Definition set_patterns (v : list Pattern.t) (c : rwstat_ch_priv) : rwstat_ch_priv :=
  mk_chp (clock c) (pack c) (chmap c) (amode c) (status_dirty c) (pack_sz c)
    (cmap c) v (cnt_total c) (cnt_local c) (buf_ofs c) (hgram c) (base c) (buf
    c) (buf_sz c) (alpha c) (cont c).
Definition set_cnt_total (v : Z) (c : rwstat_ch_priv) : rwstat_ch_priv :=
  mk_chp (clock c) (pack c) (chmap c) (amode c) (status_dirty c) (pack_sz c)
    (cmap c) (patterns c) v (cnt_local c) (buf_ofs c) (hgram c) (base c) (buf
    c) (buf_sz c) (alpha c) (cont c).
Definition set_cnt_local (v : Z) (c : rwstat_ch_priv) : rwstat_ch_priv :=
  mk_chp (clock c) (pack c) (chmap c) (amode c) (status_dirty c) (pack_sz c)
    (cmap c) (patterns c) (cnt_total c) v (buf_ofs c) (hgram c) (base c) (buf
    c) (buf_sz c) (alpha c) (cont c).
Definition set_buf_ofs (v : Z) (c : rwstat_ch_priv) : rwstat_ch_priv :=
  mk_chp (clock c) (pack c) (chmap c) (amode c) (status_dirty c) (pack_sz c)
    (cmap c) (patterns c) (cnt_total c) (cnt_local c) v (hgram c) (base c)
    (buf c) (buf_sz c) (alpha c) (cont c).
Definition set_hgram (v : list Z) (c : rwstat_ch_priv) : rwstat_ch_priv :=
  mk_chp (clock c) (pack c) (chmap c) (amode c) (status_dirty c) (pack_sz c)
    (cmap c) (patterns c) (cnt_total c) (cnt_local c) (buf_ofs c) v (base c)
    (buf c) (buf_sz c) (alpha c) (cont c).
Definition set_base (v : Z) (c : rwstat_ch_priv) : rwstat_ch_priv :=
  mk_chp (clock c) (pack c) (chmap c) (amode c) (status_dirty c) (pack_sz c)
    (cmap c) (patterns c) (cnt_total c) (cnt_local c) (buf_ofs c) (hgram c) v
    (buf c) (buf_sz c) (alpha c) (cont c).
Definition set_buf (v : list byte) (c : rwstat_ch_priv) : rwstat_ch_priv :=
  mk_chp (clock c) (pack c) (chmap c) (amode c) (status_dirty c) (pack_sz c)
    (cmap c) (patterns c) (cnt_total c) (cnt_local c) (buf_ofs c) (hgram c)
    (base c) v (buf_sz c) (alpha c) (cont c).
Definition set_buf_sz (v : Z) (c : rwstat_ch_priv) : rwstat_ch_priv :=
  mk_chp (clock c) (pack c) (chmap c) (amode c) (status_dirty c) (pack_sz c)
    (cmap c) (patterns c) (cnt_total c) (cnt_local c) (buf_ofs c) (hgram c)
    (base c) (buf c) v (alpha c) (cont c).
Definition set_alpha (v : list byte) (c : rwstat_ch_priv) : rwstat_ch_priv :=
  mk_chp (clock c) (pack c) (chmap c) (amode c) (status_dirty c) (pack_sz c)
    (cmap c) (patterns c) (cnt_total c) (cnt_local c) (buf_ofs c) (hgram c)
    (base c) (buf c) (buf_sz c) v (cont c).
Definition set_cont (v : list event) (c : rwstat_ch_priv) : rwstat_ch_priv :=
  mk_chp (clock c) (pack c) (chmap c) (amode c) (status_dirty c) (pack_sz c)
    (cmap c) (patterns c) (cnt_total c) (cnt_local c) (buf_ofs c) (hgram c)
    (base c) (buf c) (buf_sz c) (alpha c) v.

(** ** Hilbert curve

    [int] arithmetic with its wrap-around; C's [/] truncates toward zero
    ([Z.quot]); [&] and [^] are [Z.land] and [Z.lxor] on the two's
    complement value. *)

Definition iadd (a b : Z) : Z := wrap_int (a + b).
Definition isub (a b : Z) : Z := wrap_int (a - b).
Definition imul (a b : Z) : Z := wrap_int (a * b).

Definition hilbert_rot (n x y rx ry : Z) : Z * Z :=
  if ry =? 0 then
    let '(x1, y1) :=
      if rx =? 1 then (isub (isub n 1) x, isub (isub n 1) y) else (x, y) in
    (y1, x1)
  else (x, y).

(** The loop [for (s = 1; s < n; s *= 2)] of [hilbert_d2xy]; it runs out
    of [fuel] only if it has not left after [fuel] rounds. *)
Fixpoint hilbert_loop (fuel : nat) (n s t x y : Z) : option (Z * Z) :=
  if s <? n then
    match fuel with
    | O => None
    | S f =>
        let rx := Z.land 1 (Z.quot t 2) in
        let ry := Z.land 1 (Z.lxor t rx) in
        let '(x1, y1) := hilbert_rot s x y rx ry in
        hilbert_loop f n (imul s 2) (Z.quot t 4)
          (iadd x1 (imul s rx)) (iadd y1 (imul s ry))
    end
  else Some (x, y).

(** [s] takes the values 1, 2, ..., 2^30, then wraps to a value that is
    never positive again: a run that has not left the loop after 32 rounds
    never does. *)
Definition hilbert_fuel : nat := 32.

Definition hilbert_d2xy (n d : Z) : option (Z * Z) :=
  hilbert_loop hilbert_fuel n 1 d 0 0.

(** Conversions at the call [hilbert_d2xy(ch->priv->base, i, &x, &y)] and
    at the stores into the [uint16_t] table. *)
Definition int_of_size (z : Z) : Z := wrap_int z.
Definition u16 (z : Z) : Z := z mod 2 ^ 16.

(** Entry [i] of the table that [ch_map] fills for [MAP_HILBERT]. *)
Definition cmap_entry (base i : Z) : option (Z * Z) :=
  match hilbert_d2xy (int_of_size base) (int_of_size i) with
  | Some (x, y) => Some (u16 x, u16 y)
  | None => None
  end.

Definition build_cmap (base : Z) : option (list (Z * Z)) :=
  mapM (cmap_entry base) (seqZ 0 (wrap_sz (base * base))).

(** ** Histogram *)

Definition hgram_inc (h : list Z) (b : byte) : list Z :=
  alter (fun c => wrap32 (c + 1)) (Byte.to_nat b) h.

(** [rebuild_hgram]: one increment per window byte, on the table as it is. *)
Definition rebuild_hgram (c : rwstat_ch_priv) : rwstat_ch_priv :=
  set_hgram (fold_left hgram_inc (take (Z.to_nat (buf_sz c)) (buf c)) (hgram c)) c.

Definition hgram_sum (h : list Z) : Z := fold_right Z.add 0 h.

(** ** Entropy

    The [float] operations of [shent_h]: the conversions [(float)hgram[..]]
    and [(float)bufsz] of unsigned integers, the division, the product and
    the subtraction, each rounded to binary32. *)

Definition f32_of_Z (z : Z) : spec_float := binary_normalize 24 128 z 0 false.
Definition f32_div : spec_float -> spec_float -> spec_float := SFdiv 24 128.
Definition f32_mul : spec_float -> spec_float -> spec_float := SFmul 24 128.
Definition f32_sub : spec_float -> spec_float -> spec_float := SFsub 24 128.

Definition hgram_at (h : list Z) (b : byte) : Z := default 0 (h !! Byte.to_nat b).

Section Entropy.

(** [log2f] of the C library. *)
Variable log2f : spec_float -> spec_float.

(** [shent_h]: [ent] starts at [0.0f]; the running
    [ent -= pr * log2f(pr)] over the first [bufsz] bytes, which are
    [bytes]. *)
Definition shent_h (bytes : list byte) (bufsz : Z) (h : list Z) : spec_float :=
  fold_left
    (fun ent b =>
       let pr := f32_div (f32_of_Z (hgram_at h b)) (f32_of_Z bufsz) in
       f32_sub ent (f32_mul pr (log2f pr)))
    bytes (S754_zero false).

(** [shent]: the histogram is counted from a zeroed table first. *)
Definition shent (bytes : list byte) : spec_float :=
  shent_h bytes (Z.of_nat (length bytes))
    (fold_left hgram_inc bytes (replicate 256 0)).

End Entropy.

(** ** Stores into a byte buffer *)

Definition valid_index {A} (l : list A) (i : Z) : Prop :=
  0 <= i < Z.of_nat (length l).

Definition store (l : list byte) (i : Z) (v : byte) : list byte :=
  if (0 <=? i) && (i <? Z.of_nat (length l))
  then <[Z.to_nat i := v]> l else l.

(** [memset(&l[start], v, n)]. *)
Definition memset (l : list byte) (start : Z) (v : byte) (n : Z) : list byte :=
  fold_left (fun l k => store l (start + Z.of_nat k) v) (seq 0 (Z.to_nat n)) l.

(** ** update_ptnalpha *)

(** A call [memset(&alpha[start], value, len)] made on a completed match
    of the pattern with index [paint_ptn].
    [&chp->alpha[i - ptn->buf_sz]] is formed with [size_t] arithmetic; for
    [i < buf_sz] the difference wraps and the address computed lies
    [buf_sz - i] bytes before the buffer: [paint_start] is that offset,
    [i - buf_sz], relative to the first alpha byte. *)
Record paint := mk_paint {
  paint_ptn : nat;
  paint_start : Z;
  paint_value : byte;
  paint_len : Z
}.

(** What one pass carries besides the patterns: the alpha buffer, the
    running default opacity [av] and the paints made so far. *)
Record ptn_pass := mk_pass {
  pass_alpha : list byte;
  pass_av : byte;
  pass_paints : list paint
}.

(** The body of the loop over [j] for pattern [j], at window position [i]
    holding byte [b].  A read of [ptn->buf] past its end (only an empty
    pattern makes one) compares unequal. *)
Definition ptn_match (b : byte) (i : Z) (j : nat) (ptn : Pattern.t) (st : ptn_pass)
  : Pattern.t * ptn_pass :=
  if decide (Pattern.buf ptn !! Z.to_nat (Pattern.buf_pos ptn) = Some b) then
    let pos := wrap_sz (Pattern.buf_pos ptn + 1) in
    if pos =? Pattern.buf_sz ptn then
      let start := i - Pattern.buf_sz ptn in
      let al := memset (pass_alpha st) start (Pattern.alpha ptn) (Pattern.buf_sz ptn) in
      let av := if Z.land (Pattern.flags ptn) FLAG_STATE =? 0
                then pass_av st else Pattern.alpha ptn in
      let evc := if Z.land (Pattern.flags ptn) FLAG_EVENT =? 0
                 then Pattern.evc ptn else wrap_int (Pattern.evc ptn + 1) in
      (Pattern.set_evc evc (Pattern.set_buf_pos 0 ptn),
       mk_pass al av
         (pass_paints st
          ++ [mk_paint j start (Pattern.alpha ptn) (Pattern.buf_sz ptn)]))
    else (Pattern.set_buf_pos pos ptn, st)
  else (ptn, st).

(** The loop over [j], on the patterns from index [j] on. *)
Fixpoint ptn_each (b : byte) (i : Z) (j : nat) (ps : list Pattern.t)
  (st : ptn_pass) : list Pattern.t * ptn_pass :=
  match ps with
  | [] => ([], st)
  | p :: ps' =>
      let '(p1, st1) := ptn_match b i j p st in
      let '(ps1, st2) := ptn_each b i (S j) ps' st1 in
      (p1 :: ps1, st2)
  end.

(** The loop over [i], on the window bytes from position [i] on. *)
Fixpoint ptn_scan (w : list byte) (i : Z) (ps : list Pattern.t) (st : ptn_pass)
  : list Pattern.t * ptn_pass :=
  match w with
  | [] => (ps, st)
  | b :: w' =>
      let st1 := mk_pass (store (pass_alpha st) i (pass_av st))
                   (pass_av st) (pass_paints st) in
      let '(ps1, st2) := ptn_each b i 0 ps st1 in
      ptn_scan w' (i + 1) ps1 st2
  end.

(** The closing loop: one [CURSORINPUT] event per pattern that counted. *)
Fixpoint ptn_events (ps : list Pattern.t) : list Pattern.t * list event :=
  match ps with
  | [] => ([], [])
  | p :: ps' =>
      let '(qs, evs) := ptn_events ps' in
      if Pattern.evc p =? 0 then (p :: qs, evs)
      else (Pattern.set_evc 0 p :: qs,
            CURSORINPUT (Pattern.id p) (Pattern.evc p) :: evs)
  end.

Definition ptn_reset (p : Pattern.t) : Pattern.t :=
  Pattern.set_evc 0 (Pattern.set_buf_pos 0 p).

(** [update_ptnalpha], with the paints it made. *)
Definition update_ptnalpha_paints (c : rwstat_ch_priv)
  : rwstat_ch_priv * list paint :=
  match patterns c with
  | [] => (set_alpha (memset (alpha c) 0 xff (wrap_sz (base c * base c))) c, [])
  | _ =>
      let ps0 := map ptn_reset (patterns c) in
      let '(ps1, st) :=
        ptn_scan (take (Z.to_nat (buf_sz c)) (buf c)) 0 ps0
          (mk_pass (alpha c) xff []) in
      let '(ps2, evs) := ptn_events ps1 in
      (set_cont (cont c ++ evs) (set_patterns ps2 (set_alpha (pass_alpha st) c)),
       pass_paints st)
  end.

Definition update_ptnalpha (c : rwstat_ch_priv) : rwstat_ch_priv :=
  fst (update_ptnalpha_paints c).

(** ** The channel operations *)

(** match order for enum rwstat_pack *)
Definition pack_sizes : list Z := [4; 3; 1; 1].

Definition pack_size (p : rwstat_pack) : Z := default 0 (pack_sizes !! pack_index p).

(** [memmove(buf, buf + src, n)]. *)
Definition memmove_front (l : list byte) (src n : Z) : list byte :=
  let chunk := take (Z.to_nat n) (drop (Z.to_nat src) l) in
  chunk ++ drop (length chunk) l.

(** The loop of [ch_data] over the absorbed bytes, on the histogram, the
    window and the fill offset. *)
Definition ingest_byte (st : list Z * list byte * Z) (x : byte)
  : list Z * list byte * Z :=
  let '(h, b, o) := st in (hgram_inc h x, store b o x, wrap_sz (o + 1)).

Definition ingest_loop (inb : list byte) (st : list Z * list byte * Z)
  : list Z * list byte * Z :=
  fold_left ingest_byte inb st.

Definition enqueue (ev : event) (c : rwstat_ch_priv) : rwstat_ch_priv :=
  set_cont (cont c ++ [ev]) c.

Definition ch_reclock (c : rwstat_ch_priv) (k : rwstat_clock) : rwstat_ch_priv :=
  set_clock k c.

Definition ch_alpha (c : rwstat_ch_priv) (a : rwstat_alpha) : rwstat_ch_priv :=
  let c1 := set_amode a c in
  match a with
  | RW_ALPHA_FULL =>
      set_alpha (memset (alpha c1) 0 xff (wrap_sz (base c1 * base c1))) c1
  | _ => c1
  end.

(** The first half of [ch_pack]: the packing mode, the bytes that fill one
    pixel and the bytes that map coordinates, in the [uint8_t] [pack_sz]. *)
Definition ch_pack_footprint (c : rwstat_ch_priv) (p : rwstat_pack)
  : rwstat_ch_priv :=
  let c1 := set_pack_sz (pack_size p) (set_pack p c) in
  match chmap c1 with
  | MAP_WRAP => c1
  | MAP_TUPLE => set_pack_sz ((pack_sz c1 + 2) mod 2 ^ 8) c1
  | MAP_HILBERT => c1
  end.

Section Channel.

(** The two places where the frame step computes in [float]:
    [hnorm_bucket h acc] is [(uint8_t)(255 * ((float)h / (float)acc))],
    and [update_entalpha c bsz] is the alpha buffer that the function of
    that name leaves (it stores nowhere else). *)
Variable hnorm_bucket : Z -> Z -> Z.
Variable update_entalpha : rwstat_ch_priv -> Z -> list byte.

Definition hnorm (h : list Z) : list Z :=
  let acc := fold_left (fun a x => wrap32 (a + x)) h 0 in
  if 0 <? acc then map (fun x => hnorm_bucket x acc) h else h.

(** [ch_step].  [pack_bytes] and the flush write the pixel page only. *)
Definition ch_step (c : rwstat_ch_priv) : rwstat_ch_priv :=
  let c1 := enqueue (FRAMESTATUS (cnt_local c) (cnt_total c)) c in
  let c2 :=
    if status_dirty c1 then
      enqueue (STREAMINFO (48 + Z.of_nat (pack_index (pack c1)))
                 (48 + Z.of_nat (map_index (chmap c1))) (48 + pack_sz c1))
        (set_status_dirty false c1)
    else c1 in
  let c3 := match clock c2 with
            | RW_CLK_SLIDE => rebuild_hgram c2
            | RW_CLK_BLOCK => c2
            end in
  let c4 := match pack c3 with
            | PACK_HINTENS => set_hgram (hnorm (hgram c3)) c3
            | _ => c3
            end in
  let c5 := match amode c4 with
            | RW_ALPHA_ENTBASE => set_alpha (update_entalpha c4 (base c4)) c4
            | RW_ALPHA_PTN => update_ptnalpha c4
            | RW_ALPHA_FULL => c4
            end in
  set_cnt_local (cnt_total c5) c5.

(** [ch_data]: the channel after the call, the count returned and the
    value left in [*step]. *)
Definition ch_data (c : rwstat_ch_priv) (inb : list byte)
  : rwstat_ch_priv * Z * bool :=
  let in_sz := Z.of_nat (length inb) in
  let '(ntw, c1) :=
    match clock c with
    | RW_CLK_SLIDE =>
        if in_sz <? buf_sz c then
          let ofs := wrap_sz (buf_sz c - in_sz) in
          (in_sz, set_buf (memmove_front (buf c) in_sz ofs) (set_buf_ofs ofs c))
        else (buf_sz c, c)
    | RW_CLK_BLOCK =>
        (if in_sz <? wrap_sz (buf_sz c - buf_ofs c)
         then in_sz else wrap_sz (buf_sz c - buf_ofs c), c)
    end in
  let '(h, b, o) :=
    ingest_loop (take (Z.to_nat ntw) inb) (hgram c1, buf c1, buf_ofs c1) in
  let c2 := set_buf_ofs o (set_buf b (set_hgram h c1)) in
  if o =? buf_sz c2 then (ch_step (set_buf_ofs 0 c2), ntw, true)
  else (c2, ntw, false).

Definition ch_tick (c : rwstat_ch_priv) : rwstat_ch_priv := ch_step c.

Definition ch_left (c : rwstat_ch_priv) : Z := wrap_sz (buf_sz c - buf_ofs c).

(** [ch_pack], [ch_resize] and [ch_map] call one another ([ch_pack]
    through [ch->resize], bound to [ch_resize] by [rwstat_addch]); each
    call takes one unit of [fuel].  Allocation is taken to succeed. *)
Fixpoint ch_pack (fuel : nat) (c : rwstat_ch_priv) (p : rwstat_pack)
  {struct fuel} : option rwstat_ch_priv :=
  match fuel with
  | O => None
  | S f =>
      let c2 := ch_pack_footprint c p in
      c3 ← (if buf_sz c2 =? wrap_sz (wrap_sz (base c2 * base c2) * pack_sz c2)
            then Some c2 else ch_resize f c2 (base c2));
      Some (set_status_dirty true c3)
  end
with ch_resize (fuel : nat) (c : rwstat_ch_priv) (b : Z)
  {struct fuel} : option rwstat_ch_priv :=
  match fuel with
  | O => None
  | S f =>
      let bsqr := wrap_sz (b * b) in
      let sz := wrap_sz (bsqr * pack_sz c) in
      let c1 := set_buf_sz sz c in
      let c2 := set_buf (replicate (Z.to_nat sz) x00) c1 in
      let c3 := set_alpha (replicate (Z.to_nat bsqr) xff) c2 in
      let c4 := set_base b c3 in
      ch_map f c4 (chmap c4)
  end
with ch_map (fuel : nat) (c : rwstat_ch_priv) (m : rwstat_mapping)
  {struct fuel} : option rwstat_ch_priv :=
  match fuel with
  | O => None
  | S f =>
      let c1 := set_cmap None (set_chmap m c) in
      c2 ← match m with
           | MAP_HILBERT =>
               tbl ← build_cmap (base c1); Some (set_cmap (Some tbl) c1)
           | _ => Some c1
           end;
      c3 ← ch_pack f c2 (pack c2);
      Some (ch_step (set_status_dirty true c3))
  end.

(** [ch_pattern]; the slot it takes was zeroed when the array grew. *)
Definition ch_pattern (c : rwstat_ch_priv) (a : byte) (i : Z) (fl : Z)
  (b : list byte) : rwstat_ch_priv :=
  set_patterns (patterns c ++ [Pattern.mk b 0 0 a i fl]) c.

(** [ch_wind]: the [off_t] offset is stored into the [size_t] field. *)
Definition ch_wind (c : rwstat_ch_priv) (ofs : Z) : rwstat_ch_priv :=
  set_cnt_total (wrap_sz ofs) c.

(** The channel [rwstat_addch] starts from: both structures zeroed. *)
Definition zero_ch (k : rwstat_clock) (m : rwstat_mapping) (p : rwstat_pack)
  : rwstat_ch_priv :=
  mk_chp k p m RW_ALPHA_ENTBASE false 0 None [] 0 0 0 (replicate 256 0) 0
    [] 0 [] [].

(** [rwstat_addch] with a segment of width [w]. *)
Definition rwstat_addch (fuel : nat) (k : rwstat_clock) (m : rwstat_mapping)
  (p : rwstat_pack) (w : Z) : option rwstat_ch_priv :=
  c ← ch_resize fuel (zero_ch k m p) w;
  Some (set_status_dirty true c).

(** An inbound event: a [TARGET_COMMAND_GRAPHMODE] of category
    [EVENT_TARGET] with its selector [ioevs[0].iv], or anything else. *)
Inductive arcan_event := GRAPHMODE (iv : Z) | OTHER_EVENT.

(** [rwstat_consume_event]: the value returned, the channel after the call
    and the selectors written to [stderr]. *)
Definition rwstat_consume_event (fuel : nat) (c : rwstat_ch_priv)
  (ev : arcan_event) : option (bool * rwstat_ch_priv * list Z) :=
  match ev with
  | OTHER_EVENT => Some (false, c, [])
  | GRAPHMODE iv =>
      let ok (r : option rwstat_ch_priv) := c1 ← r; Some (true, c1, []) in
      match iv with
      | 0 => ok (Some (ch_reclock c RW_CLK_BLOCK))
      | 1 => ok (Some (ch_reclock c RW_CLK_SLIDE))
      | 10 => ok (ch_map fuel c MAP_WRAP)
      | 11 => ok (ch_map fuel c MAP_TUPLE)
      | 12 => ok (ch_map fuel c MAP_HILBERT)
      | 20 => ok (ch_pack fuel c PACK_INTENS)
      | 21 => ok (ch_pack fuel c PACK_HINTENS)
      | 22 => ok (ch_pack fuel c PACK_TIGHT)
      | 23 => ok (ch_pack fuel c PACK_TNOALPHA)
      | 30 => ok (Some (ch_alpha c RW_ALPHA_FULL))
      | 31 => ok (Some (ch_alpha c RW_ALPHA_PTN))
      | 32 => ok (Some (ch_alpha c RW_ALPHA_ENTBASE))
      | _ => Some (false, c, [iv])
      end
  end.

End Channel.

(** ** pack_bytes

    Where the sample with index [ofs] is drawn; [sample] holds the bytes
    of the window from the sample on.  The [size_t] quotient and
    remainder are stored into [int]; the table holds the pair of entry
    [ofs] at [cmap[2 * ofs]] and [cmap[2 * ofs + 1]].  [tuple_coord base b]
    is [(float)b * sf] as an [int], with [sf = (float)(base - 1) / 255.0f]
    as [ch_resize] sets it.  No result where the code reads outside the
    sample or the table. *)
Definition pack_coords (tuple_coord : Z -> byte -> Z) (c : rwstat_ch_priv)
  (sample : list byte) (ofs : Z) : option (Z * Z) :=
  match chmap c with
  | MAP_WRAP =>
      Some (int_of_size (ofs mod base c), int_of_size (ofs / base c))
  | MAP_TUPLE =>
      b0 ← sample !! 0%nat; b1 ← sample !! 1%nat;
      Some (tuple_coord (base c) b0, tuple_coord (base c) b1)
  | MAP_HILBERT => tbl ← cmap c; tbl !! Z.to_nat ofs
  end.

(** ** rwstat_addpatterns *)

(** [strtok] with the one delimiter [d], called until it returns NULL: the
    maximal runs of bytes other than [d], in order, the empty ones
    skipped.  [cur] is the run being read. *)
Fixpoint strtok_all (d : byte) (s : list byte) (cur : list byte)
  : list (list byte) :=
  match s with
  | [] => match cur with [] => [] | _ => [cur] end
  | x :: s' =>
      if Byte.eqb x d then
        match cur with
        | [] => strtok_all d s' []
        | _ => cur :: strtok_all d s' []
        end
      else strtok_all d s' (cur ++ [x])
  end.

(** The tokens of a pattern string: the delimiter is the comma. *)
Definition tokens (s : list byte) : list (list byte) := strtok_all x2c s [].

(** Conversion to [uint8_t]. *)
Definition u8 (z : Z) : byte := default x00 (Byte.of_N (Z.to_N (z mod 2 ^ 8))).

Section AddPatterns.

(** What the function takes from outside: [strtoul16 tv] is the value of
    [strtoul(tv, &nptr, 16)] and whether the call left [nptr] null;
    [arg_val ind] is the string that [arg_lookup(arg, "val", ind, &val)]
    finds, if it finds one; [arg_opt ind] is whether
    [arg_lookup(arg, "opt", ind, &val)] finds one. *)
Variable strtoul16 : list byte -> Z * bool.
Variable arg_val : Z -> option (list byte).
Variable arg_opt : Z -> bool.

(** The [while] loop over [ind]; each round takes one unit of [fuel].
    The first pass leaves the function at a token whose byte is 0 with
    [nptr] null; the second pass fills the pattern. *)
Fixpoint addpatterns_loop (fuel : nat) (c : rwstat_ch_priv) (ind : Z)
  : option rwstat_ch_priv :=
  match fuel with
  | O => None
  | S f =>
      match arg_val ind with
      | None => Some c
      | Some val =>
          match tokens val with
          | [] => Some c
          | toks =>
              if existsb (fun tv => let '(v, nul) := strtoul16 tv in
                                    bool_decide (u8 v = x00) && nul) toks
              then Some c
              else
                let bptn := map (fun tv => u8 (strtoul16 tv).1) toks in
                if arg_opt ind
                then addpatterns_loop f
                       (ch_pattern c (u8 ind) (wrap32 ind) 0 bptn)
                       (wrap_int (ind + 1))
                else Some c
          end
      end
  end.

(** [rwstat_addpatterns]; [arg] is whether the argument array is there. *)
Definition rwstat_addpatterns (fuel : nat) (c : rwstat_ch_priv) (arg : bool)
  : option rwstat_ch_priv :=
  if arg then addpatterns_loop fuel c 0 else Some c.

End AddPatterns.

(** ** Notions the properties are stated with *)

(** Bytes of the window that make one sample, as [ch_pack] computes them. *)
Definition sample_footprint (p : rwstat_pack) (m : rwstat_mapping) : Z :=
  pack_size p + match m with MAP_TUPLE => 2 | _ => 0 end.

(** The selectors that [rwstat_consume_event] has a case for. *)
Definition graphmode_selectors : list Z :=
  [0; 1; 10; 11; 12; 20; 21; 22; 23; 30; 31; 32].

(** Stand-ins for the two [float] computations, for running the model. *)
Definition hnorm_bucket_q (h acc : Z) : Z := ((255 * h) / acc) mod 2 ^ 8.
Definition update_entalpha_id (c : rwstat_ch_priv) (bsz : Z) : list byte := alpha c.

(** What a completed packing or mapping switch leaves: the modes, the
    side, the footprint and the raw buffer size that goes with them. *)
Definition packed (p : rwstat_pack) (m : rwstat_mapping) (b : Z)
  (c : rwstat_ch_priv) : Prop :=
  pack c = p /\ chmap c = m /\ base c = b
  /\ pack_sz c = sample_footprint p m
  /\ buf_sz c = b * b * sample_footprint p m.

(** ** One pattern followed through the window *)

(** Whether pattern [p] completes a match on byte [b], and the pattern it
    is after that byte: what [ptn_match] does to the pattern alone. *)
Definition ptn_done (b : byte) (p : Pattern.t) : bool :=
  bool_decide (Pattern.buf p !! Z.to_nat (Pattern.buf_pos p) = Some b)
  && (wrap_sz (Pattern.buf_pos p + 1) =? Pattern.buf_sz p).

Definition ptn_next (b : byte) (p : Pattern.t) : Pattern.t :=
  (ptn_match b 0 0 p (mk_pass [] x00 [])).1.

(** The window positions, counted from [i], at which [p] completes a
    match while the bytes [w] go by. *)
Fixpoint ptn_hits (p : Pattern.t) (w : list byte) (i : Z) : list Z :=
  match w with
  | [] => []
  | b :: w' =>
      (if ptn_done b p then [i] else []) ++ ptn_hits (ptn_next b p) w' (i + 1)
  end.

(** The paints of one round of the loop over [j], and of the whole scan. *)
Fixpoint round_paints (b : byte) (i : Z) (j : nat) (ps : list Pattern.t)
  : list paint :=
  match ps with
  | [] => []
  | p :: ps' =>
      (if ptn_done b p
       then [mk_paint j (i - Pattern.buf_sz p) (Pattern.alpha p) (Pattern.buf_sz p)]
       else [])
      ++ round_paints b i (S j) ps'
  end.

Fixpoint scan_paints (w : list byte) (i : Z) (ps : list Pattern.t)
  : list paint :=
  match w with
  | [] => []
  | b :: w' => round_paints b i 0 ps ++ scan_paints w' (i + 1) (map (ptn_next b) ps)
  end.

(** Pattern [p] after the bytes [w]. *)
Definition ptn_run (w : list byte) (p : Pattern.t) : Pattern.t :=
  fold_left (fun q b => ptn_next b q) w p.

(** The progress counter points into the pattern, whose length fits
    [size_t]. *)
Definition ptn_ok (p : Pattern.t) : Prop :=
  0 <= Pattern.buf_pos p < Pattern.buf_sz p /\ Pattern.buf_sz p < 2 ^ 64.

(** The window that a pass scans. *)
Definition window (c : rwstat_ch_priv) : list byte :=
  take (Z.to_nat (buf_sz c)) (buf c).

(** ** The pattern {0xDE, 0xAD} *)

(** A block-clocked raster channel of side [w] in pattern alpha mode with
    the one pattern {0xDE, 0xAD}, after it has absorbed [bytes]. *)
Definition ptn_channel (w : Z) (a : byte) (i fl : Z) (bytes : list byte)
  : option rwstat_ch_priv :=
  c0 ← rwstat_addch hnorm_bucket_q update_entalpha_id 6
         RW_CLK_BLOCK MAP_WRAP PACK_INTENS w;
  Some (ch_data hnorm_bucket_q update_entalpha_id
          (ch_pattern (ch_alpha c0 RW_ALPHA_PTN) a i fl [xde; xad]) bytes).1.1.

(** What the specification says of a pass when pattern [p] is the one
    registered and occurs twice: one notification with counter 2, and the
    pattern's opacity from [h - length + 1] through [h] for every match
    completed at [h]. *)
Definition ptn_alpha_claim (c : rwstat_ch_priv) (p : Pattern.t) : Prop :=
  let c' := update_ptnalpha c in
  cont c' = cont c ++ [CURSORINPUT (Pattern.id p) 2]
  /\ forall h, h ∈ ptn_hits (ptn_reset p) (window c) 0 ->
       forall k, h - Pattern.buf_sz p + 1 <= k <= h ->
         alpha c' !! Z.to_nat k = Some (Pattern.alpha p).

(** Side 3, opacity 0x80, identifier 7, emit-event; the pattern at window
    positions 1..2 and 4..5. *)
Definition ptn_example : rwstat_ch_priv :=
  default (zero_ch RW_CLK_BLOCK MAP_WRAP PACK_INTENS)
    (ptn_channel 3 x80 7 FLAG_EVENT
       [x00; xde; xad; x00; xde; xad; x00; x00; x00]).

(** The same with the pattern at positions 0..1 and 6..7 and a further
    0xDE and 0xAD, apart, in between. *)
Definition ptn_example_apart : rwstat_ch_priv :=
  default (zero_ch RW_CLK_BLOCK MAP_WRAP PACK_INTENS)
    (ptn_channel 3 x80 7 FLAG_EVENT
       [xde; xad; xde; x00; xad; x00; xde; xad; x00]).

(** ** Two small channels *)

(** Side 2, raster, intensity packing, as [rwstat_addch] leaves them. *)
Definition slide_example : rwstat_ch_priv :=
  default (zero_ch RW_CLK_SLIDE MAP_WRAP PACK_INTENS)
    (rwstat_addch hnorm_bucket_q update_entalpha_id 6
       RW_CLK_SLIDE MAP_WRAP PACK_INTENS 2).

Definition block_example : rwstat_ch_priv :=
  default (zero_ch RW_CLK_BLOCK MAP_WRAP PACK_INTENS)
    (rwstat_addch hnorm_bucket_q update_entalpha_id 6
       RW_CLK_BLOCK MAP_WRAP PACK_INTENS 2).

(** ** The curve table as the specification describes it *)

(** One round of the loop of [hilbert_d2xy] in plain arithmetic: where a
    point [(x, y)] of the square of side [s] goes for the base-4 digit [q]
    of the index. *)
Definition hilbert_place (s q x y : Z) : Z * Z :=
  if q =? 0 then (y, x)
  else if q =? 1 then (x, y + s)
  else if q =? 2 then (x + s, y + s)
  else (2 * s - 1 - y, s - 1 - x).

(** Every coordinate pair of the grid is the table entry of exactly one
    linear index below [side * side]. *)
Definition curve_bijection (side : Z) : Prop :=
  forall x y, 0 <= x < side -> 0 <= y < side ->
    exists i, 0 <= i < side * side
              /\ cmap_entry side i = Some (x, y)
              /\ forall i', 0 <= i' < side * side ->
                            cmap_entry side i' = Some (x, y) -> i' = i.

(** ** A stand-in for [log2f]

    For running the entropy functions: exact where the argument is a power
    of two, minus infinity at zero, not a number anywhere else. *)
Definition log2f_pow2 (x : spec_float) : spec_float :=
  match x with
  | S754_zero _ => S754_infinity true
  | S754_infinity false => S754_infinity false
  | S754_finite false m e =>
      if Z.pow 2 (Z.log2 (Zpos m)) =? Zpos m
      then f32_of_Z (Z.log2 (Zpos m) + e)
      else S754_nan
  | _ => S754_nan
  end.

(** ** The pattern pass as a whole *)

(** The notifications of a pass over [w]: for each pattern flagged
    emit-event that completes at least one match, its identifier and the
    number of matches, in registration order. *)
Definition ptn_notifications (ps : list Pattern.t) (w : list byte) : list event :=
  flat_map
    (fun p =>
       let n := Z.of_nat (length (ptn_hits (ptn_reset p) w 0)) in
       if (Z.land (Pattern.flags p) FLAG_EVENT =? 0) || (n =? 0) then []
       else [CURSORINPUT (Pattern.id p) n])
    ps.

(** Whether alpha index [k] lies in the span painted for a match
    completed at one of [hits] by a pattern of length [len]. *)
Definition ptn_cover (len : Z) (hits : list Z) (k : Z) : bool :=
  existsb (fun h => (h - len <=? k) && (k <? h)) hits.

(** The default opacity that the pass holds when it reaches position [k]:
    the pattern's once a pattern flagged persist has completed a match
    before [k], fully opaque otherwise. *)
Definition ptn_default (p : Pattern.t) (hits : list Z) (k : Z) : byte :=
  if negb (Z.land (Pattern.flags p) FLAG_STATE =? 0)
     && existsb (fun h => h <? k) hits
  then Pattern.alpha p else xff.

(** The opacity that a pass with the one pattern [p] leaves at window
    position [k]. *)
Definition ptn_alpha_at (p : Pattern.t) (w : list byte) (k : Z) : byte :=
  let hits := ptn_hits (ptn_reset p) w 0 in
  if ptn_cover (Pattern.buf_sz p) hits k then Pattern.alpha p
  else ptn_default p hits k.


(** ** The channel between operations *)

(** The buffers have the sizes that the fields say: the window [buf_sz]
    bytes, the alpha buffer side * side bytes, the histogram 256 buckets. *)
Definition ch_alloc (c : rwstat_ch_priv) : Prop :=
  Z.of_nat (length (buf c)) = buf_sz c
  /\ Z.of_nat (length (alpha c)) = base c * base c
  /\ length (hgram c) = 256%nat.

(** The curve table is there exactly for the curve mapping, built for the
    current side. *)
Definition ch_cmap_ok (c : rwstat_ch_priv) : Prop :=
  cmap c = match chmap c with
           | MAP_HILBERT => build_cmap (base c)
           | _ => None
           end.

(** What holds of a channel from [rwstat_addch] on. *)
Definition ch_inv (c : rwstat_ch_priv) : Prop :=
  ch_alloc c /\ ch_cmap_ok c
  /\ packed (pack c) (chmap c) (base c) c
  /\ 0 <= base c <= 2 ^ 30.


(** The fields that no packing, mapping or size switch touches. *)
Definition ch_kept (c c' : rwstat_ch_priv) : Prop :=
  clock c' = clock c /\ amode c' = amode c
  /\ cnt_total c' = cnt_total c /\ buf_ofs c' = buf_ofs c.


(** The stream-info event for packing [p] and mapping [m]: the two mode
    numbers and the footprint as ASCII digits. *)
Definition stream_info (p : rwstat_pack) (m : rwstat_mapping) : event :=
  STREAMINFO (48 + Z.of_nat (pack_index p)) (48 + Z.of_nat (map_index m))
    (48 + sample_footprint p m).


(** [m] rounds of the loop of [hilbert_d2xy] from side [s], in plain
    arithmetic. *)
Fixpoint hilbert_walk (m : nat) (s t x y : Z) : Z * Z :=
  match m with
  | O => (x, y)
  | S m' =>
      let '(x1, y1) := hilbert_place s (t mod 4) x y in
      hilbert_walk m' (2 * s) (t / 4) x1 y1
  end.

(** Two cells of the grid that share an edge. *)
Definition grid_adjacent (p q : Z * Z) : Prop :=
  Z.abs (p.1 - q.1) + Z.abs (p.2 - q.2) = 1.


(** Stand-ins for running [rwstat_addpatterns]: hexadecimal digits read
    until the first byte that is none, [nptr] never null; one argument
    pair, [val=de,ad] with an [opt]. *)
Definition hex_digit (b : byte) : option Z :=
  let n := byteZ b in
  if (48 <=? n) && (n <=? 57) then Some (n - 48)
  else if (97 <=? n) && (n <=? 102) then Some (n - 87)
  else if (65 <=? n) && (n <=? 70) then Some (n - 55)
  else None.

Fixpoint hex_value (acc : Z) (tv : list byte) : Z :=
  match tv with
  | [] => acc
  | b :: r => match hex_digit b with
              | Some d => hex_value (16 * acc + d) r
              | None => acc
              end
  end.

Definition strtoul16_hex (tv : list byte) : Z * bool := (hex_value 0 tv, false).

Definition arg_val_example (ind : Z) : option (list byte) :=
  if ind =? 0 then Some [x64; x65; x2c; x61; x64] else None.

Definition arg_opt_example (ind : Z) : bool := true.


(** ** A run of calls on a channel *)

(** The calls of the interface that cannot fail and do not resize:
    [data], [tick], [wind_ofs], [switch_clock] and [add_pattern]. *)
Inductive ch_call :=
| CallData (chunk : list byte)
| CallTick
| CallWind (ofs : Z)
| CallClock (k : rwstat_clock)
| CallPattern (a : byte) (i fl : Z) (b : list byte).

Definition ch_call_run (hnorm_bucket : Z -> Z -> Z)
  (update_entalpha : rwstat_ch_priv -> Z -> list byte)
  (c : rwstat_ch_priv) (call : ch_call) : rwstat_ch_priv :=
  match call with
  | CallData chunk => (ch_data hnorm_bucket update_entalpha c chunk).1.1
  | CallTick => ch_tick hnorm_bucket update_entalpha c
  | CallWind ofs => ch_wind c ofs
  | CallClock k => ch_reclock c k
  | CallPattern a i fl b => ch_pattern c a i fl b
  end.

(** The channel after the calls, made in order. *)
Definition ch_calls (hnorm_bucket : Z -> Z -> Z)
  (update_entalpha : rwstat_ch_priv -> Z -> list byte)
  (c : rwstat_ch_priv) (calls : list ch_call) : rwstat_ch_priv :=
  fold_left (ch_call_run hnorm_bucket update_entalpha) calls c.

(** * Properties *)

(** ** Machine integers *)

Lemma wrap_sz_small (z : Z) : 0 <= z < 2 ^ 64 -> wrap_sz z = z.
Proof. intros H. unfold wrap_sz. apply Z.mod_small. exact H. Qed.

Lemma wrap_sz_range (z : Z) : 0 <= wrap_sz z < 2 ^ 64.
Proof. unfold wrap_sz. apply Z.mod_pos_bound. lia. Qed.

Lemma wrap_int_small (z : Z) : - 2 ^ 31 <= z < 2 ^ 31 -> wrap_int z = z.
Proof. intros H. unfold wrap_int. rewrite Z.mod_small; lia. Qed.

(** ** Fields that the frame step leaves alone *)

(** A projection that the stores of the pattern pass do not reach. *)
Lemma update_ptnalpha_keeps {A} (f : rwstat_ch_priv -> A) :
  (forall v c, f (set_cont v c) = f c) ->
  (forall v c, f (set_patterns v c) = f c) ->
  (forall v c, f (set_alpha v c) = f c) ->
  forall c, f (update_ptnalpha c) = f c.
Proof.
  intros Hc Hp Ha c. unfold update_ptnalpha, update_ptnalpha_paints.
  destruct (patterns c); [apply Ha|].
  destruct (ptn_scan _ _ _ _) as [ps1 st].
  destruct (ptn_events ps1) as [ps2 evs]. simpl.
  rewrite Hc, Hp, Ha. reflexivity.
Qed.

Section StepFields.
Variable hnorm_bucket : Z -> Z -> Z.
Variable update_entalpha : rwstat_ch_priv -> Z -> list byte.
Let step := ch_step hnorm_bucket update_entalpha.

(** The same for the whole frame step. *)
Lemma ch_step_keeps {A} (f : rwstat_ch_priv -> A) :
  (forall v c, f (set_cont v c) = f c) ->
  (forall v c, f (set_patterns v c) = f c) ->
  (forall v c, f (set_alpha v c) = f c) ->
  (forall v c, f (set_hgram v c) = f c) ->
  (forall v c, f (set_status_dirty v c) = f c) ->
  (forall v c, f (set_cnt_local v c) = f c) ->
  forall c, f (step c) = f c.
Proof.
  intros Hc Hp Ha Hh Hd Hl c. unfold step, ch_step. cbv zeta.
  rewrite Hl.
  match goal with |- context [amode ?x] => destruct (amode x) end;
    rewrite ?Ha, ?(update_ptnalpha_keeps f Hc Hp Ha);
    match goal with |- context [pack ?x] => destruct (pack x) end;
    rewrite ?Hh;
    match goal with |- context [clock ?x] => destruct (clock x) end;
    unfold rebuild_hgram; rewrite ?Hh;
    match goal with |- context [status_dirty ?x] => destruct (status_dirty x) end;
    unfold enqueue; rewrite ?Hc, ?Hd, ?Hc; reflexivity.
Qed.

Lemma ch_step_buf c : buf (step c) = buf c.
Proof. apply (ch_step_keeps buf); reflexivity. Qed.
Lemma ch_step_buf_sz c : buf_sz (step c) = buf_sz c.
Proof. apply (ch_step_keeps buf_sz); reflexivity. Qed.
Lemma ch_step_buf_ofs c : buf_ofs (step c) = buf_ofs c.
Proof. apply (ch_step_keeps buf_ofs); reflexivity. Qed.
Lemma ch_step_base c : base (step c) = base c.
Proof. apply (ch_step_keeps base); reflexivity. Qed.
Lemma ch_step_pack_sz c : pack_sz (step c) = pack_sz c.
Proof. apply (ch_step_keeps pack_sz); reflexivity. Qed.
Lemma ch_step_pack c : pack (step c) = pack c.
Proof. apply (ch_step_keeps pack); reflexivity. Qed.
Lemma ch_step_chmap c : chmap (step c) = chmap c.
Proof. apply (ch_step_keeps chmap); reflexivity. Qed.

End StepFields.

(** ** What a frame step always does *)

Lemma update_ptnalpha_queues (c : rwstat_ch_priv) :
  exists evs, cont (update_ptnalpha c) = cont c ++ evs.
Proof.
  unfold update_ptnalpha, update_ptnalpha_paints.
  destruct (patterns c); [exists []; cbn; symmetry; apply app_nil_r|].
  destruct (ptn_scan _ _ _ _) as [ps1 st].
  destruct (ptn_events ps1) as [ps2 evs]. exists evs. reflexivity.
Qed.

Section StepFrame.
Variable hnorm_bucket : Z -> Z -> Z.
Variable update_entalpha : rwstat_ch_priv -> Z -> list byte.
Let step := ch_step hnorm_bucket update_entalpha.

(** The frame status is queued first, with the two counters as they
    were; the frame counter then catches up with the stream position and
    the changed flag is clear. *)
Lemma ch_step_frame (c : rwstat_ch_priv) :
  (exists evs,
     cont (step c) = cont c ++ FRAMESTATUS (cnt_local c) (cnt_total c) :: evs)
  /\ cnt_local (step c) = cnt_total c
  /\ status_dirty (step c) = false.
Proof.
  unfold step, ch_step. cbv zeta.
  set (c1 := enqueue _ c).
  set (c2 := if status_dirty c1 then _ else c1).
  assert (H2 : (exists evs, cont c2
                  = cont c ++ FRAMESTATUS (cnt_local c) (cnt_total c) :: evs)
               /\ status_dirty c2 = false /\ cnt_total c2 = cnt_total c).
  { subst c2 c1. unfold enqueue. cbn [status_dirty set_cont].
    destruct (status_dirty c) eqn:Hd; cbn; rewrite ?Hd.
    - split; [|auto]. eexists. rewrite <- app_assoc. reflexivity.
    - split; [|auto]. exists []. reflexivity. }
  clearbody c2. clear c1.
  set (c3 := match clock c2 with
             | RW_CLK_BLOCK => c2 | RW_CLK_SLIDE => rebuild_hgram c2 end).
  assert (H3 : cont c3 = cont c2 /\ status_dirty c3 = status_dirty c2
               /\ cnt_total c3 = cnt_total c2)
    by (subst c3; unfold rebuild_hgram; destruct (clock c2); cbn; auto).
  set (c4 := match pack c3 with
             | PACK_HINTENS => set_hgram (hnorm hnorm_bucket (hgram c3)) c3
             | _ => c3 end).
  assert (H4 : cont c4 = cont c2 /\ status_dirty c4 = status_dirty c2
               /\ cnt_total c4 = cnt_total c2)
    by (subst c4; destruct (pack c3); cbn; tauto).
  clearbody c4. clear c3 H3.
  destruct H2 as ((evs & Hc) & Hd & Ht). destruct H4 as (B1 & B2 & B3).
  destruct (amode c4); cbn [cont status_dirty cnt_local cnt_total
                              set_cnt_local set_alpha].
  - rewrite B1, B2, B3, Hc, Hd, Ht. eauto.
  - rewrite (update_ptnalpha_keeps status_dirty),
      (update_ptnalpha_keeps cnt_total) by reflexivity.
    destruct (update_ptnalpha_queues c4) as (evs' & ->).
    rewrite B1, B2, B3, Hc, Hd, Ht, <- app_assoc. cbn [app]. eauto.
  - rewrite B1, B2, B3, Hc, Hd, Ht. eauto.
Qed.

End StepFrame.

(** ** Ingest *)

Lemma store_length l i v : length (store l i v) = length l.
Proof. unfold store. case_match; [apply length_insert | reflexivity]. Qed.

Lemma ingest_loop_ofs xs h b o :
  0 <= o < 2 ^ 64 ->
  (ingest_loop xs (h, b, o)).2 = wrap_sz (o + Z.of_nat (length xs)).
Proof.
  revert h b o. induction xs as [|x xs IH]; intros h b o Ho.
  - simpl. rewrite Z.add_0_r, wrap_sz_small; auto.
  - unfold ingest_loop in *. simpl fold_left. rewrite IH by apply wrap_sz_range.
    unfold wrap_sz. rewrite Zplus_mod_idemp_l. f_equal.
    rewrite length_cons. lia.
Qed.

Lemma ingest_loop_buf xs h b o :
  0 <= o -> o + Z.of_nat (length xs) <= Z.of_nat (length b) ->
  Z.of_nat (length b) < 2 ^ 64 ->
  (ingest_loop xs (h, b, o)).1.2
  = take (Z.to_nat o) b ++ xs ++ drop (Z.to_nat o + length xs) b.
Proof.
  revert h b o. induction xs as [|x xs IH]; intros h b o Ho Hle Hb.
  - simpl. rewrite Nat.add_0_r, take_drop. reflexivity.
  - unfold ingest_loop in *. simpl fold_left. rewrite length_cons in Hle.
    rewrite wrap_sz_small by lia.
    rewrite IH; rewrite ?store_length; try lia.
    unfold store. rewrite (proj2 (Z.leb_le 0 o)) by lia.
    rewrite (proj2 (Z.ltb_lt o _)) by lia. simpl andb. cbv iota.
    replace (Z.to_nat (o + 1)) with (S (Z.to_nat o)) by lia.
    assert (Hlt : (Z.to_nat o < length b)%nat) by lia.
    destruct (lookup_lt_is_Some_2 b (Z.to_nat o) Hlt) as [y Hy].
    rewrite (take_S_r _ _ x) by (rewrite list_lookup_insert_eq; auto).
    rewrite take_insert_ge by lia.
    rewrite drop_insert_lt by lia.
    rewrite <- app_assoc. simpl. rewrite Nat.add_succ_r. reflexivity.
Qed.

Lemma ingest_loop_hgram xs h b o :
  (ingest_loop xs (h, b, o)).1.1 = fold_left hgram_inc xs h.
Proof.
  revert h b o. induction xs as [|x xs IH]; intros h b o; [reflexivity|].
  unfold ingest_loop in *. simpl. apply IH.
Qed.

Lemma memmove_front_shift (l : list byte) (k : Z) :
  0 <= k <= Z.of_nat (length l) ->
  memmove_front l k (Z.of_nat (length l) - k)
  = drop (Z.to_nat k) l ++ drop (length l - Z.to_nat k) l.
Proof.
  intros Hk. unfold memmove_front.
  rewrite take_ge by (rewrite length_drop; lia).
  rewrite length_drop. reflexivity.
Qed.

Section Ingest.
Variable hnorm_bucket : Z -> Z -> Z.
Variable update_entalpha : rwstat_ch_priv -> Z -> list byte.
Let step := ch_step hnorm_bucket update_entalpha.
Let data := ch_data hnorm_bucket update_entalpha.

(** C4.  Slide mode, chunk strictly shorter than the window: the window
    after the call is the old window without its first [length chunk]
    bytes (its last [buf_sz - length chunk] bytes, in order) followed by
    the chunk; the whole chunk is consumed and the frame is built: the
    channel left is the frame step of the channel with that window, the
    chunk counted in the histogram and fill offset 0, so a frame status
    with the counters of before is queued and the frame counter has
    caught up with the stream position. *)
Theorem slide_ingest_short_chunk (c : rwstat_ch_priv) (chunk : list byte) :
  clock c = RW_CLK_SLIDE ->
  Z.of_nat (length (buf c)) = buf_sz c ->
  buf_sz c < 2 ^ 64 ->
  Z.of_nat (length chunk) < buf_sz c ->
  exists c',
    data c chunk = (c', Z.of_nat (length chunk), true)
    /\ buf c' = drop (length chunk) (buf c) ++ chunk
    /\ Z.of_nat (length (drop (length chunk) (buf c)))
       = buf_sz c - Z.of_nat (length chunk)
    /\ Z.of_nat (length (buf c')) = buf_sz c
    /\ c' = step (set_buf_ofs 0
                    (set_buf (drop (length chunk) (buf c) ++ chunk)
                       (set_hgram (fold_left hgram_inc chunk (hgram c)) c)))
    /\ (exists evs,
          cont c' = cont c ++ FRAMESTATUS (cnt_local c) (cnt_total c) :: evs)
    /\ cnt_local c' = cnt_total c
    /\ status_dirty c' = false.
Proof.
  intros Hclk Hlen Hsz Hlt. unfold data, ch_data. rewrite Hclk.
  rewrite (proj2 (Z.ltb_lt _ _) Hlt).
  rewrite Nat2Z.id, firstn_all.
  set (n := Z.of_nat (length chunk)) in *.
  rewrite (wrap_sz_small (buf_sz c - n)) by lia. cbn [hgram buf buf_ofs set_buf set_buf_ofs].
  destruct (ingest_loop _ _) as [[h b] o] eqn:E.
  assert (Hshift : memmove_front (buf c) n (buf_sz c - n)
                   = drop (length chunk) (buf c)
                     ++ drop (length (buf c) - length chunk) (buf c)).
  { rewrite <- Hlen, memmove_front_shift by lia. unfold n.
    rewrite Nat2Z.id. reflexivity. }
  rewrite Hshift in E.
  set (keep := drop (length chunk) (buf c)) in *.
  set (tl := drop (length (buf c) - length chunk) (buf c)) in *.
  assert (Hkeep : length keep = (length (buf c) - length chunk)%nat)
    by (unfold keep; apply length_drop).
  assert (Htl : length tl = length chunk)
    by (unfold tl; rewrite length_drop; lia).
  assert (Ho : o = buf_sz c).
  { pose proof (ingest_loop_ofs chunk (hgram c) (keep ++ tl) (buf_sz c - n)) as H.
    rewrite E in H. simpl in H. rewrite H by lia.
    fold n. replace (buf_sz c - n + n) with (buf_sz c) by lia.
    apply wrap_sz_small. lia. }
  assert (Hb : b = keep ++ chunk).
  { pose proof (ingest_loop_buf chunk (hgram c) (keep ++ tl) (buf_sz c - n)) as H.
    rewrite E in H. simpl in H. rewrite H; rewrite ?length_app; try lia.
    replace (Z.to_nat (buf_sz c - n)) with (length keep) by lia.
    rewrite take_app_length.
    rewrite drop_ge by (rewrite length_app; lia).
    rewrite app_nil_r. reflexivity. }
  assert (Hh : h = fold_left hgram_inc chunk (hgram c)).
  { pose proof (ingest_loop_hgram chunk (hgram c) (keep ++ tl) (buf_sz c - n)) as H.
    rewrite E in H. exact H. }
  subst o b h. cbn [buf_sz set_buf set_buf_ofs set_hgram].
  rewrite Z.eqb_refl. eexists. split; [reflexivity|].
  rewrite ch_step_buf. cbn [buf set_buf set_buf_ofs set_hgram].
  split; [reflexivity|]. split; [lia|].
  split; [rewrite length_app; lia|]. split; [reflexivity|].
  match goal with |- context [ch_step _ _ ?x] => set (c2 := x) end.
  destruct (ch_step_frame hnorm_bucket update_entalpha c2) as (He & Hl & Hd).
  auto.
Qed.

(** C5.  Block mode: the count returned is the minimum of the caller's
    length and the remaining capacity [ch_left] (window size minus fill
    offset, in [size_t]); the frame is built exactly when the absorbed
    bytes bring the fill offset to the window size, and the fill offset is
    zero after such a call.  Built means: the channel left is the frame
    step of the channel with the bytes absorbed and fill offset 0, a frame
    status with the counters of before is queued and the frame counter
    has caught up with the stream position; not built means: nothing is
    queued and the frame counter stays. *)
Theorem block_ingest_consumed (c : rwstat_ch_priv) (chunk : list byte) :
  clock c = RW_CLK_BLOCK ->
  0 <= buf_ofs c < 2 ^ 64 ->
  0 <= buf_sz c < 2 ^ 64 ->
  let n := Z.min (Z.of_nat (length chunk)) (ch_left c) in
  exists c' st,
    data c chunk = (c', n, st)
    /\ (st = true <-> wrap_sz (buf_ofs c + n) = buf_sz c)
    /\ (st = true -> buf_ofs c' = 0)
    /\ (st = false -> buf_ofs c' = wrap_sz (buf_ofs c + n))
    /\ (buf_ofs c <= buf_sz c ->
        ch_left c = buf_sz c - buf_ofs c
        /\ (st = true <-> buf_ofs c + n = buf_sz c))
    /\ (st = true ->
        (let '(h, b, _) := ingest_loop (take (Z.to_nat n) chunk)
                             (hgram c, buf c, buf_ofs c) in
         c' = step (set_buf_ofs 0 (set_buf b (set_hgram h c))))
        /\ (exists evs,
              cont c'
              = cont c ++ FRAMESTATUS (cnt_local c) (cnt_total c) :: evs)
        /\ cnt_local c' = cnt_total c
        /\ status_dirty c' = false)
    /\ (st = false -> cont c' = cont c /\ cnt_local c' = cnt_local c).
Proof.
  intros Hclk Hofs Hsz n. unfold data, ch_data. rewrite Hclk.
  fold (ch_left c).
  assert (Hn : (if Z.of_nat (length chunk) <? ch_left c
                then Z.of_nat (length chunk) else ch_left c) = n).
  { unfold n. destruct (Z.ltb_spec (Z.of_nat (length chunk)) (ch_left c)); lia. }
  rewrite Hn.
  pose proof (wrap_sz_range (buf_sz c - buf_ofs c)) as Hleft.
  fold (ch_left c) in Hleft.
  assert (Hn0 : 0 <= n <= Z.of_nat (length chunk)) by (unfold n; lia).
  destruct (ingest_loop _ _) as [[h b] o] eqn:E.
  assert (Ho : o = wrap_sz (buf_ofs c + n)).
  { pose proof (ingest_loop_ofs (take (Z.to_nat n) chunk) (hgram c) (buf c)
                  (buf_ofs c) Hofs) as H.
    rewrite E in H. simpl in H. rewrite H, length_take. f_equal. lia. }
  cbn [buf_sz set_buf set_buf_ofs set_hgram].
  assert (Hplain : buf_ofs c <= buf_sz c ->
                   ch_left c = buf_sz c - buf_ofs c
                   /\ wrap_sz (buf_ofs c + n) = buf_ofs c + n).
  { intros Hle.
    assert (Hl : ch_left c = buf_sz c - buf_ofs c)
      by (unfold ch_left; apply wrap_sz_small; lia).
    split; [exact Hl|]. apply wrap_sz_small. unfold n. lia. }
  destruct (Z.eqb_spec o (buf_sz c)) as [Heq|Hne].
  - eexists _, true. split; [reflexivity|]. rewrite ch_step_buf_ofs.
    cbn [buf_ofs set_buf_ofs]. rewrite <- Ho.
    match goal with |- context [ch_step _ _ ?x] => set (c2 := x) end.
    destruct (ch_step_frame hnorm_bucket update_entalpha c2) as (He & Hl & Hd).
    split; [tauto|]. split; [reflexivity|]. split; [discriminate|].
    split; [|split; [|discriminate]].
    + intros H. destruct (Hplain H) as [Hc Hw]. split; [exact Hc|].
      split; [intros _; lia|reflexivity].
    + intros _. split; [reflexivity|]. auto.
  - eexists _, false. split; [reflexivity|]. cbn [buf_ofs set_buf_ofs].
    rewrite <- Ho.
    split; [split; [discriminate|contradiction]|].
    split; [discriminate|]. split; [reflexivity|].
    split; [|split; [discriminate|intros _; split; reflexivity]].
    intros H. destruct (Hplain H) as [Hc Hw]. split; [exact Hc|].
    split; [discriminate|intros Hx; lia].
Qed.

End Ingest.

(** ** The histogram is never cleared *)

(** C2.  A channel made by [rwstat_addch] in slide mode on a segment of
    width 2 counts 8 in its histogram before any byte is absorbed (two
    frame steps, each adding the four zero bytes of the window); after one
    call absorbing the single byte 0x41 the buckets sum to 13. *)
Theorem slide_histogram_exceeds_absorbed
  (hnorm_bucket : Z -> Z -> Z)
  (update_entalpha : rwstat_ch_priv -> Z -> list byte) :
  exists c0 c1,
    rwstat_addch hnorm_bucket update_entalpha 6
      RW_CLK_SLIDE MAP_WRAP PACK_INTENS 2 = Some c0
    /\ hgram_sum (hgram c0) = 8
    /\ ch_data hnorm_bucket update_entalpha c0 [x41] = (c1, 1, true)
    /\ hgram_sum (hgram c1) = 13
    /\ buf c1 = [x00; x00; x00; x41].
Proof.
  eexists _, _. split; [vm_compute; reflexivity|].
  split; [vm_compute; reflexivity|].
  split; [vm_compute; reflexivity|].
  split; vm_compute; reflexivity.
Qed.

(** ** Termination of the Hilbert loop *)

Lemma hilbert_loop_total (fuel : nat) (j : nat) (n t x y : Z) :
  n <= 2 ^ 30 -> (j <= 30)%nat -> (31 <= fuel + j)%nat ->
  is_Some (hilbert_loop fuel n (2 ^ Z.of_nat j) t x y).
Proof.
  revert j t x y. induction fuel as [|f IH]; intros j t x y Hn Hj Hf.
  - assert (j = 30%nat) as -> by lia.
    cbn [hilbert_loop]. change (Z.of_nat 30) with 30.
    destruct (Z.ltb_spec (2 ^ 30) n); [lia|]. eauto.
  - cbn [hilbert_loop]. destruct (Z.ltb_spec (2 ^ Z.of_nat j) n) as [Hlt|]; [|eauto].
    destruct (hilbert_rot _ _ _ _ _) as [x1 y1].
    assert (Hj' : (j < 30)%nat).
    { destruct (decide (j < 30)%nat) as [|Hge]; [assumption|].
      assert (j = 30%nat) as -> by lia. change (Z.of_nat 30) with 30 in Hlt.
      lia. }
    assert (Hs : imul (2 ^ Z.of_nat j) 2 = 2 ^ Z.of_nat (S j)).
    { unfold imul. rewrite Nat2Z.inj_succ, Z.pow_succ_r by lia.
      rewrite wrap_int_small; [lia|].
      assert (0 < 2 ^ Z.of_nat j <= 2 ^ 29)
        by (split; [apply Z.pow_pos_nonneg; lia
                   | apply Z.pow_le_mono_r; lia]).
      lia. }
    rewrite Hs. apply IH; lia.
Qed.

Lemma hilbert_d2xy_total (n d : Z) : n <= 2 ^ 30 -> is_Some (hilbert_d2xy n d).
Proof.
  intros Hn. unfold hilbert_d2xy, hilbert_fuel.
  apply (hilbert_loop_total 32 0 n d 0 0); [assumption|lia|lia].
Qed.

Lemma build_cmap_total (b : Z) : 0 <= b <= 2 ^ 30 -> is_Some (build_cmap b).
Proof.
  intros Hb. unfold build_cmap. apply mapM_is_Some, Forall_forall.
  intros i _. unfold compose, cmap_entry.
  assert (Hn : int_of_size b = b) by (apply wrap_int_small; lia).
  rewrite Hn.
  destruct (hilbert_d2xy_total b (int_of_size i)) as [[x y] ->]; [lia|].
  simpl. eauto.
Qed.

(** ** Packing and mapping switches *)

Lemma sample_footprint_range p m : 1 <= sample_footprint p m <= 6.
Proof. destruct p, m; vm_compute; split; discriminate. Qed.

Lemma size_no_wrap (b k : Z) :
  0 <= b <= 2 ^ 30 -> 1 <= k <= 6 ->
  wrap_sz (wrap_sz (b * b) * k) = b * b * k.
Proof.
  intros Hb Hk.
  assert (0 <= b * b <= 2 ^ 30 * 2 ^ 30) by nia.
  rewrite (wrap_sz_small (b * b)) by lia. apply wrap_sz_small. nia.
Qed.

Section Switch.
Variable hnorm_bucket : Z -> Z -> Z.
Variable update_entalpha : rwstat_ch_priv -> Z -> list byte.
Let step := ch_step hnorm_bucket update_entalpha.
Let pack_f := ch_pack hnorm_bucket update_entalpha.
Let resize_f := ch_resize hnorm_bucket update_entalpha.
Let map_f := ch_map hnorm_bucket update_entalpha.

Lemma packed_step p m b c : packed p m b c -> packed p m b (step c).
Proof.
  unfold packed, step.
  rewrite ch_step_pack, ch_step_chmap, ch_step_base, ch_step_pack_sz,
    ch_step_buf_sz. tauto.
Qed.

(** The three bodies, one call unfolded. *)
Lemma ch_pack_S f c p :
  pack_f (S f) c p =
  (let c2 := ch_pack_footprint c p in
   c3 ← (if buf_sz c2 =? wrap_sz (wrap_sz (base c2 * base c2) * pack_sz c2)
         then Some c2 else resize_f f c2 (base c2));
   Some (set_status_dirty true c3)).
Proof. reflexivity. Qed.

Lemma ch_resize_S f c b :
  resize_f (S f) c b =
  (let bsqr := wrap_sz (b * b) in
   let sz := wrap_sz (bsqr * pack_sz c) in
   let c4 := set_base b
               (set_alpha (replicate (Z.to_nat bsqr) xff)
                  (set_buf (replicate (Z.to_nat sz) x00) (set_buf_sz sz c))) in
   map_f f c4 (chmap c4)).
Proof. reflexivity. Qed.

Lemma ch_map_S f c m :
  map_f (S f) c m =
  (let c1 := set_cmap None (set_chmap m c) in
   c2 ← match m with
        | MAP_HILBERT =>
            tbl ← build_cmap (base c1); Some (set_cmap (Some tbl) c1)
        | _ => Some c1
        end;
   c3 ← pack_f f c2 (pack c2);
   Some (step (set_status_dirty true c3))).
Proof. reflexivity. Qed.

Lemma ch_pack_footprint_fields c p :
  let c2 := ch_pack_footprint c p in
  pack c2 = p /\ chmap c2 = chmap c /\ base c2 = base c
  /\ buf_sz c2 = buf_sz c
  /\ pack_sz c2 = sample_footprint p (chmap c).
Proof.
  unfold ch_pack_footprint, sample_footprint.
  cbn [chmap set_pack_sz set_pack pack_sz].
  destruct (chmap c) eqn:Hm; cbn; rewrite ?Hm, ?Z.add_0_r;
    repeat split; auto.
  destruct p; reflexivity.
Qed.

Lemma packed_dirty p m b c : packed p m b c -> packed p m b (set_status_dirty true c).
Proof. unfold packed. cbn. tauto. Qed.

Lemma ch_pack_sized f c p :
  0 <= base c <= 2 ^ 30 ->
  buf_sz c = base c * base c * sample_footprint p (chmap c) ->
  exists c', pack_f (S f) c p = Some c' /\ packed p (chmap c) (base c) c'.
Proof.
  intros Hb Hsz. pose proof (sample_footprint_range p (chmap c)) as Hk.
  rewrite ch_pack_S. cbv zeta.
  destruct (ch_pack_footprint_fields c p) as (H1 & H2 & H3 & H4 & H5).
  rewrite H3, H4, H5, size_no_wrap, (proj2 (Z.eqb_eq _ _) Hsz) by assumption.
  simpl. eexists. split; [reflexivity|]. apply packed_dirty.
  unfold packed. rewrite H1, H2, H3, H4, H5. auto.
Qed.

Lemma ch_map_sized f c m :
  0 <= base c <= 2 ^ 30 ->
  buf_sz c = base c * base c * sample_footprint (pack c) m ->
  exists c', map_f (S (S f)) c m = Some c' /\ packed (pack c) m (base c) c'.
Proof.
  intros Hb Hsz. rewrite ch_map_S. cbv zeta.
  assert (Hc2 : exists c2,
    match m with
    | MAP_HILBERT =>
        tbl ← build_cmap (base (set_cmap None (set_chmap m c)));
        Some (set_cmap (Some tbl) (set_cmap None (set_chmap m c)))
    | _ => Some (set_cmap None (set_chmap m c))
    end = Some c2
    /\ pack c2 = pack c /\ chmap c2 = m /\ base c2 = base c
    /\ buf_sz c2 = buf_sz c).
  { destruct m; try (eexists; split; [reflexivity|cbn; auto]).
    cbn [base set_cmap set_chmap].
    destruct (build_cmap_total (base c) Hb) as [tbl ->]. simpl.
    eexists; split; [reflexivity|cbn; auto]. }
  destruct Hc2 as (c2 & -> & Hp & Hm & Hbs & Hbz).
  cbn [mbind option_bind].
  destruct (ch_pack_sized f c2 (pack c2)) as (c3 & E & Hpk).
  { rewrite Hbs. assumption. }
  { rewrite Hbz, Hbs, Hp, Hm. assumption. }
  rewrite E. cbn [mbind option_bind]. eexists. split; [reflexivity|].
  apply packed_step, packed_dirty.
  rewrite Hp, Hm, Hbs in Hpk. assumption.
Qed.

Lemma ch_resize_footprint f c b :
  0 <= b <= 2 ^ 30 ->
  pack_sz c = sample_footprint (pack c) (chmap c) ->
  exists c', resize_f (S (S (S f))) c b = Some c'
             /\ packed (pack c) (chmap c) b c'.
Proof.
  intros Hb Hps. rewrite ch_resize_S. cbv zeta.
  pose proof (sample_footprint_range (pack c) (chmap c)) as Hk.
  rewrite Hps, size_no_wrap by assumption.
  match goal with |- context [map_f _ ?c4 _] => set (c4' := c4) end.
  destruct (ch_map_sized f c4' (chmap c4')) as (c' & E & Hpk).
  - subst c4'. cbn. exact Hb.
  - subst c4'. cbn. reflexivity.
  - exists c'. split; [exact E|]. subst c4'. exact Hpk.
Qed.

Lemma ch_pack_switch f c p :
  0 <= base c <= 2 ^ 30 ->
  exists c', pack_f (S (S (S (S f)))) c p = Some c'
             /\ packed p (chmap c) (base c) c'.
Proof.
  intros Hb.
  destruct (decide (buf_sz c = base c * base c * sample_footprint p (chmap c)))
    as [Hsz|Hsz]; [apply ch_pack_sized; assumption|].
  rewrite ch_pack_S. cbv zeta.
  pose proof (sample_footprint_range p (chmap c)) as Hk.
  destruct (ch_pack_footprint_fields c p) as (H1 & H2 & H3 & H4 & H5).
  rewrite H3, H4, H5, size_no_wrap by assumption.
  rewrite (proj2 (Z.eqb_neq _ _) Hsz).
  destruct (ch_resize_footprint f (ch_pack_footprint c p) (base c))
    as (c' & E & Hpk); [assumption|rewrite H1, H2, H5; reflexivity|].
  rewrite E. cbn [mbind option_bind]. eexists. split; [reflexivity|].
  apply packed_dirty. rewrite H1, H2 in Hpk. exact Hpk.
Qed.

Lemma ch_map_switch f c m :
  0 <= base c <= 2 ^ 30 ->
  exists c', map_f (S (S (S (S (S f))))) c m = Some c'
             /\ packed (pack c) m (base c) c'.
Proof.
  intros Hb. rewrite ch_map_S. cbv zeta.
  assert (Hc2 : exists c2,
    match m with
    | MAP_HILBERT =>
        tbl ← build_cmap (base (set_cmap None (set_chmap m c)));
        Some (set_cmap (Some tbl) (set_cmap None (set_chmap m c)))
    | _ => Some (set_cmap None (set_chmap m c))
    end = Some c2
    /\ pack c2 = pack c /\ chmap c2 = m /\ base c2 = base c).
  { destruct m; try (eexists; split; [reflexivity|cbn; auto]).
    cbn [base set_cmap set_chmap].
    destruct (build_cmap_total (base c) Hb) as [tbl ->]. simpl.
    eexists; split; [reflexivity|cbn; auto]. }
  destruct Hc2 as (c2 & -> & Hp & Hm & Hbs).
  cbn [mbind option_bind].
  destruct (ch_pack_switch f c2 (pack c2)) as (c3 & E & Hpk);
    [rewrite Hbs; assumption|].
  rewrite E. cbn [mbind option_bind]. eexists. split; [reflexivity|].
  apply packed_step, packed_dirty.
  rewrite Hp, Hm, Hbs in Hpk. assumption.
Qed.

Lemma packed_size p m b c :
  packed p m b c ->
  pack_sz c = sample_footprint p m
  /\ buf_sz c = base c * base c * pack_sz c
  /\ buf_sz c mod (base c * base c) = 0.
Proof.
  intros (_ & _ & Hb & Hps & Hsz). rewrite Hb, Hps. repeat split; auto.
  rewrite Hsz, (Z.mul_comm (b * b)). apply Z_mod_mult.
Qed.

(** C6.  The footprint is 4, 3, 1, 1 for full-tight, tight-no-alpha,
    intensity and histogram-intensity, plus 2 under the coordinate-tuple
    mapping; a packing or a mapping switch completes and leaves the
    footprint of the modes in [pack_sz] and a raw buffer of side * side *
    footprint bytes, a multiple of side * side. *)
Theorem footprint_and_buffer_size (fuel : nat) (c : rwstat_ch_priv) :
  (5 <= fuel)%nat -> 0 <= base c <= 2 ^ 30 ->
  (map (fun p => sample_footprint p MAP_WRAP)
     [PACK_TIGHT; PACK_TNOALPHA; PACK_INTENS; PACK_HINTENS] = [4; 3; 1; 1]
   /\ forall p,
        sample_footprint p MAP_TUPLE = sample_footprint p MAP_WRAP + 2
        /\ sample_footprint p MAP_HILBERT = sample_footprint p MAP_WRAP)
  /\ (forall p, exists c',
        pack_f fuel c p = Some c'
        /\ pack c' = p /\ chmap c' = chmap c /\ base c' = base c
        /\ pack_sz c' = sample_footprint p (chmap c)
        /\ buf_sz c' = base c' * base c' * pack_sz c'
        /\ buf_sz c' mod (base c' * base c') = 0)
  /\ (forall m, exists c',
        map_f fuel c m = Some c'
        /\ pack c' = pack c /\ chmap c' = m /\ base c' = base c
        /\ pack_sz c' = sample_footprint (pack c) m
        /\ buf_sz c' = base c' * base c' * pack_sz c'
        /\ buf_sz c' mod (base c' * base c') = 0).
Proof.
  intros Hf Hb. destruct fuel as [|[|[|[|[|f]]]]]; try lia.
  split; [split; [reflexivity|intros []; split; reflexivity]|]. split.
  - intros p. destruct (ch_pack_switch (S f) c p Hb) as (c' & E & Hpk).
    exists c'. split; [exact E|].
    destruct (packed_size _ _ _ _ Hpk) as (H1 & H2 & H3).
    destruct Hpk as (? & ? & ? & _). auto 10.
  - intros m. destruct (ch_map_switch f c m Hb) as (c' & E & Hpk).
    exists c'. split; [exact E|].
    destruct (packed_size _ _ _ _ Hpk) as (H1 & H2 & H3).
    destruct Hpk as (? & ? & ? & _). auto 10.
Qed.

Lemma switch_total (fuel : nat) (c : rwstat_ch_priv) :
  (5 <= fuel)%nat -> 0 <= base c <= 2 ^ 30 ->
  (forall p, is_Some (pack_f fuel c p)) /\ (forall m, is_Some (map_f fuel c m)).
Proof.
  intros Hf Hb. destruct fuel as [|[|[|[|[|f]]]]]; try lia. split.
  - intros p. destruct (ch_pack_switch (S f) c p Hb) as (c' & E & _). eauto.
  - intros m. destruct (ch_map_switch f c m Hb) as (c' & E & _). eauto.
Qed.

(** C8.  The dispatcher sends each selector it knows to its operation and
    returns true once that operation has returned; for any other selector
    it returns false, leaves the channel as it was and writes the selector
    to the diagnostic stream. *)
Theorem consume_event_dispatch (fuel : nat) (c : rwstat_ch_priv) :
  let ev iv := rwstat_consume_event hnorm_bucket update_entalpha fuel c
                 (GRAPHMODE iv) in
  let ok (r : option rwstat_ch_priv) := c1 ← r; Some (true, c1, []) in
  (ev 0 = ok (Some (ch_reclock c RW_CLK_BLOCK))
   /\ ev 1 = ok (Some (ch_reclock c RW_CLK_SLIDE))
   /\ ev 10 = ok (map_f fuel c MAP_WRAP)
   /\ ev 11 = ok (map_f fuel c MAP_TUPLE)
   /\ ev 12 = ok (map_f fuel c MAP_HILBERT)
   /\ ev 20 = ok (pack_f fuel c PACK_INTENS)
   /\ ev 21 = ok (pack_f fuel c PACK_HINTENS)
   /\ ev 22 = ok (pack_f fuel c PACK_TIGHT)
   /\ ev 23 = ok (pack_f fuel c PACK_TNOALPHA)
   /\ ev 30 = ok (Some (ch_alpha c RW_ALPHA_FULL))
   /\ ev 31 = ok (Some (ch_alpha c RW_ALPHA_PTN))
   /\ ev 32 = ok (Some (ch_alpha c RW_ALPHA_ENTBASE)))
  /\ (forall iv, iv ∉ graphmode_selectors -> ev iv = Some (false, c, [iv]))
  /\ ((5 <= fuel)%nat -> 0 <= base c <= 2 ^ 30 ->
      forall iv, iv ∈ graphmode_selectors ->
                 exists c', ev iv = Some (true, c', [])).
Proof.
  intros ev ok. split; [repeat split|]. split.
  - intros iv Hni. unfold graphmode_selectors in Hni.
    rewrite !not_elem_of_cons in Hni.
    destruct Hni as (?&?&?&?&?&?&?&?&?&?&?&?&_).
    unfold ev, rwstat_consume_event.
    destruct iv as [|q|q]; [lia| |reflexivity].
    do 6 (try (destruct q as [q|q|]; try reflexivity; try lia)).
  - intros Hf Hb iv Hin.
    pose proof (switch_total fuel c Hf Hb) as (Hp & Hm).
    unfold graphmode_selectors in Hin. rewrite !elem_of_cons in Hin.
    assert (Hnil : iv ∉ @nil Z) by apply not_elem_of_nil.
    unfold ev, rwstat_consume_event, ok.
    repeat (destruct Hin as [->|Hin]);
      try contradiction; try (eexists; reflexivity);
      match goal with
      | |- context [ch_map _ _ _ _ ?m] =>
          destruct (Hm m) as (c' & E); unfold map_f in E; rewrite E
      | |- context [ch_pack _ _ _ _ ?p] =>
          destruct (Hp p) as (c' & E); unfold pack_f in E; rewrite E
      end; eexists; reflexivity.
Qed.

End Switch.

(** ** The pattern pass, pattern by pattern *)

Lemma ptn_match_next b i j p st : (ptn_match b i j p st).1 = ptn_next b p.
Proof.
  unfold ptn_next, ptn_match. destruct (decide _); [|reflexivity].
  destruct (_ =? _); reflexivity.
Qed.

Lemma ptn_match_paints b i j p st :
  pass_paints (ptn_match b i j p st).2
  = pass_paints st
    ++ (if ptn_done b p
        then [mk_paint j (i - Pattern.buf_sz p) (Pattern.alpha p) (Pattern.buf_sz p)]
        else []).
Proof.
  unfold ptn_done, ptn_match. destruct (decide _) as [e|n].
  - rewrite (bool_decide_eq_true_2 _ e). simpl andb.
    destruct (_ =? _); simpl; [reflexivity|apply eq_sym, app_nil_r].
  - rewrite (bool_decide_eq_false_2 _ n). simpl. apply eq_sym, app_nil_r.
Qed.

Lemma ptn_each_next b i j ps st : (ptn_each b i j ps st).1 = map (ptn_next b) ps.
Proof.
  revert j st. induction ps as [|p ps IH]; intros j st; [reflexivity|].
  simpl. destruct (ptn_match b i j p st) as [p1 st1] eqn:E1.
  destruct (ptn_each b i (S j) ps st1) as [ps1 st2] eqn:E2. simpl.
  f_equal.
  - rewrite <- (ptn_match_next b i j p st), E1. reflexivity.
  - rewrite <- (IH (S j) st1), E2. reflexivity.
Qed.

Lemma ptn_each_paints b i j ps st :
  pass_paints (ptn_each b i j ps st).2 = pass_paints st ++ round_paints b i j ps.
Proof.
  revert j st. induction ps as [|p ps IH]; intros j st.
  - simpl. apply eq_sym, app_nil_r.
  - simpl. destruct (ptn_match b i j p st) as [p1 st1] eqn:E1.
    destruct (ptn_each b i (S j) ps st1) as [ps1 st2] eqn:E2. simpl.
    pose proof (IH (S j) st1) as H2. rewrite E2 in H2. simpl in H2.
    pose proof (ptn_match_paints b i j p st) as H1. rewrite E1 in H1.
    simpl in H1. rewrite H2, H1, <- app_assoc. reflexivity.
Qed.

Lemma ptn_scan_next w i ps st :
  (ptn_scan w i ps st).1 = fold_left (fun qs b => map (ptn_next b) qs) w ps.
Proof.
  revert i ps st. induction w as [|b w IH]; intros i ps st; [reflexivity|].
  simpl. destruct (ptn_each _ _ _ _ _) as [ps1 st2] eqn:E.
  rewrite IH. f_equal.
  apply (f_equal fst) in E. rewrite ptn_each_next in E. symmetry. exact E.
Qed.

Lemma ptn_scan_paints w i ps st :
  pass_paints (ptn_scan w i ps st).2 = pass_paints st ++ scan_paints w i ps.
Proof.
  revert i ps st. induction w as [|b w IH]; intros i ps st.
  - simpl. apply eq_sym, app_nil_r.
  - simpl. destruct (ptn_each _ _ _ _ _) as [ps1 st2] eqn:E.
    rewrite IH.
    pose proof (ptn_each_paints b i 0 ps
      (mk_pass (store (pass_alpha st) i (pass_av st)) (pass_av st)
         (pass_paints st))) as H1.
    pose proof (ptn_each_next b i 0 ps
      (mk_pass (store (pass_alpha st) i (pass_av st)) (pass_av st)
         (pass_paints st))) as H2.
    rewrite E in H1, H2. simpl in H1, H2. rewrite H1, H2, <- app_assoc.
    reflexivity.
Qed.

(** ** One pattern's progress *)

Lemma ptn_next_eq b p :
  ptn_next b p =
  if decide (Pattern.buf p !! Z.to_nat (Pattern.buf_pos p) = Some b) then
    if wrap_sz (Pattern.buf_pos p + 1) =? Pattern.buf_sz p then
      Pattern.set_evc
        (if Z.land (Pattern.flags p) FLAG_EVENT =? 0
         then Pattern.evc p else wrap_int (Pattern.evc p + 1))
        (Pattern.set_buf_pos 0 p)
    else Pattern.set_buf_pos (wrap_sz (Pattern.buf_pos p + 1)) p
  else p.
Proof.
  unfold ptn_next, ptn_match. destruct (decide _); [|reflexivity].
  destruct (_ =? _); reflexivity.
Qed.

Lemma ptn_next_fixed b p :
  Pattern.buf (ptn_next b p) = Pattern.buf p
  /\ Pattern.alpha (ptn_next b p) = Pattern.alpha p
  /\ Pattern.id (ptn_next b p) = Pattern.id p
  /\ Pattern.flags (ptn_next b p) = Pattern.flags p
  /\ Pattern.buf_sz (ptn_next b p) = Pattern.buf_sz p.
Proof.
  rewrite ptn_next_eq. unfold Pattern.buf_sz.
  destruct (decide _); [destruct (_ =? _)|]; cbn; auto.
Qed.

Lemma ptn_run_fixed w p :
  Pattern.buf (ptn_run w p) = Pattern.buf p
  /\ Pattern.alpha (ptn_run w p) = Pattern.alpha p
  /\ Pattern.id (ptn_run w p) = Pattern.id p
  /\ Pattern.flags (ptn_run w p) = Pattern.flags p
  /\ Pattern.buf_sz (ptn_run w p) = Pattern.buf_sz p.
Proof.
  revert p. induction w as [|b w IH]; intros p; [cbn; auto|].
  unfold ptn_run in *. simpl.
  destruct (IH (ptn_next b p)) as (H1 & H2 & H3 & H4 & H5).
  destruct (ptn_next_fixed b p) as (G1 & G2 & G3 & G4 & G5).
  rewrite H1, H2, H3, H4, H5. auto.
Qed.

(** The three cases of one byte on a pattern whose counter is in range. *)
Lemma ptn_next_cases b p :
  ptn_ok p ->
  let pos := Pattern.buf_pos p in
  (Pattern.buf p !! Z.to_nat pos <> Some b
   /\ ptn_done b p = false /\ Pattern.buf_pos (ptn_next b p) = pos)
  \/ (Pattern.buf p !! Z.to_nat pos = Some b /\ pos + 1 < Pattern.buf_sz p
      /\ ptn_done b p = false /\ Pattern.buf_pos (ptn_next b p) = pos + 1)
  \/ (Pattern.buf p !! Z.to_nat pos = Some b /\ pos + 1 = Pattern.buf_sz p
      /\ ptn_done b p = true /\ Pattern.buf_pos (ptn_next b p) = 0).
Proof.
  intros [Hpos Hsz] pos. rewrite ptn_next_eq. unfold ptn_done. fold pos.
  rewrite (wrap_sz_small (pos + 1)) by (unfold pos; lia).
  destruct (decide _) as [e|n].
  - rewrite (bool_decide_eq_true_2 _ e). simpl andb.
    destruct (Z.eqb_spec (pos + 1) (Pattern.buf_sz p)) as [E|E].
    + right. right. cbn. auto.
    + right. left. cbn. unfold pos in *. repeat split; auto; lia.
  - rewrite (bool_decide_eq_false_2 _ n). left. auto.
Qed.

Lemma ptn_next_ok b p : ptn_ok p -> ptn_ok (ptn_next b p).
Proof.
  intros Hok. pose proof Hok as [Hpos Hsz].
  destruct (ptn_next_fixed b p) as (_ & _ & _ & _ & Hb).
  unfold ptn_ok. rewrite Hb.
  destruct (ptn_next_cases b p Hok) as [(_ & _ & ->)|[(_ & ? & _ & ->)|(_ & ? & _ & ->)]];
    lia.
Qed.

Lemma ptn_run_ok w p : ptn_ok p -> ptn_ok (ptn_run w p).
Proof.
  revert p. induction w as [|b w IH]; intros p Hok; [exact Hok|].
  unfold ptn_run in *. simpl. apply IH, ptn_next_ok, Hok.
Qed.

Lemma ptn_hits_app p w1 w2 i :
  ptn_hits p (w1 ++ w2) i
  = ptn_hits p w1 i ++ ptn_hits (ptn_run w1 p) w2 (i + Z.of_nat (length w1)).
Proof.
  revert p i. induction w1 as [|b w1 IH]; intros p i.
  - simpl. rewrite Z.add_0_r. reflexivity.
  - simpl. rewrite IH, <- app_assoc. do 3 f_equal. lia.
Qed.

(** A counter that still has the rest of its pattern to see completes on
    any window that holds that rest in order, bytes in between or not. *)
Lemma ptn_hits_sublist p w i :
  ptn_ok p ->
  drop (Z.to_nat (Pattern.buf_pos p)) (Pattern.buf p) `sublist_of` w ->
  ptn_hits p w i <> [].
Proof.
  revert p i. induction w as [|b w IH]; intros p i Hok Hsub.
  - apply sublist_nil_r in Hsub. apply (f_equal length) in Hsub.
    rewrite length_drop in Hsub. destruct Hok as [Hpos _].
    unfold Pattern.buf_sz in Hpos. simpl in Hsub. lia.
  - pose proof Hok as [Hpos Hsz]. unfold Pattern.buf_sz in Hpos.
    destruct (lookup_lt_is_Some_2 (Pattern.buf p)
                (Z.to_nat (Pattern.buf_pos p))) as [x Hx]; [lia|].
    rewrite (drop_S _ _ _ Hx) in Hsub.
    destruct (ptn_next_fixed b p) as (Hbuf & _).
    simpl.
    destruct (ptn_next_cases b p Hok)
      as [(Hne & Hd & Hp)|[(He & Hlt & Hd & Hp)|(He & Hl & Hd & Hp)]];
      rewrite Hd; [| |discriminate].
    + simpl. apply IH; [apply ptn_next_ok, Hok|].
      rewrite Hbuf, Hp, (drop_S _ _ _ Hx).
      apply sublist_cons_r in Hsub as [Hsub|(l' & E & _)]; [exact Hsub|].
      injection E as -> _. contradiction.
    + simpl. apply IH; [apply ptn_next_ok, Hok|].
      rewrite Hbuf, Hp.
      replace (Z.to_nat (Pattern.buf_pos p + 1))
        with (S (Z.to_nat (Pattern.buf_pos p))) by lia.
      apply sublist_cons_r in Hsub as [Hsub|(l' & E & Hsub)].
      * etrans; [|exact Hsub]. apply sublist_cons. reflexivity.
      * injection E as _ <-. exact Hsub.
Qed.

(** A counter completes at the end of the rest of its pattern when the
    window continues with exactly that rest. *)
Lemma ptn_hits_prefix (k : nat) p rest i :
  ptn_ok p ->
  Z.of_nat k = Pattern.buf_sz p - Pattern.buf_pos p - 1 ->
  (i + Z.of_nat k)
  ∈ ptn_hits p (drop (Z.to_nat (Pattern.buf_pos p)) (Pattern.buf p) ++ rest) i.
Proof.
  revert p i. induction k as [|k IH]; intros p i Hok Hk;
    pose proof Hok as [Hpos Hsz]; unfold Pattern.buf_sz in Hpos;
    destruct (lookup_lt_is_Some_2 (Pattern.buf p)
                (Z.to_nat (Pattern.buf_pos p))) as [x Hx]; try lia;
    rewrite (drop_S _ _ _ Hx); simpl;
    destruct (ptn_next_fixed x p) as (Hbuf & _ & _ & _ & Hbsz);
    destruct (ptn_next_cases x p Hok)
      as [(Hne & Hd & Hp)|[(He & Hlt & Hd & Hp)|(He & Hl & Hd & Hp)]];
    try contradiction; rewrite Hd.
  - unfold Pattern.buf_sz in *. lia.
  - rewrite Z.add_0_r. apply elem_of_app. left. apply list_elem_of_singleton.
    reflexivity.
  - simpl.
    replace (S (Z.to_nat (Pattern.buf_pos p)))
      with (Z.to_nat (Pattern.buf_pos (ptn_next x p))) by lia.
    rewrite <- Hbuf.
    replace (i + Z.of_nat (S k)) with (i + 1 + Z.of_nat k) by lia.
    apply IH; [apply ptn_next_ok, Hok|]. rewrite Hbsz, Hp. lia.
  - unfold Pattern.buf_sz in *. lia.
Qed.

(** ** From one pattern to the pass *)

Lemma fold_map_run w ps :
  fold_left (fun qs b => map (ptn_next b) qs) w ps = map (ptn_run w) ps.
Proof.
  revert ps. induction w as [|b w IH]; intros ps.
  - simpl. unfold ptn_run. simpl. symmetry. apply map_id.
  - simpl. rewrite IH, map_map. reflexivity.
Qed.

Lemma round_paints_hit b i j0 ps k p :
  ps !! k = Some p -> ptn_done b p = true ->
  mk_paint (j0 + k) (i - Pattern.buf_sz p) (Pattern.alpha p) (Pattern.buf_sz p)
  ∈ round_paints b i j0 ps.
Proof.
  revert j0 k. induction ps as [|q ps IH]; intros j0 k Hk Hd; [discriminate|].
  simpl. apply elem_of_app. destruct k as [|k].
  - injection Hk as ->. rewrite Hd, Nat.add_0_r. left. apply elem_of_cons. auto.
  - right. replace (j0 + S k)%nat with (S j0 + k)%nat by lia.
    apply IH; assumption.
Qed.

Lemma scan_paints_hit w i ps j p h :
  ps !! j = Some p -> h ∈ ptn_hits p w i ->
  mk_paint j (h - Pattern.buf_sz p) (Pattern.alpha p) (Pattern.buf_sz p)
  ∈ scan_paints w i ps.
Proof.
  revert i ps p. induction w as [|b w IH]; intros i ps p Hj Hh.
  - simpl in Hh. apply elem_of_nil in Hh. contradiction.
  - simpl in Hh |- *. apply elem_of_app. apply elem_of_app in Hh as [Hh|Hh].
    + left. destruct (ptn_done b p) eqn:Hd;
        [|apply elem_of_nil in Hh; contradiction].
      apply list_elem_of_singleton in Hh as ->.
      apply (round_paints_hit b i 0 ps j p Hj Hd).
    + right. destruct (ptn_next_fixed b p) as (_ & Ha & _ & _ & Hs).
      rewrite <- Ha, <- Hs. apply IH; [|exact Hh].
      change (map (ptn_next b) ps) with (ptn_next b <$> ps).
      rewrite list_lookup_fmap, Hj. reflexivity.
Qed.

Lemma ptn_reset_ok p :
  Pattern.buf p <> [] -> Pattern.buf_sz p < 2 ^ 64 -> ptn_ok (ptn_reset p).
Proof.
  intros Hne Hsz. unfold ptn_ok, ptn_reset, Pattern.buf_sz in *. cbn.
  destruct (Pattern.buf p); [contradiction|]. simpl length in *. lia.
Qed.

(** The paints of a pass on a channel that has patterns. *)
Lemma update_ptnalpha_paints_scan c :
  patterns c <> [] ->
  (update_ptnalpha_paints c).2
  = scan_paints (window c) 0 (map ptn_reset (patterns c)).
Proof.
  intros Hne. unfold update_ptnalpha_paints, window.
  destruct (patterns c) as [|p0 ps0] eqn:Hps; [contradiction|].
  destruct (ptn_scan _ _ _ _) as [ps1 st] eqn:E.
  destruct (ptn_events ps1) as [ps2 evs]. simpl.
  apply (f_equal (fun r => pass_paints r.2)) in E.
  rewrite ptn_scan_paints in E. simpl in E. symmetry. exact E.
Qed.

(** A match that pattern [j] completes at window position [h] paints from
    alpha index [h - buf_sz]. *)
Lemma update_ptnalpha_hit_paint c j p h :
  patterns c !! j = Some p ->
  h ∈ ptn_hits (ptn_reset p) (window c) 0 ->
  mk_paint j (h - Pattern.buf_sz p) (Pattern.alpha p) (Pattern.buf_sz p)
  ∈ (update_ptnalpha_paints c).2.
Proof.
  intros Hj Hh. rewrite update_ptnalpha_paints_scan
    by (intros E; rewrite E in Hj; discriminate).
  change (Pattern.buf_sz p) with (Pattern.buf_sz (ptn_reset p)).
  change (Pattern.alpha p) with (Pattern.alpha (ptn_reset p)).
  apply scan_paints_hit; [|exact Hh].
  change (map ptn_reset (patterns c)) with (ptn_reset <$> patterns c).
  rewrite list_lookup_fmap, Hj. reflexivity.
Qed.

(** C9.  A pattern of length [L] that the window begins with completes its
    match at window position [L - 1], and the paint made there starts at
    alpha index [(L - 1) - L], below the first alpha byte: not an index of
    the alpha buffer. *)
Theorem ptn_paint_starts_below_alpha
  (c : rwstat_ch_priv) (j : nat) (p : Pattern.t) (rest : list byte) :
  patterns c !! j = Some p ->
  Pattern.buf p <> [] ->
  Pattern.buf_sz p < 2 ^ 64 ->
  window c = Pattern.buf p ++ rest ->
  let L := Pattern.buf_sz p in
  (L - 1) ∈ ptn_hits (ptn_reset p) (window c) 0
  /\ mk_paint j (L - 1 - L) (Pattern.alpha p) L ∈ (update_ptnalpha_paints c).2
  /\ L - 1 - L < 0
  /\ ~ valid_index (alpha c) (L - 1 - L).
Proof.
  intros Hj Hne Hsz Hw L.
  assert (Hhit : (L - 1) ∈ ptn_hits (ptn_reset p) (window c) 0).
  { rewrite Hw.
    pose proof (ptn_hits_prefix (Z.to_nat (L - 1)) (ptn_reset p) rest 0
                  (ptn_reset_ok p Hne Hsz)) as H.
    cbn in H. rewrite Z2Nat.id in H.
    - apply H. unfold L, Pattern.buf_sz. cbn. lia.
    - unfold L, Pattern.buf_sz. destruct (Pattern.buf p); [contradiction|].
      simpl length. lia. }
  split; [exact Hhit|]. split.
  - apply update_ptnalpha_hit_paint; assumption.
  - split; [lia|]. unfold valid_index. lia.
Qed.

(** C10.  A byte that differs from the pattern byte at the progress
    position leaves the progress counter as it is; an equal byte advances
    it by one, or returns it to zero when that completes the pattern; the
    counter goes down on a completed match only.  Hence a pattern whose
    bytes occur in the window in order, other bytes in between or not,
    completes a match and paints. *)
Theorem ptn_progress_kept_on_mismatch
  (c : rwstat_ch_priv) (j : nat) (p : Pattern.t) :
  (forall b i k q st,
      ptn_ok q ->
      let pos := Pattern.buf_pos q in
      let q' := (ptn_match b i k q st).1 in
      (Pattern.buf q !! Z.to_nat pos <> Some b -> Pattern.buf_pos q' = pos)
      /\ (Pattern.buf q !! Z.to_nat pos = Some b ->
          pos + 1 < Pattern.buf_sz q -> Pattern.buf_pos q' = pos + 1)
      /\ (Pattern.buf q !! Z.to_nat pos = Some b ->
          pos + 1 = Pattern.buf_sz q ->
          Pattern.buf_pos q' = 0 /\ ptn_done b q = true)
      /\ (Pattern.buf_pos q' < pos -> ptn_done b q = true))
  /\ (patterns c !! j = Some p ->
      Pattern.buf p <> [] ->
      Pattern.buf_sz p < 2 ^ 64 ->
      Pattern.buf p `sublist_of` window c ->
      exists h,
        h ∈ ptn_hits (ptn_reset p) (window c) 0
        /\ mk_paint j (h - Pattern.buf_sz p) (Pattern.alpha p) (Pattern.buf_sz p)
           ∈ (update_ptnalpha_paints c).2).
Proof.
  split.
  - intros b i k q st Hok pos q'. unfold q'. rewrite ptn_match_next.
    fold pos.
    destruct (ptn_next_cases b q Hok)
      as [(Hne & Hd & Hp)|[(He & Hlt & Hd & Hp)|(He & Hl & Hd & Hp)]];
      fold pos in Hp; rewrite Hp; unfold pos in *;
      repeat split; intros; auto; try contradiction; try lia.
  - intros Hj Hne Hsz Hsub.
    pose proof (ptn_hits_sublist (ptn_reset p) (window c) 0
                  (ptn_reset_ok p Hne Hsz) Hsub) as Hhits.
    destruct (ptn_hits (ptn_reset p) (window c) 0) as [|h hs] eqn:E;
      [contradiction|].
    exists h. assert (Hh : h ∈ ptn_hits (ptn_reset p) (window c) 0)
      by (rewrite E; apply elem_of_cons; auto).
    rewrite <- E. split; [exact Hh|].
    apply update_ptnalpha_hit_paint; assumption.
Qed.

(** ** Counting the matches of one pattern *)

Lemma ptn_next_evc b p :
  Pattern.evc (ptn_next b p)
  = if ptn_done b p
    then (if Z.land (Pattern.flags p) FLAG_EVENT =? 0
          then Pattern.evc p else wrap_int (Pattern.evc p + 1))
    else Pattern.evc p.
Proof.
  rewrite ptn_next_eq. unfold ptn_done. destruct (decide _) as [e|n].
  - rewrite (bool_decide_eq_true_2 _ e). simpl andb.
    destruct (_ =? _); reflexivity.
  - rewrite (bool_decide_eq_false_2 _ n). reflexivity.
Qed.

Lemma ptn_hits_length p w i : (length (ptn_hits p w i) <= length w)%nat.
Proof.
  revert p i. induction w as [|b w IH]; intros p i; [simpl; lia|].
  simpl. rewrite length_app. specialize (IH (ptn_next b p) (i + 1)).
  destruct (ptn_done b p); simpl; lia.
Qed.

Lemma ptn_run_evc p w i :
  Z.land (Pattern.flags p) FLAG_EVENT <> 0 ->
  0 <= Pattern.evc p ->
  Pattern.evc p + Z.of_nat (length w) < 2 ^ 31 ->
  Pattern.evc (ptn_run w p) = Pattern.evc p + Z.of_nat (length (ptn_hits p w i)).
Proof.
  revert p i. induction w as [|b w IH]; intros p i Hfl Hlo Hhi.
  - simpl. lia.
  - unfold ptn_run in *. simpl fold_left. simpl ptn_hits. simpl length in Hhi.
    destruct (ptn_next_fixed b p) as (_ & _ & _ & Hflags & _).
    pose proof (ptn_next_evc b p) as He.
    rewrite (proj2 (Z.eqb_neq _ _) Hfl) in He.
    rewrite length_app.
    destruct (ptn_done b p).
    + rewrite wrap_int_small in He by lia.
      rewrite (IH (ptn_next b p) (i + 1)); rewrite ?Hflags, ?He; simpl length; lia.
    + rewrite (IH (ptn_next b p) (i + 1)); rewrite ?Hflags, ?He; simpl length; lia.
Qed.

(** A match completes on the last byte of the pattern only. *)
Lemma ptn_hits_count p w i x :
  ptn_ok p -> last (Pattern.buf p) = Some x ->
  (length (ptn_hits p w i) <= count_occ Byte.byte_eq_dec w x)%nat.
Proof.
  revert p i. induction w as [|b w IH]; intros p i Hok Hlast; [simpl; lia|].
  simpl ptn_hits. rewrite length_app.
  destruct (ptn_next_fixed b p) as (Hbuf & _).
  assert (Hrec := IH (ptn_next b p) (i + 1) (ptn_next_ok b p Hok)).
  rewrite Hbuf in Hrec. specialize (Hrec Hlast).
  destruct (ptn_next_cases b p Hok)
    as [(Hne & Hd & Hp)|[(He & Hlt & Hd & Hp)|(He & Hl & Hd & Hp)]];
    rewrite Hd; simpl length.
  - simpl count_occ. destruct (Byte.byte_eq_dec b x); lia.
  - simpl count_occ. destruct (Byte.byte_eq_dec b x); lia.
  - assert (b = x) as ->.
    { rewrite last_lookup in Hlast. unfold Pattern.buf_sz in Hl.
      replace (Init.Nat.pred (length (Pattern.buf p)))
        with (Z.to_nat (Pattern.buf_pos p)) in Hlast by lia.
      congruence. }
    rewrite count_occ_cons_eq by reflexivity. lia.
Qed.

(** Every occurrence of the pattern in the window holds at least one
    completed match. *)
Lemma ptn_hits_occurrence p i :
  ptn_ok p -> (1 <= length (ptn_hits p (Pattern.buf p) i))%nat.
Proof.
  intros Hok.
  pose proof (ptn_hits_sublist p (Pattern.buf p) i Hok (sublist_drop _ _)).
  destruct (ptn_hits p (Pattern.buf p) i); [contradiction|simpl; lia].
Qed.

Lemma ptn_hits_two_occurrences p a b d i :
  ptn_ok p ->
  (2 <= length (ptn_hits p (a ++ Pattern.buf p ++ b ++ Pattern.buf p ++ d) i))%nat.
Proof.
  intros Hok.
  rewrite ptn_hits_app, length_app.
  set (p1 := ptn_run a p).
  assert (Hok1 : ptn_ok p1) by apply ptn_run_ok, Hok.
  assert (Hb1 : Pattern.buf p1 = Pattern.buf p) by apply ptn_run_fixed.
  rewrite <- Hb1 at 1. rewrite ptn_hits_app, length_app.
  pose proof (ptn_hits_occurrence p1 (i + Z.of_nat (length a)) Hok1) as H1.
  set (p2 := ptn_run (Pattern.buf p1) p1) in *.
  assert (Hok2 : ptn_ok p2) by apply ptn_run_ok, Hok1.
  rewrite ptn_hits_app, length_app.
  set (p3 := ptn_run b p2).
  assert (Hok3 : ptn_ok p3) by apply ptn_run_ok, Hok2.
  assert (Hb3 : Pattern.buf p3 = Pattern.buf p).
  { unfold p3, p2. rewrite !(proj1 (ptn_run_fixed _ _)). exact Hb1. }
  rewrite <- Hb3. rewrite ptn_hits_app, length_app.
  pose proof (ptn_hits_occurrence p3
    (i + Z.of_nat (length a) + Z.of_nat (length (Pattern.buf p1))
     + Z.of_nat (length b)) Hok3) as H3.
  lia.
Qed.

(** ** The pass with one registered pattern *)

Lemma update_ptnalpha_cont_single c p :
  patterns c = [p] ->
  let q := ptn_run (window c) (ptn_reset p) in
  cont (update_ptnalpha c)
  = cont c ++ (if Pattern.evc q =? 0 then []
               else [CURSORINPUT (Pattern.id q) (Pattern.evc q)]).
Proof.
  intros Hp q. unfold update_ptnalpha, update_ptnalpha_paints. rewrite Hp.
  fold (window c).
  destruct (ptn_scan _ _ _ _) as [ps1 st] eqn:E.
  apply (f_equal fst) in E. rewrite ptn_scan_next, fold_map_run in E.
  simpl in E. subst ps1. fold q. simpl ptn_events.
  destruct (Pattern.evc q =? 0); reflexivity.
Qed.

(** C1, as the code has it.  With {0xDE, 0xAD} the one pattern, flagged
    emit-event, a pass over a window that holds the sequence at two
    places that do not overlap queues exactly one notification; its
    counter is the number of matches completed, at least 2 and at most
    the number of 0xAD bytes in the window. *)
Theorem dead_pattern_match_count
  (c : rwstat_ch_priv) (a : byte) (i fl pos e : Z) (w1 w2 w3 : list byte) :
  patterns c = [Pattern.mk [xde; xad] pos e a i fl] ->
  Z.land fl FLAG_EVENT <> 0 ->
  window c = w1 ++ [xde; xad] ++ w2 ++ [xde; xad] ++ w3 ->
  Z.of_nat (length (window c)) < 2 ^ 31 ->
  exists n,
    cont (update_ptnalpha c) = cont c ++ [CURSORINPUT i n]
    /\ n = Z.of_nat (length (ptn_hits
                              (ptn_reset (Pattern.mk [xde; xad] pos e a i fl))
                              (window c) 0))
    /\ 2 <= n <= Z.of_nat (count_occ Byte.byte_eq_dec (window c) xad).
Proof.
  intros Hp Hfl Hw Hlen.
  set (p := Pattern.mk [xde; xad] pos e a i fl) in *.
  assert (Hok : ptn_ok (ptn_reset p)) by (apply ptn_reset_ok; [discriminate|reflexivity]).
  pose proof (update_ptnalpha_cont_single c p Hp) as Hc. cbv zeta in Hc.
  pose proof (ptn_run_evc (ptn_reset p) (window c) 0 Hfl) as He.
  cbn [Pattern.evc ptn_reset Pattern.set_evc] in He.
  specialize (He ltac:(lia) ltac:(lia)).
  destruct (ptn_run_fixed (window c) (ptn_reset p)) as (_ & _ & Hid & _).
  pose proof (ptn_hits_two_occurrences (ptn_reset p) w1 w2 w3 0 Hok) as H2.
  change (Pattern.buf (ptn_reset p)) with [xde; xad] in H2.
  rewrite <- Hw in H2.
  pose proof (ptn_hits_count (ptn_reset p) (window c) 0 xad Hok eq_refl) as Hc2.
  exists (Z.of_nat (length (ptn_hits (ptn_reset p) (window c) 0))).
  rewrite Hc, He, Hid.
  destruct (Z.eqb_spec (0 + Z.of_nat (length (ptn_hits (ptn_reset p) (window c) 0))) 0);
    [lia|].
  repeat split; lia.
Qed.

(** ** The statements at concrete channels *)

Lemma slide_ingest_short_chunk_witness :
  exists c',
    ch_data hnorm_bucket_q update_entalpha_id slide_example [x41]
    = (c', Z.of_nat (length [x41]), true)
    /\ buf c' = drop (length [x41]) (buf slide_example) ++ [x41]
    /\ (exists evs,
          cont c'
          = cont slide_example
            ++ FRAMESTATUS (cnt_local slide_example) (cnt_total slide_example)
               :: evs)
    /\ cnt_local c' = cnt_total slide_example
    /\ status_dirty c' = false.
Proof.
  destruct (slide_ingest_short_chunk hnorm_bucket_q update_entalpha_id
              slide_example [x41])
    as (c' & E & Hb & _ & _ & _ & He & Hl & Hd);
    [vm_compute; reflexivity..|].
  exists c'. auto.
Defined.

(** Four bytes into the empty window of four: the call that builds the
    frame. *)
Lemma block_ingest_consumed_witness :
  exists c',
    ch_data hnorm_bucket_q update_entalpha_id block_example
      [x41; x42; x43; x44]
    = (c', Z.min (Z.of_nat 4) (ch_left block_example), true)
    /\ buf_ofs c' = 0
    /\ (exists evs,
          cont c'
          = cont block_example
            ++ FRAMESTATUS (cnt_local block_example) (cnt_total block_example)
               :: evs)
    /\ cnt_local c' = cnt_total block_example
    /\ status_dirty c' = false.
Proof.
  destruct (block_ingest_consumed hnorm_bucket_q update_entalpha_id
              block_example [x41; x42; x43; x44])
    as (c' & st & E & Hiff & H0 & _ & _ & Hbuilt & _);
    [vm_compute; reflexivity
    |vm_compute; split; [discriminate|reflexivity]
    |vm_compute; split; [discriminate|reflexivity]|].
  assert (Hst : st = true) by (apply Hiff; vm_compute; reflexivity).
  subst st. destruct (Hbuilt eq_refl) as (_ & He & Hl & Hd).
  exists c'. split; [exact E|]. split; [apply H0; reflexivity|]. auto.
Defined.

Lemma footprint_and_buffer_size_witness :
  (map (fun p => sample_footprint p MAP_WRAP)
     [PACK_TIGHT; PACK_TNOALPHA; PACK_INTENS; PACK_HINTENS] = [4; 3; 1; 1]
   /\ forall p,
        sample_footprint p MAP_TUPLE = sample_footprint p MAP_WRAP + 2
        /\ sample_footprint p MAP_HILBERT = sample_footprint p MAP_WRAP)
  /\ (forall p, exists c',
        ch_pack hnorm_bucket_q update_entalpha_id 5 block_example p = Some c'
        /\ pack c' = p /\ chmap c' = chmap block_example
        /\ base c' = base block_example
        /\ pack_sz c' = sample_footprint p (chmap block_example)
        /\ buf_sz c' = base c' * base c' * pack_sz c'
        /\ buf_sz c' mod (base c' * base c') = 0)
  /\ (forall m, exists c',
        ch_map hnorm_bucket_q update_entalpha_id 5 block_example m = Some c'
        /\ pack c' = pack block_example /\ chmap c' = m
        /\ base c' = base block_example
        /\ pack_sz c' = sample_footprint (pack block_example) m
        /\ buf_sz c' = base c' * base c' * pack_sz c'
        /\ buf_sz c' mod (base c' * base c') = 0).
Proof.
  apply (footprint_and_buffer_size hnorm_bucket_q update_entalpha_id 5
           block_example);
    [lia|vm_compute; split; discriminate].
Defined.

Lemma consume_event_dispatch_witness :
  rwstat_consume_event hnorm_bucket_q update_entalpha_id 5 block_example
    (GRAPHMODE 7)
  = Some (false, block_example, [7]).
Proof.
  apply (proj1 (proj2 (consume_event_dispatch hnorm_bucket_q
                         update_entalpha_id 5 block_example)) 7).
  apply (bool_decide_unpack _). vm_compute. exact I.
Defined.

Lemma ptn_paint_starts_below_alpha_witness :
  1 ∈ ptn_hits (ptn_reset (Pattern.mk [xde; xad] 0 0 x80 7 FLAG_EVENT))
        (window ptn_example_apart) 0
  /\ mk_paint 0 (-1) x80 2 ∈ (update_ptnalpha_paints ptn_example_apart).2
  /\ -1 < 0
  /\ ~ valid_index (alpha ptn_example_apart) (-1).
Proof.
  apply (ptn_paint_starts_below_alpha ptn_example_apart 0
           (Pattern.mk [xde; xad] 0 0 x80 7 FLAG_EVENT)
           [xde; x00; xad; x00; xde; xad; x00]);
    [vm_compute; reflexivity | discriminate
    | vm_compute; reflexivity | vm_compute; reflexivity].
Defined.

Lemma ptn_progress_kept_on_mismatch_witness :
  exists h,
    h ∈ ptn_hits (ptn_reset (Pattern.mk [xde; xad] 0 0 x80 7 FLAG_EVENT))
          (window ptn_example_apart) 0
    /\ mk_paint 0 (h - 2) x80 2 ∈ (update_ptnalpha_paints ptn_example_apart).2.
Proof.
  apply (proj2 (ptn_progress_kept_on_mismatch ptn_example_apart 0
                  (Pattern.mk [xde; xad] 0 0 x80 7 FLAG_EVENT)));
    [vm_compute; reflexivity | discriminate | vm_compute; reflexivity |].
  vm_compute.
  repeat first [apply sublist_skip | apply sublist_cons | apply sublist_nil].
Defined.

Lemma dead_pattern_match_count_witness :
  exists n,
    cont (update_ptnalpha ptn_example) = cont ptn_example ++ [CURSORINPUT 7 n]
    /\ n = Z.of_nat (length (ptn_hits
                              (ptn_reset (Pattern.mk [xde; xad] 0 0 x80 7 FLAG_EVENT))
                              (window ptn_example) 0))
    /\ 2 <= n <= Z.of_nat (count_occ Byte.byte_eq_dec (window ptn_example) xad).
Proof.
  apply (dead_pattern_match_count ptn_example x80 7 FLAG_EVENT 0 0
           [x00] [x00] [x00; x00; x00]);
    [vm_compute; reflexivity | vm_compute; discriminate
    | vm_compute; reflexivity | vm_compute; reflexivity].
Defined.

(** ** Where the pass departs from the specification *)

(** The window DE AD DE 00 AD 00 DE AD 00 holds the sequence at two
    places that do not overlap, 0..1 and 6..7, and a further 0xDE and 0xAD
    apart from each other: the counter notified is 3, not 2. *)
Lemma ptn_alpha_claim_fails :
  ptn_channel 3 x80 7 FLAG_EVENT
    [xde; xad; xde; x00; xad; x00; xde; xad; x00] = Some ptn_example_apart
  /\ patterns ptn_example_apart = [Pattern.mk [xde; xad] 0 0 x80 7 FLAG_EVENT]
  /\ window ptn_example_apart
     = [xde; xad] ++ [xde; x00; xad; x00] ++ [xde; xad] ++ [x00]
  /\ cont (update_ptnalpha ptn_example_apart)
     = cont ptn_example_apart ++ [CURSORINPUT 7 3]
  /\ ~ ptn_alpha_claim ptn_example_apart
        (Pattern.mk [xde; xad] 0 0 x80 7 FLAG_EVENT).
Proof.
  split; [vm_compute; reflexivity|]. split; [vm_compute; reflexivity|].
  split; [vm_compute; reflexivity|]. split; [vm_compute; reflexivity|].
  intros [Hev _]. vm_compute in Hev. discriminate Hev.
Qed.

(** The window 00 DE AD 00 DE AD 00 00 00: one notification with counter
    2, matches completed at 2 and 5, opacity painted at 0..1 and 3..4;
    alpha indices 2 and 5 keep the default opacity. *)
Lemma ptn_paint_one_early :
  ptn_channel 3 x80 7 FLAG_EVENT
    [x00; xde; xad; x00; xde; xad; x00; x00; x00] = Some ptn_example
  /\ ptn_hits (ptn_reset (Pattern.mk [xde; xad] 0 0 x80 7 FLAG_EVENT))
       (window ptn_example) 0 = [2; 5]
  /\ cont (update_ptnalpha ptn_example)
     = cont ptn_example ++ [CURSORINPUT 7 2]
  /\ alpha (update_ptnalpha ptn_example)
     = [x80; x80; xff; x80; x80; xff; xff; xff; xff].
Proof.
  split; [vm_compute; reflexivity|]. split; [vm_compute; reflexivity|].
  split; vm_compute; reflexivity.
Qed.

(** ** The Hilbert loop, round by round *)

Lemma land_1_mod2 (a : Z) : Z.land 1 a = a mod 2.
Proof.
  rewrite Z.land_comm. change 1 with (Z.ones 1). apply Z.land_ones. lia.
Qed.

Lemma lxor_mod2 (a b : Z) : Z.lxor a b mod 2 = (a + b) mod 2.
Proof.
  rewrite <- (Z.bit0_mod (Z.lxor a b)), <- (Z.bit0_mod (a + b)).
  rewrite Z.lxor_spec, Z.add_bit0. reflexivity.
Qed.

(** The two bits that select the quadrant, from the low base-4 digit. *)
Lemma hilbert_bits (t : Z) :
  0 <= t ->
  let q := t mod 4 in
  Z.land 1 (Z.quot t 2) = q / 2
  /\ Z.land 1 (Z.lxor t (Z.land 1 (Z.quot t 2))) = (q + q / 2) mod 2.
Proof.
  intros Ht q. rewrite !land_1_mod2, lxor_mod2.
  rewrite Z.quot_div_nonneg by lia. unfold q. clear q.
  split; Z.div_mod_to_equations; lia.
Qed.

Lemma hilbert_round (f : nat) (n s t x y : Z) :
  s < n -> 1 <= s <= 2 ^ 14 -> 0 <= t < 2 ^ 31 ->
  0 <= x < s -> 0 <= y < s ->
  hilbert_loop (S f) n s t x y
  = let '(x1, y1) := hilbert_place s (t mod 4) x y in
    hilbert_loop f n (2 * s) (t / 4) x1 y1.
Proof.
  intros Hsn Hs Ht Hx Hy. cbn [hilbert_loop].
  rewrite (proj2 (Z.ltb_lt _ _) Hsn).
  destruct (hilbert_bits t (proj1 Ht)) as [Hrx Hry]. cbv zeta in Hrx, Hry.
  rewrite Hry, Hrx. rewrite (Z.quot_div_nonneg t 4) by lia.
  assert (Hq : 0 <= t mod 4 < 4) by (apply Z.mod_pos_bound; lia).
  clear Hrx Hry.
  unfold hilbert_place, hilbert_rot, iadd, isub, imul.
  assert (Hc : t mod 4 = 0 \/ t mod 4 = 1 \/ t mod 4 = 2 \/ t mod 4 = 3) by lia.
  assert (H0 : (0 + 0 / 2) mod 2 = 0 /\ 0 / 2 = 0) by (split; reflexivity).
  assert (H1 : (1 + 1 / 2) mod 2 = 1 /\ 1 / 2 = 0) by (split; reflexivity).
  assert (H2 : (2 + 2 / 2) mod 2 = 1 /\ 2 / 2 = 1) by (split; reflexivity).
  assert (H3 : (3 + 3 / 2) mod 2 = 0 /\ 3 / 2 = 1) by (split; reflexivity).
  destruct H0 as [H0 H0'], H1 as [H1 H1'], H2 as [H2 H2'], H3 as [H3 H3'].
  destruct Hc as [-> | [-> | [-> | ->]]];
    rewrite ?H0, ?H0', ?H1, ?H1', ?H2, ?H2', ?H3, ?H3';
    cbn [Z.eqb Pos.eqb];
    rewrite (wrap_int_small (s * 2)) by lia;
    try rewrite (wrap_int_small (s - 1)) by lia;
    try rewrite (wrap_int_small (s * 0)) by lia;
    try rewrite (wrap_int_small (s * 1)) by lia;
    try rewrite (wrap_int_small (s - 1 - y)) by lia;
    try rewrite (wrap_int_small (s - 1 - x)) by lia;
    try rewrite (wrap_int_small (s - 1 - y + s * 1)) by lia;
    try rewrite (wrap_int_small (s - 1 - x + s * 0)) by lia;
    try rewrite (wrap_int_small (x + s * 0)) by lia;
    try rewrite (wrap_int_small (y + s * 0)) by lia;
    try rewrite (wrap_int_small (x + s * 1)) by lia;
    try rewrite (wrap_int_small (y + s * 1)) by lia;
    f_equal; lia.
Qed.

Lemma hilbert_place_range (s q x y : Z) :
  0 < s -> 0 <= q < 4 -> 0 <= x < s -> 0 <= y < s ->
  0 <= (hilbert_place s q x y).1 < 2 * s
  /\ 0 <= (hilbert_place s q x y).2 < 2 * s.
Proof.
  intros Hs Hq Hx Hy. unfold hilbert_place.
  destruct (Z.eqb_spec q 0); [simpl; lia|].
  destruct (Z.eqb_spec q 1); [simpl; lia|].
  destruct (Z.eqb_spec q 2); simpl; lia.
Qed.

(** The four quadrants are apart and each placement is one to one. *)
Lemma hilbert_place_inj (s q x y q' x' y' : Z) :
  0 < s -> 0 <= q < 4 -> 0 <= x < s -> 0 <= y < s ->
  0 <= q' < 4 -> 0 <= x' < s -> 0 <= y' < s ->
  hilbert_place s q x y = hilbert_place s q' x' y' ->
  q = q' /\ x = x' /\ y = y'.
Proof.
  intros Hs Hq Hx Hy Hq' Hx' Hy'. unfold hilbert_place.
  destruct (Z.eqb_spec q 0); [|destruct (Z.eqb_spec q 1);
                                [|destruct (Z.eqb_spec q 2)]];
    (destruct (Z.eqb_spec q' 0); [|destruct (Z.eqb_spec q' 1);
                                    [|destruct (Z.eqb_spec q' 2)]]);
    intros E; injection E as E1 E2; lia.
Qed.

Lemma pow2_succ (j : nat) : 2 ^ Z.of_nat (S j) = 2 * 2 ^ Z.of_nat j.
Proof. rewrite Nat2Z.inj_succ. apply Z.pow_succ_r. lia. Qed.

Lemma pow4_succ (m : nat) : 4 ^ Z.of_nat (S m) = 4 * 4 ^ Z.of_nat m.
Proof. rewrite Nat2Z.inj_succ. apply Z.pow_succ_r. lia. Qed.

Lemma pow2_pos (j : nat) : 0 < 2 ^ Z.of_nat j.
Proof. apply Z.pow_pos_nonneg; lia. Qed.

Lemma pow4_pos (m : nat) : 0 < 4 ^ Z.of_nat m.
Proof. apply Z.pow_pos_nonneg; lia. Qed.

Lemma pow2_le (j k : nat) : (j <= k)%nat -> 2 ^ Z.of_nat j <= 2 ^ Z.of_nat k.
Proof. intros H. apply Z.pow_le_mono_r; lia. Qed.

Lemma pow4_le_15 (m : nat) : (m <= 15)%nat -> 4 ^ Z.of_nat m <= 2 ^ 30.
Proof.
  intros H. change (2 ^ 30) with (4 ^ Z.of_nat 15). apply Z.pow_le_mono_r; lia.
Qed.

Lemma pow2_lt_succ (j m : nat) : 2 ^ Z.of_nat j < 2 ^ Z.of_nat (j + S m).
Proof. apply Z.pow_lt_mono_r; lia. Qed.

(** [m] rounds from side [2^j]: the loop returns a point of the grid of
    side [2^(j+m)]. *)
Lemma hilbert_loop_range (m : nat) :
  forall (j fuel : nat) (t x y : Z),
    (j + m <= 15)%nat -> (m <= fuel)%nat ->
    0 <= t < 4 ^ Z.of_nat m ->
    0 <= x < 2 ^ Z.of_nat j -> 0 <= y < 2 ^ Z.of_nat j ->
    exists x' y',
      hilbert_loop fuel (2 ^ Z.of_nat (j + m)) (2 ^ Z.of_nat j) t x y
      = Some (x', y')
      /\ 0 <= x' < 2 ^ Z.of_nat (j + m) /\ 0 <= y' < 2 ^ Z.of_nat (j + m).
Proof.
  induction m as [|m IH]; intros j fuel t x y Hjm Hf Ht Hx Hy.
  - rewrite Nat.add_0_r. exists x, y.
    split; [|split; assumption].
    destruct fuel; cbn [hilbert_loop]; rewrite Z.ltb_irrefl; reflexivity.
  - destruct fuel as [|f]; [lia|].
    pose proof (pow2_pos j) as Hp. pose proof (pow4_pos m) as Hp4.
    pose proof (pow2_le j 14 ltac:(lia)) as Hj14.
    change (2 ^ Z.of_nat 14) with (2 ^ 14) in Hj14.
    pose proof (pow4_le_15 (S m) ltac:(lia)) as H4.
    rewrite hilbert_round; try assumption; try lia;
      [|apply pow2_lt_succ].
    assert (Hq : 0 <= t mod 4 < 4) by (apply Z.mod_pos_bound; lia).
    pose proof (hilbert_place_range _ (t mod 4) x y Hp Hq Hx Hy) as [Hx1 Hy1].
    destruct (hilbert_place _ _ _ _) as [x1 y1]. simpl in Hx1, Hy1.
    rewrite <- pow2_succ in *.
    replace (j + S m)%nat with (S j + m)%nat by lia.
    apply IH; try lia; try assumption.
    rewrite pow4_succ in Ht. Z.div_mod_to_equations. lia.
Qed.

(** [m] rounds from side [2^j]: two states that end at the same point
    are the same state. *)
Lemma hilbert_loop_inj (m : nat) :
  forall (j f1 f2 : nat) (t1 x1 y1 t2 x2 y2 : Z) (r : Z * Z),
    (j + m <= 15)%nat ->
    0 <= t1 < 4 ^ Z.of_nat m ->
    0 <= x1 < 2 ^ Z.of_nat j -> 0 <= y1 < 2 ^ Z.of_nat j ->
    0 <= t2 < 4 ^ Z.of_nat m ->
    0 <= x2 < 2 ^ Z.of_nat j -> 0 <= y2 < 2 ^ Z.of_nat j ->
    hilbert_loop f1 (2 ^ Z.of_nat (j + m)) (2 ^ Z.of_nat j) t1 x1 y1 = Some r ->
    hilbert_loop f2 (2 ^ Z.of_nat (j + m)) (2 ^ Z.of_nat j) t2 x2 y2 = Some r ->
    t1 = t2 /\ x1 = x2 /\ y1 = y2.
Proof.
  induction m as [|m IH];
    intros j f1 f2 t1 x1 y1 t2 x2 y2 r Hjm Ht1 Hx1 Hy1 Ht2 Hx2 Hy2 E1 E2.
  - rewrite Nat.add_0_r in E1, E2.
    assert (Hex : forall f t x y,
               hilbert_loop f (2 ^ Z.of_nat j) (2 ^ Z.of_nat j) t x y
               = Some (x, y))
      by (intros [|f] t x y; cbn [hilbert_loop]; rewrite Z.ltb_irrefl;
          reflexivity).
    rewrite Hex in E1, E2. change (4 ^ Z.of_nat 0) with 1 in Ht1, Ht2.
    split; [lia|]. split; congruence.
  - pose proof (pow2_pos j) as Hp. pose proof (pow4_pos m) as Hp4.
    pose proof (pow2_le j 14 ltac:(lia)) as Hj14.
    change (2 ^ Z.of_nat 14) with (2 ^ 14) in Hj14.
    pose proof (pow4_le_15 (S m) ltac:(lia)) as H4.
    pose proof (pow2_lt_succ j m) as Hlt.
    destruct f1 as [|f1];
      [cbn [hilbert_loop] in E1; rewrite (proj2 (Z.ltb_lt _ _) Hlt) in E1;
       discriminate|].
    destruct f2 as [|f2];
      [cbn [hilbert_loop] in E2; rewrite (proj2 (Z.ltb_lt _ _) Hlt) in E2;
       discriminate|].
    rewrite hilbert_round in E1, E2; try assumption; try lia.
    assert (Hq1 : 0 <= t1 mod 4 < 4) by (apply Z.mod_pos_bound; lia).
    assert (Hq2 : 0 <= t2 mod 4 < 4) by (apply Z.mod_pos_bound; lia).
    pose proof (hilbert_place_range _ (t1 mod 4) x1 y1 Hp Hq1 Hx1 Hy1) as [Ha1 Hb1].
    pose proof (hilbert_place_range _ (t2 mod 4) x2 y2 Hp Hq2 Hx2 Hy2) as [Ha2 Hb2].
    pose proof (hilbert_place_inj (2 ^ Z.of_nat j) (t1 mod 4) x1 y1
                  (t2 mod 4) x2 y2 Hp Hq1 Hx1 Hy1 Hq2 Hx2 Hy2) as Hinj.
    destruct (hilbert_place _ (t1 mod 4) x1 y1) as [a1 b1].
    destruct (hilbert_place _ (t2 mod 4) x2 y2) as [a2 b2].
    simpl in Ha1, Hb1, Ha2, Hb2.
    rewrite <- pow2_succ in *.
    replace (j + S m)%nat with (S j + m)%nat in E1, E2 by lia.
    rewrite pow4_succ in Ht1, Ht2.
    destruct (IH (S j) f1 f2 (t1 / 4) a1 b1 (t2 / 4) a2 b2 r) as (Et & Ea & Eb);
      try assumption; try lia;
      try (Z.div_mod_to_equations; lia).
    subst a2 b2. destruct (Hinj eq_refl) as (Eq & Ex & Ey).
    split; [|split; assumption].
    rewrite (Z.div_mod t1 4), (Z.div_mod t2 4) by lia. rewrite Et, Eq.
    reflexivity.
Qed.

(** ** The table for a side [2^k], [k <= 15] *)

Lemma pow2_sqr (k : nat) : 2 ^ Z.of_nat k * 2 ^ Z.of_nat k = 4 ^ Z.of_nat k.
Proof. change 4 with (2 * 2). rewrite Z.pow_mul_l. reflexivity. Qed.

Lemma cmap_entry_d2xy (k : nat) (i : Z) :
  (k <= 15)%nat -> 0 <= i < 4 ^ Z.of_nat k ->
  exists x y,
    cmap_entry (2 ^ Z.of_nat k) i = Some (x, y)
    /\ hilbert_d2xy (2 ^ Z.of_nat k) i = Some (x, y)
    /\ 0 <= x < 2 ^ Z.of_nat k /\ 0 <= y < 2 ^ Z.of_nat k.
Proof.
  intros Hk Hi. unfold cmap_entry, int_of_size.
  pose proof (pow4_le_15 k Hk) as H4. pose proof (pow2_pos k) as Hp.
  pose proof (pow2_le k 15 Hk) as H2. change (2 ^ Z.of_nat 15) with (2 ^ 15) in H2.
  rewrite (wrap_int_small (2 ^ Z.of_nat k)), (wrap_int_small i) by lia.
  destruct (hilbert_loop_range k 0 hilbert_fuel i 0 0)
    as (x & y & E & Hx & Hy); try (unfold hilbert_fuel; lia);
    try (change (2 ^ Z.of_nat 0) with 1; lia).
  change (0 + k)%nat with k in E, Hx, Hy.
  change (2 ^ Z.of_nat 0) with 1 in E.
  unfold hilbert_d2xy. rewrite E.
  exists x, y. unfold u16. rewrite !Z.mod_small by lia. auto.
Qed.

Lemma cmap_entry_inj (k : nat) (i i' : Z) (r : Z * Z) :
  (k <= 15)%nat -> 0 <= i < 4 ^ Z.of_nat k -> 0 <= i' < 4 ^ Z.of_nat k ->
  cmap_entry (2 ^ Z.of_nat k) i = Some r ->
  cmap_entry (2 ^ Z.of_nat k) i' = Some r ->
  i = i'.
Proof.
  intros Hk Hi Hi' E E'.
  destruct (cmap_entry_d2xy k i Hk Hi) as (x & y & Ec & Ed & _).
  destruct (cmap_entry_d2xy k i' Hk Hi') as (x' & y' & Ec' & Ed' & _).
  rewrite Ec in E. rewrite Ec' in E'. rewrite <- E in E'.
  injection E' as -> ->. unfold hilbert_d2xy in Ed, Ed'.
  destruct (hilbert_loop_inj k 0 hilbert_fuel hilbert_fuel i 0 0 i' 0 0 (x, y))
    as (Ei & _);
    change (0 + k)%nat with k; change (2 ^ Z.of_nat 0) with 1;
    try lia; assumption.
Qed.

(** The lookups of the table are the entries. *)
Lemma build_cmap_lookup (b : Z) (tbl : list (Z * Z)) :
  build_cmap b = Some tbl ->
  length tbl = Z.to_nat (wrap_sz (b * b))
  /\ forall (i : nat) p,
       tbl !! i = Some p <->
       (Z.of_nat i < wrap_sz (b * b) /\ cmap_entry b (Z.of_nat i) = Some p).
Proof.
  unfold build_cmap. intros E. apply mapM_Some in E.
  pose proof (Forall2_length _ _ _ E) as Hlen. rewrite length_seqZ in Hlen.
  split; [symmetry; exact Hlen|].
  intros i p. split.
  - intros Hl.
    destruct (Forall2_lookup_r _ _ _ _ _ E Hl) as (z & Hz & Hc).
    apply lookup_seqZ in Hz as [-> Hz]. split; [lia|]. exact Hc.
  - intros [Hi Hc].
    assert (Hz : seqZ 0 (wrap_sz (b * b)) !! i = Some (Z.of_nat i))
      by (apply lookup_seqZ; split; lia).
    destruct (Forall2_lookup_l _ _ _ _ _ E Hz) as (q & Hq & Hc').
    rewrite Hq. congruence.
Qed.

(** A table without repetition, as long as the grid and inside it, holds
    every point of the grid. *)
Lemma grid_filled (side : Z) (tbl : list (Z * Z)) :
  0 <= side ->
  NoDup tbl ->
  Z.of_nat (length tbl) = side * side ->
  (forall p, p ∈ tbl -> 0 <= p.1 < side /\ 0 <= p.2 < side) ->
  forall x y, 0 <= x < side -> 0 <= y < side -> (x, y) ∈ tbl.
Proof.
  intros Hs Hnd Hlen Hin x y Hx Hy.
  set (grid := cprod (seqZ 0 side) (seqZ 0 side)).
  assert (Hsub : tbl ⊆+ grid).
  { apply NoDup_submseteq; [exact Hnd|]. intros p Hp.
    apply list_elem_of_cprod. rewrite !elem_of_seqZ.
    destruct (Hin p Hp). lia. }
  assert (Hgl : length grid = length tbl).
  { unfold grid. rewrite list_cprod_list_prod, length_prod, !length_seqZ. nia. }
  pose proof (submseteq_length_Permutation tbl grid Hsub ltac:(lia)) as Hperm.
  rewrite Hperm. apply list_elem_of_cprod. rewrite !elem_of_seqZ. simpl. lia.
Qed.

(** C3, for the sides whose squares an [int] index reaches.  For side
    [2^k], [k <= 15], the table is built, has side * side entries, each
    the point that [hilbert_d2xy] gives for its index, and every point of
    the grid is the entry of exactly one index. *)
Theorem hilbert_table_bijection (k : Z) :
  0 <= k <= 15 ->
  let side := 2 ^ k in
  exists tbl,
    build_cmap side = Some tbl
    /\ Z.of_nat (length tbl) = side * side
    /\ (forall (i : nat) x y,
          tbl !! i = Some (x, y) ->
          hilbert_d2xy side (Z.of_nat i) = Some (x, y)
          /\ 0 <= x < side /\ 0 <= y < side)
    /\ (forall x y, 0 <= x < side -> 0 <= y < side ->
          exists i : nat,
            tbl !! i = Some (x, y)
            /\ forall i' : nat, tbl !! i' = Some (x, y) -> i' = i)
    /\ curve_bijection side.
Proof.
  intros Hk side. set (kn := Z.to_nat k).
  assert (Hkn : (kn <= 15)%nat) by lia.
  assert (Hside : side = 2 ^ Z.of_nat kn) by (unfold side, kn; f_equal; lia).
  pose proof (pow2_pos kn) as Hp. pose proof (pow4_le_15 kn Hkn) as H4.
  pose proof (pow2_sqr kn) as Hsq. pose proof (pow4_pos kn) as Hp4.
  pose proof (pow2_le kn 15 Hkn) as H2.
  change (2 ^ Z.of_nat 15) with (2 ^ 15) in H2.
  clearbody side. subst side.
  destruct (build_cmap_total (2 ^ Z.of_nat kn)) as [tbl Etbl]; [lia|].
  destruct (build_cmap_lookup _ _ Etbl) as [Hlen Hlk].
  rewrite Hsq, wrap_sz_small in Hlen by lia.
  assert (Hlk' : forall (i : nat) p,
             tbl !! i = Some p <->
             Z.of_nat i < 4 ^ Z.of_nat kn
             /\ cmap_entry (2 ^ Z.of_nat kn) (Z.of_nat i) = Some p).
  { intros i p. rewrite Hlk, Hsq, wrap_sz_small by lia. reflexivity. }
  clear Hlk.
  assert (Hent : forall (i : nat) x y,
             tbl !! i = Some (x, y) ->
             hilbert_d2xy (2 ^ Z.of_nat kn) (Z.of_nat i) = Some (x, y)
             /\ 0 <= x < 2 ^ Z.of_nat kn /\ 0 <= y < 2 ^ Z.of_nat kn).
  { intros i x y Hl. apply Hlk' in Hl as [Hi Hc].
    destruct (cmap_entry_d2xy kn (Z.of_nat i) Hkn ltac:(lia))
      as (x' & y' & Ec & Ed & Hx & Hy).
    rewrite Ec in Hc. injection Hc as <- <-. auto. }
  assert (Hnd : NoDup tbl).
  { apply NoDup_alt. intros i j p Hi Hj.
    apply Hlk' in Hi as [Hi Hci]. apply Hlk' in Hj as [Hj Hcj].
    apply Nat2Z.inj.
    apply (cmap_entry_inj kn _ _ p Hkn); try lia; assumption. }
  assert (Hfill : forall x y, 0 <= x < 2 ^ Z.of_nat kn ->
                              0 <= y < 2 ^ Z.of_nat kn -> (x, y) ∈ tbl).
  { apply grid_filled; try lia; try assumption.
    intros [x y] Hin. apply list_elem_of_lookup in Hin as [i Hi].
    apply Hent in Hi. simpl. tauto. }
  exists tbl. split; [exact Etbl|]. split; [lia|]. split; [exact Hent|].
  split.
  - intros x y Hx Hy.
    destruct (proj1 (list_elem_of_lookup _ _) (Hfill x y Hx Hy)) as [i Hi].
    exists i. split; [exact Hi|]. intros i' Hi'.
    apply (proj1 (NoDup_alt tbl) Hnd i' i (x, y)); assumption.
  - intros x y Hx Hy.
    destruct (proj1 (list_elem_of_lookup _ _) (Hfill x y Hx Hy)) as [i Hi].
    apply Hlk' in Hi as [Hi Hc].
    exists (Z.of_nat i). rewrite Hsq. split; [lia|]. split; [exact Hc|].
    intros i' Hi' Hc'.
    apply (cmap_entry_inj kn _ _ (x, y) Hkn); try lia; assumption.
Qed.

Lemma hilbert_table_bijection_witness :
  exists tbl,
    build_cmap (2 ^ 2) = Some tbl
    /\ Z.of_nat (length tbl) = 2 ^ 2 * 2 ^ 2
    /\ (forall (i : nat) x y,
          tbl !! i = Some (x, y) ->
          hilbert_d2xy (2 ^ 2) (Z.of_nat i) = Some (x, y)
          /\ 0 <= x < 2 ^ 2 /\ 0 <= y < 2 ^ 2)
    /\ (forall x y, 0 <= x < 2 ^ 2 -> 0 <= y < 2 ^ 2 ->
          exists i : nat,
            tbl !! i = Some (x, y)
            /\ forall i' : nat, tbl !! i' = Some (x, y) -> i' = i)
    /\ curve_bijection (2 ^ 2).
Proof. apply (hilbert_table_bijection 2). lia. Defined.

(** The table of side 4, in index order. *)
Lemma build_cmap_4 :
  build_cmap 4
  = Some [(0, 0); (1, 0); (1, 1); (0, 1); (0, 2); (0, 3); (1, 3); (1, 2);
          (2, 2); (2, 3); (3, 3); (3, 2); (3, 1); (2, 1); (2, 0); (3, 0)].
Proof. vm_compute. reflexivity. Qed.

(** Side 65536: the indices run to 2^32 - 1 and no longer fit the [int]
    parameter of [hilbert_d2xy]; index 2^32 - 1 arrives as -1 and lands on
    the entry of index 1. *)
Lemma curve_bijection_fails_65536 :
  cmap_entry (2 ^ 16) 1 = Some (1, 0)
  /\ cmap_entry (2 ^ 16) (2 ^ 32 - 1) = Some (1, 0)
  /\ int_of_size (2 ^ 32 - 1) = -1
  /\ ~ curve_bijection (2 ^ 16).
Proof.
  assert (E1 : cmap_entry (2 ^ 16) 1 = Some (1, 0)) by (vm_compute; reflexivity).
  assert (E2 : cmap_entry (2 ^ 16) (2 ^ 32 - 1) = Some (1, 0))
    by (vm_compute; reflexivity).
  split; [exact E1|]. split; [exact E2|]. split; [vm_compute; reflexivity|].
  intros H. destruct (H 1 0) as (i & Hi & Hc & Huniq); [lia|lia|].
  assert (H1 : 1 = i) by (apply Huniq; [lia|exact E1]).
  assert (H2 : 2 ^ 32 - 1 = i) by (apply Huniq; [lia|exact E2]).
  lia.
Qed.

(** ** Entropy *)

Lemma byte_to_nat_inj (a b : byte) : Byte.to_nat a = Byte.to_nat b -> a = b.
Proof.
  intros E. pose proof (Byte.of_to_nat a) as Ha.
  rewrite E, Byte.of_to_nat in Ha. congruence.
Qed.

Lemma hgram_inc_at (h : list Z) (b b' : byte) :
  length h = 256%nat ->
  hgram_at (hgram_inc h b) b'
  = if decide (b' = b) then wrap32 (hgram_at h b + 1) else hgram_at h b'.
Proof.
  intros Hlen. unfold hgram_at, hgram_inc.
  pose proof (Byte.to_nat_bounded b) as Hb.
  destruct (decide (b' = b)) as [->|Hne].
  - destruct (lookup_lt_is_Some_2 h (Byte.to_nat b)) as [v Hv]; [lia|].
    rewrite list_lookup_alter_eq, Hv. reflexivity.
  - rewrite list_lookup_alter_ne; [reflexivity|].
    intros E. apply Hne. symmetry. apply byte_to_nat_inj. exact E.
Qed.

Lemma hgram_inc_length (h : list Z) (b : byte) : length (hgram_inc h b) = length h.
Proof. unfold hgram_inc. apply length_alter. Qed.

(** Counting from a table: each bucket gains the occurrences of its byte,
    as long as the 32-bit counter holds them. *)
Lemma hgram_count (bytes : list byte) (h : list Z) (b : byte) :
  length h = 256%nat ->
  0 <= hgram_at h b ->
  hgram_at h b + Z.of_nat (count_occ Byte.byte_eq_dec bytes b) < 2 ^ 32 ->
  hgram_at (fold_left hgram_inc bytes h) b
  = hgram_at h b + Z.of_nat (count_occ Byte.byte_eq_dec bytes b).
Proof.
  revert h. induction bytes as [|x bytes IH]; intros h Hlen H0 Hlt.
  - simpl. lia.
  - simpl fold_left. simpl count_occ in *.
    pose proof (hgram_inc_at h x b Hlen) as Hat.
    destruct (Byte.byte_eq_dec x b) as [->|Hne].
    + rewrite decide_True in Hat by reflexivity.
      unfold wrap32 in Hat. rewrite Z.mod_small in Hat by lia.
      rewrite IH; rewrite ?hgram_inc_length, ?Hat; lia.
    + rewrite decide_False in Hat by congruence.
      rewrite IH; rewrite ?hgram_inc_length, ?Hat; lia.
Qed.

Lemma hgram_at_zero (b : byte) : hgram_at (replicate 256 0) b = 0.
Proof.
  unfold hgram_at. pose proof (Byte.to_nat_bounded b).
  rewrite lookup_replicate_2 by lia. reflexivity.
Qed.

Lemma shent_histogram (bytes : list byte) (b : byte) :
  Z.of_nat (length bytes) < 2 ^ 32 ->
  hgram_at (fold_left hgram_inc bytes (replicate 256 0)) b
  = Z.of_nat (count_occ Byte.byte_eq_dec bytes b).
Proof.
  intros Hlen. pose proof (count_occ_bound Byte.byte_eq_dec b bytes) as Hc.
  rewrite hgram_count; rewrite ?hgram_at_zero, ?length_replicate; lia.
Qed.

Lemma fold_left_same {A B} (f : B -> A -> B) (g : B -> B) (l : list A)
  (acc : B) :
  (forall x e, x ∈ l -> f e x = g e) ->
  fold_left f l acc = Nat.iter (length l) g acc.
Proof.
  revert acc. induction l as [|x l IH]; intros acc H; [reflexivity|].
  cbn [fold_left length]. rewrite Nat.iter_succ_r.
  rewrite (H x acc) by (apply elem_of_cons; auto).
  apply IH. intros y e Hy. apply H, elem_of_cons. auto.
Qed.

Section EntropyValues.
Variable log2f : spec_float -> spec_float.

(** A buffer in which every byte present occurs [c] times: the loop of
    [shent_h] subtracts the same product at every position, so a byte
    value is counted once for each of its occurrences. *)
Lemma shent_same_count (bytes : list byte) (c : nat) :
  Z.of_nat (length bytes) < 2 ^ 32 ->
  (forall x, x ∈ bytes -> count_occ Byte.byte_eq_dec bytes x = c) ->
  shent log2f bytes
  = let pr := f32_div (f32_of_Z (Z.of_nat c))
                (f32_of_Z (Z.of_nat (length bytes))) in
    Nat.iter (length bytes) (fun ent => f32_sub ent (f32_mul pr (log2f pr)))
      (S754_zero false).
Proof.
  intros Hlen Hc. unfold shent, shent_h. cbv zeta.
  apply fold_left_same. intros x e Hx.
  rewrite shent_histogram, (Hc x Hx) by exact Hlen. reflexivity.
Qed.

(** [log2f] is exact at one half. *)
Hypothesis log2f_half :
  log2f (f32_div (f32_of_Z 1) (f32_of_Z 2)) = f32_of_Z (-1).

(** C7.  What [shent] returns counts every position.  On a buffer of
    2c bytes, c from 1 to 64, in which every byte value present occurs c
    times (two values, evenly spread, in any order: one bit of entropy)
    it is c, for a [log2f] that is exact at one half. *)
Theorem shent_counts_positions (bytes : list byte) (c : nat) :
  (0 < c <= 64)%nat -> length bytes = (2 * c)%nat ->
  (forall x, x ∈ bytes -> count_occ Byte.byte_eq_dec bytes x = c) ->
  shent log2f bytes = f32_of_Z (Z.of_nat c).
Proof.
  intros Hc Hlen Hcount.
  rewrite (shent_same_count bytes c) by (rewrite ?Hlen; try lia; exact Hcount).
  cbv zeta. rewrite Hlen.
  assert (Hcases : In c (seq 1 64)) by (apply in_seq; lia).
  assert (Hpr : f32_div (f32_of_Z (Z.of_nat c)) (f32_of_Z (Z.of_nat (2 * c)))
                = f32_div (f32_of_Z 1) (f32_of_Z 2)).
  { cbn [seq In] in Hcases.
    repeat (destruct Hcases as [<-|Hcases]; [vm_compute; reflexivity|]).
    contradiction. }
  rewrite Hpr, log2f_half.
  cbn [seq In] in Hcases.
  repeat (destruct Hcases as [<-|Hcases]; [vm_compute; reflexivity|]).
  contradiction.
Qed.

End EntropyValues.

Lemma shent_counts_positions_witness :
  shent log2f_pow2 [x00; x00; x01; x01] = f32_of_Z (Z.of_nat 2).
Proof.
  apply (shent_counts_positions log2f_pow2);
    [vm_compute; reflexivity | lia | reflexivity |].
  intros x Hx.
  repeat (apply elem_of_cons in Hx as [->|Hx]; [reflexivity|]).
  apply elem_of_nil in Hx. contradiction.
Defined.

(** * Further properties of the channel *)

(** ** Ingest, the other cases *)

Lemma hgram_sum_alter (f : Z -> Z) (i : nat) (h : list Z) (v : Z) :
  h !! i = Some v -> hgram_sum (alter f i h) = hgram_sum h - v + f v.
Proof.
  unfold hgram_sum.
  revert i. induction h as [|x h IH]; intros i Hi; [discriminate|].
  destruct i as [|i].
  - simpl in *. injection Hi as ->. lia.
  - change (alter f (S i) (x :: h)) with (x :: alter f i h).
    change ((x :: h) !! S i) with (h !! i) in Hi.
    cbn [fold_right]. rewrite (IH i Hi). lia.
Qed.

Lemma hgram_sum_lookup_le (h : list Z) (i : nat) (v : Z) :
  Forall (fun x => 0 <= x) h -> h !! i = Some v -> 0 <= v <= hgram_sum h.
Proof.
  intros Hall. revert i. induction Hall as [|x h Hx Hall IH]; intros i Hi;
    [discriminate|].
  assert (Hs : 0 <= hgram_sum h).
  { clear IH Hi. induction Hall; simpl; [lia|]. unfold hgram_sum in *. lia. }
  destruct i as [|i]; simpl in *.
  - injection Hi as ->. unfold hgram_sum in *. lia.
  - specialize (IH i Hi). unfold hgram_sum in *. lia.
Qed.

(** Counting bytes into a table whose 32-bit counters have room. *)
Lemma hgram_sum_fold (xs : list byte) (h : list Z) :
  length h = 256%nat ->
  Forall (fun x => 0 <= x) h ->
  hgram_sum h + Z.of_nat (length xs) < 2 ^ 32 ->
  hgram_sum (fold_left hgram_inc xs h) = hgram_sum h + Z.of_nat (length xs)
  /\ Forall (fun x => 0 <= x) (fold_left hgram_inc xs h)
  /\ length (fold_left hgram_inc xs h) = 256%nat.
Proof.
  revert h. induction xs as [|x xs IH]; intros h Hlen Hall Hlt.
  - simpl. split; [lia|]. auto.
  - simpl fold_left. rewrite length_cons in Hlt.
    pose proof (Byte.to_nat_bounded x) as Hb.
    destruct (lookup_lt_is_Some_2 h (Byte.to_nat x)) as [v Hv]; [lia|].
    pose proof (hgram_sum_lookup_le h _ v Hall Hv) as Hvr.
    assert (Hw : wrap32 (v + 1) = v + 1)
      by (unfold wrap32; apply Z.mod_small; lia).
    assert (Hsum : hgram_sum (hgram_inc h x) = hgram_sum h + 1).
    { unfold hgram_inc. rewrite (hgram_sum_alter _ _ _ v Hv), Hw. lia. }
    assert (Hall' : Forall (fun y => 0 <= y) (hgram_inc h x)).
    { unfold hgram_inc. apply Forall_alter; [exact Hall|].
      intros y Hy. rewrite Hv in Hy. injection Hy as <-. rewrite Hw. lia. }
    destruct (IH (hgram_inc h x)) as (H1 & H2 & H3);
      rewrite ?hgram_inc_length, ?Hsum; try assumption; try lia.
    rewrite Hsum in H1. rewrite length_cons. split; [lia|]. auto.
Qed.

Section IngestMore.
Variable hnorm_bucket : Z -> Z -> Z.
Variable update_entalpha : rwstat_ch_priv -> Z -> list byte.
Let step := ch_step hnorm_bucket update_entalpha.
Let data := ch_data hnorm_bucket update_entalpha.

(** The frame step touches the histogram in slide mode (rebuild) and for
    histogram-intensity packing (normalization) only. *)
Lemma ch_step_hgram_block c :
  clock c = RW_CLK_BLOCK -> pack c <> PACK_HINTENS -> hgram (step c) = hgram c.
Proof.
  intros Hclk Hpack. unfold step, ch_step. cbv zeta.
  set (c1 := enqueue _ c).
  set (c2 := if status_dirty c1 then _ else c1).
  assert (H2 : clock c2 = clock c /\ pack c2 = pack c /\ hgram c2 = hgram c)
    by (subst c2 c1; destruct (status_dirty _); cbn; auto).
  destruct H2 as (H2c & H2p & H2h). rewrite H2c, Hclk.
  destruct (pack c2) eqn:Hp; try (rewrite <- H2p in Hpack; contradiction);
    cbn [hgram set_cnt_local];
    (destruct (amode c2);
     [exact H2h
     |rewrite (update_ptnalpha_keeps hgram) by reflexivity; exact H2h
     |exact H2h]).
Qed.

(** X1.  The count that [ch_data] returns is never negative and never
    more than the bytes it was handed, in either clock mode. *)
Theorem ch_data_consumed_le (c : rwstat_ch_priv) (chunk : list byte) :
  0 <= buf_sz c ->
  0 <= (data c chunk).1.2 <= Z.of_nat (length chunk).
Proof.
  intros Hsz. unfold data, ch_data.
  pose proof (wrap_sz_range (buf_sz c - buf_ofs c)) as Hw.
  destruct (clock c).
  - destruct (Z.ltb_spec (Z.of_nat (length chunk))
                (wrap_sz (buf_sz c - buf_ofs c)));
      destruct (ingest_loop _ _) as [[h b] o];
      destruct (o =? _); simpl; lia.
  - destruct (Z.ltb_spec (Z.of_nat (length chunk)) (buf_sz c));
      destruct (ingest_loop _ _) as [[h b] o];
      destruct (o =? _); simpl; lia.
Qed.

(** X2.  Slide mode with a chunk at least as long as the window: the
    count returned is the window size; the frame is built exactly when
    the fill offset was zero, and then the window is the first [buf_sz]
    bytes of the chunk: the channel left is the frame step of the channel
    with that window, those bytes counted in the histogram and fill
    offset 0, a frame status with the counters of before is queued and the
    frame counter has caught up with the stream position.  With a fill
    offset left over from block mode no frame is built: nothing is queued,
    the frame counter stays and the offset moves on by the window size. *)
Theorem slide_ingest_large_chunk (c : rwstat_ch_priv) (chunk : list byte) :
  clock c = RW_CLK_SLIDE ->
  Z.of_nat (length (buf c)) = buf_sz c ->
  buf_sz c < 2 ^ 64 ->
  buf_sz c <= Z.of_nat (length chunk) ->
  0 <= buf_ofs c < 2 ^ 64 ->
  exists c' st,
    data c chunk = (c', buf_sz c, st)
    /\ (st = true <-> buf_ofs c = 0)
    /\ (buf_ofs c = 0 ->
        buf c' = take (Z.to_nat (buf_sz c)) chunk /\ buf_ofs c' = 0)
    /\ (buf_ofs c <> 0 -> buf_ofs c' = wrap_sz (buf_ofs c + buf_sz c))
    /\ (buf_ofs c = 0 ->
        c' = step (set_buf_ofs 0
                     (set_buf (take (Z.to_nat (buf_sz c)) chunk)
                        (set_hgram
                           (fold_left hgram_inc
                              (take (Z.to_nat (buf_sz c)) chunk) (hgram c))
                           c)))
        /\ (exists evs,
              cont c'
              = cont c ++ FRAMESTATUS (cnt_local c) (cnt_total c) :: evs)
        /\ cnt_local c' = cnt_total c
        /\ status_dirty c' = false)
    /\ (buf_ofs c <> 0 -> cont c' = cont c /\ cnt_local c' = cnt_local c).
Proof.
  intros Hclk Hlen Hsz Hle Hofs. unfold data, ch_data. rewrite Hclk.
  rewrite (proj2 (Z.ltb_ge _ _) Hle).
  set (xs := take (Z.to_nat (buf_sz c)) chunk).
  assert (Hxs : Z.of_nat (length xs) = buf_sz c)
    by (unfold xs; rewrite length_take; lia).
  destruct (ingest_loop _ _) as [[h b] o] eqn:E.
  assert (Ho : o = wrap_sz (buf_ofs c + buf_sz c)).
  { pose proof (ingest_loop_ofs xs (hgram c) (buf c) (buf_ofs c) Hofs) as H.
    rewrite E in H. simpl in H. rewrite H, Hxs. reflexivity. }
  assert (Hh : h = fold_left hgram_inc xs (hgram c)).
  { pose proof (ingest_loop_hgram xs (hgram c) (buf c) (buf_ofs c)) as H.
    rewrite E in H. exact H. }
  cbn [buf_sz set_buf set_buf_ofs set_hgram].
  assert (Hstep : o = buf_sz c <-> buf_ofs c = 0).
  { rewrite Ho. unfold wrap_sz. split.
    - intros Hm.
      destruct (Z_lt_le_dec (buf_ofs c + buf_sz c) (2 ^ 64)) as [Hs|Hs].
      + rewrite Z.mod_small in Hm by lia. lia.
      + replace (buf_ofs c + buf_sz c)
          with (buf_ofs c + buf_sz c - 2 ^ 64 + 1 * 2 ^ 64) in Hm by lia.
        rewrite Z.mod_add, Z.mod_small in Hm by lia. lia.
    - intros ->. apply Z.mod_small. lia. }
  destruct (Z.eqb_spec o (buf_sz c)) as [Heq|Hne].
  - assert (H0 : buf_ofs c = 0) by tauto.
    assert (Hb : b = xs).
    { pose proof (ingest_loop_buf xs (hgram c) (buf c) 0) as Hb.
      rewrite H0 in E. rewrite E in Hb. simpl in Hb.
      rewrite Hb by lia. rewrite drop_ge by lia. apply app_nil_r. }
    subst b h.
    eexists _, true. split; [reflexivity|].
    split; [tauto|].
    match goal with |- context [ch_step _ _ ?x] => set (c2 := x) end.
    destruct (ch_step_frame hnorm_bucket update_entalpha c2) as (He & Hl & Hd).
    split; [|split; [tauto|split; [|tauto]]].
    + intros _. unfold step.
      rewrite ch_step_buf, ch_step_buf_ofs. split; reflexivity.
    + intros _. split; [reflexivity|]. auto.
  - eexists _, false. split; [reflexivity|].
    split; [split; [discriminate|tauto]|].
    split; [tauto|]. split; [intros _; cbn; exact Ho|].
    split; [tauto|]. intros _. split; reflexivity.
Qed.

End IngestMore.

Section IngestBlock.
Variable hnorm_bucket : Z -> Z -> Z.
Variable update_entalpha : rwstat_ch_priv -> Z -> list byte.
Let step := ch_step hnorm_bucket update_entalpha.
Let data := ch_data hnorm_bucket update_entalpha.

Lemma ingest_loop_app (xs ys : list byte) (st : list Z * list byte * Z) :
  ingest_loop (xs ++ ys) st = ingest_loop ys (ingest_loop xs st).
Proof. unfold ingest_loop. apply fold_left_app. Qed.

(** Block mode, the call unfolded: the bytes absorbed, the state they
    leave and whether the frame is built. *)
Lemma ch_data_block (c : rwstat_ch_priv) (chunk : list byte) :
  clock c = RW_CLK_BLOCK ->
  0 <= buf_ofs c <= buf_sz c -> buf_sz c < 2 ^ 64 ->
  let n := Z.min (Z.of_nat (length chunk)) (buf_sz c - buf_ofs c) in
  let xs := take (Z.to_nat n) chunk in
  let r := ingest_loop xs (hgram c, buf c, buf_ofs c) in
  let c2 := set_buf_ofs (buf_ofs c + n) (set_buf r.1.2 (set_hgram r.1.1 c)) in
  data c chunk
  = if buf_ofs c + n =? buf_sz c then (step (set_buf_ofs 0 c2), n, true)
    else (c2, n, false).
Proof.
  intros Hclk Hofs Hsz n xs r c2. unfold data, ch_data. rewrite Hclk.
  rewrite (wrap_sz_small (buf_sz c - buf_ofs c)) by lia.
  assert (Hn : (if Z.of_nat (length chunk) <? buf_sz c - buf_ofs c
                then Z.of_nat (length chunk) else buf_sz c - buf_ofs c) = n)
    by (unfold n; destruct (Z.ltb_spec (Z.of_nat (length chunk))
                              (buf_sz c - buf_ofs c)); lia).
  rewrite Hn. fold xs. fold r.
  assert (Ho : r.2 = buf_ofs c + n).
  { unfold r. rewrite ingest_loop_ofs by lia. unfold xs.
    rewrite length_take. rewrite wrap_sz_small by (unfold n; lia).
    unfold n. lia. }
  destruct r as [[h b] o]. simpl in Ho. subst o.
  cbn [buf_sz set_buf set_buf_ofs set_hgram fst snd]. reflexivity.
Qed.

(** X3.  Block mode: the absorbed bytes land at the fill offset; the
    window before the offset and after the absorbed bytes is as it was.
    The remaining capacity goes down by the count, or back to the window
    size when the frame is built. *)
Theorem block_ingest_window (c : rwstat_ch_priv) (chunk : list byte) :
  clock c = RW_CLK_BLOCK ->
  Z.of_nat (length (buf c)) = buf_sz c ->
  0 <= buf_ofs c <= buf_sz c -> buf_sz c < 2 ^ 64 ->
  let n := Z.min (Z.of_nat (length chunk)) (buf_sz c - buf_ofs c) in
  exists c' st,
    data c chunk = (c', n, st)
    /\ buf c' = take (Z.to_nat (buf_ofs c)) (buf c)
                ++ take (Z.to_nat n) chunk
                ++ drop (Z.to_nat (buf_ofs c + n)) (buf c)
    /\ ch_left c' = (if st then buf_sz c else buf_sz c - buf_ofs c - n).
Proof.
  intros Hclk Hlen Hofs Hsz n.
  rewrite (ch_data_block c chunk Hclk Hofs Hsz). cbv zeta. fold n.
  set (xs := take (Z.to_nat n) chunk).
  assert (Hxs : Z.of_nat (length xs) = n)
    by (unfold xs; rewrite length_take; unfold n; lia).
  assert (Hb : (ingest_loop xs (hgram c, buf c, buf_ofs c)).1.2
               = take (Z.to_nat (buf_ofs c)) (buf c) ++ xs
                 ++ drop (Z.to_nat (buf_ofs c + n)) (buf c)).
  { rewrite ingest_loop_buf by (unfold n in *; lia).
    do 3 f_equal. lia. }
  destruct (Z.eqb_spec (buf_ofs c + n) (buf_sz c)) as [Heq|Hne].
  - eexists _, true. split; [reflexivity|]. unfold ch_left, step.
    rewrite ch_step_buf, ch_step_buf_sz, ch_step_buf_ofs. cbn.
    split; [exact Hb|]. rewrite Z.sub_0_r. apply wrap_sz_small. lia.
  - eexists _, false. split; [reflexivity|]. unfold ch_left. cbn.
    split; [exact Hb|]. rewrite wrap_sz_small by (unfold n in *; lia). lia.
Qed.

(** X4.  Block mode: a chunk that leaves room in the window is absorbed
    whole without a frame, and absorbing [a] and then [b] leaves the
    channel that absorbing [a ++ b] in one call leaves, with the counts
    adding up. *)
Theorem block_ingest_split (c : rwstat_ch_priv) (a b : list byte) :
  clock c = RW_CLK_BLOCK ->
  0 <= buf_ofs c <= buf_sz c -> buf_sz c < 2 ^ 64 ->
  Z.of_nat (length a) < buf_sz c - buf_ofs c ->
  exists c1,
    data c a = (c1, Z.of_nat (length a), false)
    /\ data c (a ++ b)
       = ((data c1 b).1.1, Z.of_nat (length a) + (data c1 b).1.2, (data c1 b).2).
Proof.
  intros Hclk Hofs Hsz Ha.
  rewrite (ch_data_block c a Hclk Hofs Hsz). cbv zeta.
  rewrite (Z.min_l (Z.of_nat (length a))) by lia.
  rewrite (proj2 (Z.eqb_neq _ _)) by lia.
  rewrite Nat2Z.id, firstn_all.
  eexists. split; [reflexivity|].
  rewrite (ch_data_block c (a ++ b) Hclk Hofs Hsz). cbv zeta.
  destruct (ingest_loop a (hgram c, buf c, buf_ofs c)) as [[h1 b1] o1] eqn:E.
  assert (Ho : o1 = buf_ofs c + Z.of_nat (length a)).
  { pose proof (ingest_loop_ofs a (hgram c) (buf c) (buf_ofs c)) as H.
    rewrite E in H. simpl in H. rewrite H by lia. apply wrap_sz_small. lia. }
  subst o1. cbn [fst snd].
  set (c1 := set_buf_ofs _ (set_buf b1 (set_hgram h1 c))).
  assert (Hc1 : clock c1 = RW_CLK_BLOCK) by (subst c1; cbn; exact Hclk).
  rewrite (ch_data_block c1 b Hc1) by (subst c1; cbn; lia).
  cbv zeta. subst c1.
  cbn [buf_ofs buf_sz hgram buf set_buf_ofs set_buf set_hgram].
  rewrite length_app, Nat2Z.inj_add.
  set (n2 := Z.min (Z.of_nat (length b))
               (buf_sz c - (buf_ofs c + Z.of_nat (length a)))).
  assert (Hn : Z.min (Z.of_nat (length a) + Z.of_nat (length b))
                 (buf_sz c - buf_ofs c) = Z.of_nat (length a) + n2)
    by (unfold n2; lia).
  rewrite Hn.
  assert (Htake : take (Z.to_nat (Z.of_nat (length a) + n2)) (a ++ b)
                  = a ++ take (Z.to_nat n2) b).
  { replace (Z.to_nat (Z.of_nat (length a) + n2))
      with (length a + Z.to_nat n2)%nat by (unfold n2; lia).
    apply take_app_add. }
  rewrite Htake, ingest_loop_app, E, Z.add_assoc.
  destruct (_ =? _); reflexivity.
Qed.

(** X5.  Block mode without histogram-intensity packing: each absorbed
    byte is counted once in the histogram, so the bucket sum grows by the
    count returned, frame built or not, while the 32-bit counters have
    room. *)
Theorem block_histogram_counts (c : rwstat_ch_priv) (chunk : list byte) :
  clock c = RW_CLK_BLOCK -> pack c <> PACK_HINTENS ->
  0 <= buf_ofs c <= buf_sz c -> buf_sz c < 2 ^ 64 ->
  length (hgram c) = 256%nat ->
  Forall (fun x => 0 <= x) (hgram c) ->
  hgram_sum (hgram c) + Z.of_nat (length chunk) < 2 ^ 32 ->
  hgram_sum (hgram (data c chunk).1.1)
  = hgram_sum (hgram c) + (data c chunk).1.2.
Proof.
  intros Hclk Hpack Hofs Hsz Hlen Hall Hlt.
  rewrite (ch_data_block c chunk Hclk Hofs Hsz). cbv zeta.
  set (n := Z.min (Z.of_nat (length chunk)) (buf_sz c - buf_ofs c)).
  set (xs := take (Z.to_nat n) chunk).
  assert (Hxs : Z.of_nat (length xs) = n)
    by (unfold xs; rewrite length_take; unfold n; lia).
  rewrite ingest_loop_hgram.
  destruct (hgram_sum_fold xs (hgram c) Hlen Hall) as (Hsum & _);
    [unfold n in *; lia|].
  destruct (_ =? _); cbn [fst snd].
  - unfold step. rewrite (ch_step_hgram_block hnorm_bucket update_entalpha)
      by (cbn; assumption).
    cbn [hgram set_buf_ofs set_buf set_hgram]. rewrite Hsum. lia.
  - cbn [hgram set_buf_ofs set_buf set_hgram]. rewrite Hsum. lia.
Qed.

End IngestBlock.

(** ** The pattern pass as a whole *)

Lemma ptn_events_patterns (ps : list Pattern.t) :
  (ptn_events ps).1 = map (Pattern.set_evc 0) ps.
Proof.
  induction ps as [|p ps IH]; [reflexivity|].
  simpl. destruct (ptn_events ps) as [qs evs]. simpl in IH. subst qs.
  destruct (Z.eqb_spec (Pattern.evc p) 0) as [E|E]; simpl; [|reflexivity].
  f_equal. destruct p as [b pos e a i fl]. simpl in E. subst e. reflexivity.
Qed.

Lemma ptn_events_events (ps : list Pattern.t) :
  (ptn_events ps).2
  = flat_map (fun p => if Pattern.evc p =? 0 then []
                       else [CURSORINPUT (Pattern.id p) (Pattern.evc p)]) ps.
Proof.
  induction ps as [|p ps IH]; [reflexivity|].
  simpl. destruct (ptn_events ps) as [qs evs]. simpl in IH. subst evs.
  destruct (Pattern.evc p =? 0); reflexivity.
Qed.

Lemma flat_map_fuse {A B C} (f : B -> list C) (g : A -> B) (l : list A) :
  flat_map f (map g l) = flat_map (fun a => f (g a)) l.
Proof. induction l as [|a l IH]; [reflexivity|]. simpl. rewrite IH. reflexivity. Qed.

(** The pass in terms of each pattern's own run. *)
Lemma update_ptnalpha_patterns (c : rwstat_ch_priv) :
  patterns (update_ptnalpha c)
  = map (fun p => Pattern.set_evc 0 (ptn_run (window c) (ptn_reset p)))
      (patterns c).
Proof.
  unfold update_ptnalpha, update_ptnalpha_paints. fold (window c).
  destruct (patterns c) as [|p0 ps0] eqn:Hps; [cbn; exact Hps|].
  destruct (ptn_scan _ _ _ _) as [ps1 st] eqn:E.
  apply (f_equal fst) in E. rewrite ptn_scan_next, fold_map_run in E.
  simpl in E. subst ps1.
  pose proof (ptn_events_patterns (map (ptn_run (window c))
                                     (map ptn_reset (p0 :: ps0)))) as Hp.
  destruct (ptn_events _) as [ps2 evs]. simpl in Hp. subst ps2. cbn.
  rewrite !map_map. reflexivity.
Qed.

Lemma update_ptnalpha_cont (c : rwstat_ch_priv) :
  cont (update_ptnalpha c)
  = cont c
    ++ flat_map
         (fun p =>
            let q := ptn_run (window c) (ptn_reset p) in
            if Pattern.evc q =? 0 then []
            else [CURSORINPUT (Pattern.id q) (Pattern.evc q)])
         (patterns c).
Proof.
  unfold update_ptnalpha, update_ptnalpha_paints. fold (window c).
  destruct (patterns c) as [|p0 ps0] eqn:Hps;
    [cbn; symmetry; apply app_nil_r|].
  set (l := p0 :: ps0) in *.
  destruct (ptn_scan _ _ _ _) as [ps1 st] eqn:E.
  apply (f_equal fst) in E. rewrite ptn_scan_next, fold_map_run in E.
  cbn [fst] in E. subst ps1.
  pose proof (ptn_events_events (map (ptn_run (window c))
                                   (map ptn_reset l))) as He.
  destruct (ptn_events _) as [ps2 evs]. cbn [snd] in He. subst evs.
  cbn [fst cont set_cont]. f_equal.
  rewrite map_map. apply flat_map_fuse.
Qed.

Lemma ptn_run_evc_unflagged p w :
  Z.land (Pattern.flags p) FLAG_EVENT = 0 ->
  Pattern.evc (ptn_run w p) = Pattern.evc p.
Proof.
  revert p. induction w as [|b w IH]; intros p Hfl; [reflexivity|].
  unfold ptn_run in *. simpl.
  destruct (ptn_next_fixed b p) as (_ & _ & _ & Hflags & _).
  rewrite IH by (rewrite Hflags; exact Hfl).
  rewrite ptn_next_evc, Hfl. simpl. destruct (ptn_done b p); reflexivity.
Qed.

Lemma update_ptnalpha_notifications (c : rwstat_ch_priv) :
  Z.of_nat (length (window c)) < 2 ^ 31 ->
  cont (update_ptnalpha c) = cont c ++ ptn_notifications (patterns c) (window c).
Proof.
  intros Hlen. rewrite update_ptnalpha_cont. f_equal.
  unfold ptn_notifications. apply flat_map_ext. intros p. cbv zeta.
  destruct (ptn_run_fixed (window c) (ptn_reset p)) as (_ & _ & Hid & _).
  rewrite Hid. change (Pattern.id (ptn_reset p)) with (Pattern.id p).
  destruct (Z.eqb_spec (Z.land (Pattern.flags p) FLAG_EVENT) 0) as [Hfl|Hfl].
  - rewrite ptn_run_evc_unflagged by exact Hfl. reflexivity.
  - rewrite (ptn_run_evc (ptn_reset p) (window c) 0 Hfl) by (cbn; lia).
    cbn [Pattern.evc ptn_reset Pattern.set_evc]. rewrite Z.add_0_l.
    reflexivity.
Qed.

(** X6.  The notifications of a pattern pass: one per pattern that is
    flagged emit-event and completed a match, carrying the pattern's
    identifier and its number of matches, in registration order; a
    pattern that is not flagged, or did not match, is never notified. *)
Theorem ptn_pass_notifications (c : rwstat_ch_priv) :
  Z.of_nat (length (window c)) < 2 ^ 31 ->
  cont (update_ptnalpha c) = cont c ++ ptn_notifications (patterns c) (window c).
Proof. apply update_ptnalpha_notifications. Qed.

(** X7.  A pattern pass neither removes nor reorders patterns and leaves
    each one's byte sequence, opacity, identifier and flags as they were;
    every match counter is zero afterwards and every progress counter
    points into its pattern. *)
Theorem ptn_pass_keeps_patterns (c : rwstat_ch_priv) :
  length (patterns (update_ptnalpha c)) = length (patterns c)
  /\ forall j p,
       patterns c !! j = Some p ->
       exists q,
         patterns (update_ptnalpha c) !! j = Some q
         /\ Pattern.buf q = Pattern.buf p
         /\ Pattern.alpha q = Pattern.alpha p
         /\ Pattern.id q = Pattern.id p
         /\ Pattern.flags q = Pattern.flags p
         /\ Pattern.evc q = 0
         /\ (Pattern.buf p <> [] -> Pattern.buf_sz p < 2 ^ 64 ->
             0 <= Pattern.buf_pos q < Pattern.buf_sz p).
Proof.
  rewrite update_ptnalpha_patterns. split; [apply length_map|].
  intros j p Hj.
  change (map ?f ?l) with (f <$> l). rewrite list_lookup_fmap, Hj.
  eexists. split; [reflexivity|].
  destruct (ptn_run_fixed (window c) (ptn_reset p)) as (H1 & H2 & H3 & H4 & H5).
  cbn [Pattern.buf Pattern.alpha Pattern.id Pattern.flags Pattern.evc
       Pattern.buf_pos Pattern.set_evc].
  rewrite H1, H2, H3, H4. do 5 (split; [reflexivity|]).
  intros Hne Hsz.
  pose proof (ptn_run_ok (window c) _ (ptn_reset_ok p Hne Hsz)) as [Hp _].
  rewrite H5 in Hp. exact Hp.
Qed.

(** ** Where a pass paints *)

Lemma round_paints_elem q b i j0 ps :
  q ∈ round_paints b i j0 ps ->
  exists k p,
    ps !! k = Some p /\ ptn_done b p = true
    /\ q = mk_paint (j0 + k) (i - Pattern.buf_sz p) (Pattern.alpha p)
             (Pattern.buf_sz p).
Proof.
  revert q j0. induction ps as [|p ps IH]; intros q j0 Hq.
  - apply elem_of_nil in Hq. contradiction.
  - simpl in Hq. apply elem_of_app in Hq as [Hq|Hq].
    + destruct (ptn_done b p) eqn:Hd; [|apply elem_of_nil in Hq; contradiction].
      apply list_elem_of_singleton in Hq. exists 0%nat, p.
      rewrite Nat.add_0_r. auto.
    + destruct (IH _ (S j0) Hq) as (k & p' & Hk & Hd & ->).
      exists (S k), p'. replace (j0 + S k)%nat with (S j0 + k)%nat by lia. auto.
Qed.

Lemma scan_paints_elem q w i ps :
  q ∈ scan_paints w i ps ->
  exists j p h,
    ps !! j = Some p /\ h ∈ ptn_hits p w i
    /\ q = mk_paint j (h - Pattern.buf_sz p) (Pattern.alpha p) (Pattern.buf_sz p).
Proof.
  revert q i ps. induction w as [|b w IH]; intros q i ps Hq.
  - apply elem_of_nil in Hq. contradiction.
  - simpl in Hq. apply elem_of_app in Hq as [Hq|Hq].
    + destruct (round_paints_elem _ _ _ _ _ Hq) as (k & p & Hk & Hd & ->).
      exists k, p, i. split; [exact Hk|]. split; [|reflexivity].
      simpl. rewrite Hd. apply elem_of_app. left. apply elem_of_cons. auto.
    + destruct (IH _ _ _ Hq) as (j & p' & h & Hj & Hh & ->).
      change (map (ptn_next b) ps) with (ptn_next b <$> ps) in Hj.
      rewrite list_lookup_fmap in Hj.
      destruct (ps !! j) as [p|] eqn:Hp; [|discriminate].
      simpl in Hj. injection Hj as <-.
      destruct (ptn_next_fixed b p) as (_ & Ha & _ & _ & Hs).
      exists j, p, h. split; [exact Hp|]. split.
      * simpl. apply elem_of_app. right. exact Hh.
      * rewrite Ha, Hs. reflexivity.
Qed.

Lemma update_ptnalpha_paint_inv (c : rwstat_ch_priv) (q : paint) :
  q ∈ (update_ptnalpha_paints c).2 ->
  exists j p h,
    patterns c !! j = Some p
    /\ h ∈ ptn_hits (ptn_reset p) (window c) 0
    /\ q = mk_paint j (h - Pattern.buf_sz p) (Pattern.alpha p)
             (Pattern.buf_sz p).
Proof.
  intros Hq. destruct (patterns c) as [|p0 ps0] eqn:Hps.
  - unfold update_ptnalpha_paints in Hq. rewrite Hps in Hq. simpl in Hq.
    apply elem_of_nil in Hq. contradiction.
  - rewrite update_ptnalpha_paints_scan in Hq by (rewrite Hps; discriminate).
    rewrite Hps in Hq.
    destruct (scan_paints_elem _ _ _ _ Hq) as (j & p' & h & Hj & Hh & ->).
    change (map ptn_reset (p0 :: ps0)) with (ptn_reset <$> p0 :: ps0) in Hj.
    rewrite list_lookup_fmap in Hj.
    destruct ((p0 :: ps0) !! j) as [p|] eqn:Hp; [|discriminate].
    simpl in Hj. injection Hj as <-.
    exists j, p, h. split; [exact Hp|]. split; [exact Hh|reflexivity].
Qed.

(** X8.  A pass calls [memset] on the alpha buffer for completed matches
    and for nothing else: the calls are those of pattern [j], value the
    pattern's opacity, length the pattern's length, start [h - length],
    for the positions [h] at which pattern [j] completes a match. *)
Theorem ptn_pass_paints (c : rwstat_ch_priv) (q : paint) :
  q ∈ (update_ptnalpha_paints c).2
  <-> exists j p h,
        patterns c !! j = Some p
        /\ h ∈ ptn_hits (ptn_reset p) (window c) 0
        /\ q = mk_paint j (h - Pattern.buf_sz p) (Pattern.alpha p)
                 (Pattern.buf_sz p).
Proof.
  split; [apply update_ptnalpha_paint_inv|].
  intros (j & p & h & Hj & Hh & ->).
  apply update_ptnalpha_hit_paint; assumption.
Qed.

Lemma ptn_hits_empty p w i : Pattern.buf p = [] -> ptn_hits p w i = [].
Proof.
  revert p i. induction w as [|b w IH]; intros p i He; [reflexivity|].
  simpl. assert (Hd : ptn_done b p = false).
  { unfold ptn_done. rewrite He. rewrite bool_decide_eq_false_2; [reflexivity|].
    rewrite lookup_nil. discriminate. }
  rewrite Hd. simpl. apply IH.
  destruct (ptn_next_fixed b p) as (Hb & _). rewrite Hb. exact He.
Qed.

Lemma ptn_hits_bounds p w i h :
  ptn_ok p -> h ∈ ptn_hits p w i ->
  i + (Pattern.buf_sz p - 1 - Pattern.buf_pos p) <= h < i + Z.of_nat (length w).
Proof.
  revert p i. induction w as [|b w IH]; intros p i Hok Hh.
  - apply elem_of_nil in Hh. contradiction.
  - simpl in Hh. rewrite length_cons. pose proof Hok as [Hpos Hsz].
    destruct (ptn_next_fixed b p) as (_ & _ & _ & _ & Hs).
    apply elem_of_app in Hh as [Hh|Hh].
    + destruct (ptn_next_cases b p Hok)
        as [(_ & Hd & _)|[(_ & _ & Hd & _)|(_ & Hl & Hd & _)]];
        rewrite Hd in Hh; try (apply elem_of_nil in Hh; contradiction).
      apply list_elem_of_singleton in Hh. lia.
    + specialize (IH _ _ (ptn_next_ok b p Hok) Hh). rewrite Hs in IH.
      destruct (ptn_next_cases b p Hok)
        as [(_ & _ & Hp)|[(_ & _ & _ & Hp)|(_ & _ & _ & Hp)]];
        rewrite Hp in IH; lia.
Qed.

Lemma ptn_hits_apart p w i h1 h2 :
  ptn_ok p -> h1 ∈ ptn_hits p w i -> h2 ∈ ptn_hits p w i -> h1 < h2 ->
  h1 + Pattern.buf_sz p <= h2.
Proof.
  revert p i. induction w as [|b w IH]; intros p i Hok H1 H2 Hlt.
  - apply elem_of_nil in H1. contradiction.
  - simpl in H1, H2. pose proof Hok as [Hpos Hsz].
    destruct (ptn_next_fixed b p) as (_ & _ & _ & _ & Hs).
    pose proof (ptn_next_ok b p Hok) as Hok'.
    assert (Htail : forall h, h ∈ ptn_hits (ptn_next b p) w (i + 1) ->
                    i + 1 <= h
                    /\ (ptn_done b p = true -> i + Pattern.buf_sz p <= h)).
    { intros h Hh. pose proof (ptn_hits_bounds _ _ _ _ Hok' Hh) as Hb.
      rewrite Hs in Hb. destruct Hok' as [Hpos' _]. rewrite Hs in Hpos'.
      split; [lia|]. intros Hd.
      destruct (ptn_next_cases b p Hok)
        as [(_ & Hd' & _)|[(_ & _ & Hd' & _)|(_ & _ & _ & Hp)]];
        try congruence.
      rewrite Hp in Hb. lia. }
    assert (Hhead : forall h, h ∈ (if ptn_done b p then [i] else []) ->
                    h = i /\ ptn_done b p = true).
    { intros h Hh. destruct (ptn_done b p);
        [apply list_elem_of_singleton in Hh; auto
        |apply elem_of_nil in Hh; contradiction]. }
    apply elem_of_app in H1 as [H1|H1]; apply elem_of_app in H2 as [H2|H2].
    + destruct (Hhead _ H1), (Hhead _ H2). lia.
    + destruct (Hhead _ H1) as [-> Hd]. destruct (Htail _ H2) as [_ Ht].
      apply Ht, Hd.
    + destruct (Hhead _ H2) as [-> _]. destruct (Htail _ H1). lia.
    + rewrite <- Hs. apply (IH _ _ Hok' H1 H2 Hlt).
Qed.

Lemma ptn_reset_hits_bounds p w h :
  Pattern.buf_sz p < 2 ^ 64 ->
  h ∈ ptn_hits (ptn_reset p) w 0 ->
  1 <= Pattern.buf_sz p /\ Pattern.buf_sz p - 1 <= h < Z.of_nat (length w).
Proof.
  intros Hsz Hh. destruct (Pattern.buf p) as [|x l] eqn:Hb.
  - rewrite (ptn_hits_empty (ptn_reset p)) in Hh by exact Hb.
    apply elem_of_nil in Hh. contradiction.
  - assert (Hne : Pattern.buf p <> []) by (rewrite Hb; discriminate).
    pose proof (ptn_hits_bounds _ _ _ _ (ptn_reset_ok p Hne Hsz) Hh) as H.
    change (Pattern.buf_sz (ptn_reset p)) with (Pattern.buf_sz p) in H.
    cbn [Pattern.buf_pos ptn_reset Pattern.set_evc Pattern.set_buf_pos] in H.
    split; [|lia]. unfold Pattern.buf_sz. rewrite Hb. simpl length. lia.
Qed.

Lemma ptn_reset_hits_apart p w h1 h2 :
  Pattern.buf_sz p < 2 ^ 64 ->
  h1 ∈ ptn_hits (ptn_reset p) w 0 -> h2 ∈ ptn_hits (ptn_reset p) w 0 ->
  h1 < h2 -> h1 + Pattern.buf_sz p <= h2.
Proof.
  intros Hsz H1 H2 Hlt. destruct (Pattern.buf p) as [|x l] eqn:Hb.
  - rewrite (ptn_hits_empty (ptn_reset p)) in H1 by exact Hb.
    apply elem_of_nil in H1. contradiction.
  - assert (Hne : Pattern.buf p <> []) by (rewrite Hb; discriminate).
    apply (ptn_hits_apart _ _ _ _ _ (ptn_reset_ok p Hne Hsz) H1 H2 Hlt).
Qed.

(** X9.  The spans that a pass paints: each begins at alpha index -1 or
    later and ends before the last window position, so the one index a
    paint can reach outside the window is -1; two spans painted for the
    same pattern do not overlap. *)
Theorem ptn_paints_within (c : rwstat_ch_priv) :
  Forall (fun p => Pattern.buf_sz p < 2 ^ 64) (patterns c) ->
  (forall q, q ∈ (update_ptnalpha_paints c).2 ->
     1 <= paint_len q /\ -1 <= paint_start q
     /\ paint_start q + paint_len q < Z.of_nat (length (window c)))
  /\ (forall q1 q2,
        q1 ∈ (update_ptnalpha_paints c).2 ->
        q2 ∈ (update_ptnalpha_paints c).2 ->
        paint_ptn q1 = paint_ptn q2 -> paint_start q1 < paint_start q2 ->
        paint_start q1 + paint_len q1 <= paint_start q2).
Proof.
  intros Hall. rewrite Forall_lookup in Hall. split.
  - intros q Hq.
    destruct (update_ptnalpha_paint_inv c q Hq) as (j & p & h & Hj & Hh & ->).
    pose proof (ptn_reset_hits_bounds p _ h (Hall j p Hj) Hh). simpl. lia.
  - intros q1 q2 H1 H2 Hsame Hlt.
    destruct (update_ptnalpha_paint_inv c q1 H1) as (j1 & p1 & h1 & Hj1 & Hh1 & ->).
    destruct (update_ptnalpha_paint_inv c q2 H2) as (j2 & p2 & h2 & Hj2 & Hh2 & ->).
    simpl in *. subst j2. rewrite Hj1 in Hj2. injection Hj2 as <-.
    pose proof (ptn_reset_hits_apart p1 _ h1 h2 (Hall j1 p1 Hj1) Hh1 Hh2).
    lia.
Qed.

(** ** The alpha buffer after a pass *)

Lemma store_lookup (l : list byte) (i : Z) (v : byte) (k : nat) :
  (k < length l)%nat ->
  store l i v !! k = if decide (i = Z.of_nat k) then Some v else l !! k.
Proof.
  intros Hk. unfold store.
  destruct (decide (i = Z.of_nat k)) as [->|Hne].
  - rewrite (proj2 (Z.leb_le _ _)), (proj2 (Z.ltb_lt _ _)) by lia. simpl.
    rewrite Nat2Z.id. apply list_lookup_insert_eq. exact Hk.
  - destruct ((0 <=? i) && (i <? Z.of_nat (length l))) eqn:E; [|reflexivity].
    apply andb_true_iff in E as [E1 E2].
    apply Z.leb_le in E1. apply Z.ltb_lt in E2.
    apply list_lookup_insert_ne. lia.
Qed.

Lemma memset_from_length (l : list byte) (start : Z) (v : byte) (a m : nat) :
  length (fold_left (fun l k => store l (start + Z.of_nat k) v) (seq a m) l)
  = length l.
Proof.
  revert a l. induction m as [|m IH]; intros a l; [reflexivity|].
  simpl. rewrite IH. apply store_length.
Qed.

Lemma memset_length (l : list byte) (start : Z) (v : byte) (n : Z) :
  length (memset l start v n) = length l.
Proof. unfold memset. apply memset_from_length. Qed.

Lemma memset_from_lookup (l : list byte) (start : Z) (v : byte) (a m k : nat) :
  (k < length l)%nat ->
  fold_left (fun l k => store l (start + Z.of_nat k) v) (seq a m) l !! k
  = if decide (start + Z.of_nat a <= Z.of_nat k < start + Z.of_nat a + Z.of_nat m)
    then Some v else l !! k.
Proof.
  revert a l. induction m as [|m IH]; intros a l Hk.
  - simpl. destruct (decide _); [lia|reflexivity].
  - simpl. rewrite IH by (rewrite store_length; exact Hk).
    rewrite store_lookup by exact Hk.
    repeat destruct (decide _); try reflexivity; lia.
Qed.

(** [memset] on a buffer: the bytes of the span that fall inside it. *)
Lemma memset_lookup (l : list byte) (start : Z) (v : byte) (n : Z) (k : nat) :
  0 <= n -> (k < length l)%nat ->
  memset l start v n !! k
  = if decide (start <= Z.of_nat k < start + n) then Some v else l !! k.
Proof.
  intros Hn Hk. unfold memset. rewrite memset_from_lookup by exact Hk.
  repeat destruct (decide _); try reflexivity; lia.
Qed.

Lemma ptn_match_eq b i j p st :
  ptn_match b i j p st
  = (ptn_next b p,
     if ptn_done b p then
       mk_pass (memset (pass_alpha st) (i - Pattern.buf_sz p) (Pattern.alpha p)
                  (Pattern.buf_sz p))
         (if Z.land (Pattern.flags p) FLAG_STATE =? 0
          then pass_av st else Pattern.alpha p)
         (pass_paints st
          ++ [mk_paint j (i - Pattern.buf_sz p) (Pattern.alpha p)
                (Pattern.buf_sz p)])
     else st).
Proof.
  rewrite <- (ptn_match_next b i j p st).
  unfold ptn_done, ptn_match. destruct (decide _) as [e|n].
  - rewrite (bool_decide_eq_true_2 _ e). simpl andb.
    destruct (_ =? _); reflexivity.
  - rewrite (bool_decide_eq_false_2 _ n). reflexivity.
Qed.

Lemma existsb_lt_false (hits : list Z) (k lo : Z) :
  (forall h, h ∈ hits -> lo <= h) -> k <= lo -> existsb (fun h => h <? k) hits = false.
Proof.
  intros Hall Hk. induction hits as [|h hits IH]; [reflexivity|].
  simpl. rewrite IH by (intros h' Hh'; apply Hall, elem_of_cons; auto).
  pose proof (Hall h ltac:(apply elem_of_cons; auto)).
  destruct (Z.ltb_spec h k); [lia|reflexivity].
Qed.

(** The scan with one pattern, from position [i] with default opacity
    [av]: what alpha index [k] holds at the end. *)
Lemma ptn_scan_single_alpha (w : list byte) :
  forall (i : Z) (p : Pattern.t) (al : list byte) (av : byte)
         (pts : list paint) (k : nat),
    ptn_ok p -> (k < length al)%nat ->
    pass_alpha (ptn_scan w i [p] (mk_pass al av pts)).2 !! k
    = let hits := ptn_hits p w i in
      let K := Z.of_nat k in
      if ptn_cover (Pattern.buf_sz p) hits K then Some (Pattern.alpha p)
      else if (i <=? K) && (K <? i + Z.of_nat (length w)) then
        Some (if negb (Z.land (Pattern.flags p) FLAG_STATE =? 0)
                 && existsb (fun h => h <? K) hits
              then Pattern.alpha p else av)
      else al !! k.
Proof.
  induction w as [|b w IH]; intros i p al av pts k Hok Hk; cbv zeta.
  - simpl. rewrite Z.add_0_r.
    destruct (Z.leb_spec i (Z.of_nat k)), (Z.ltb_spec (Z.of_nat k) i);
      simpl; try reflexivity; lia.
  - cbn [ptn_scan ptn_each]. rewrite ptn_match_eq.
    cbn [pass_alpha pass_av pass_paints].
    destruct (ptn_next_fixed b p) as (_ & Ha & _ & Hf & Hs).
    pose proof (ptn_next_ok b p Hok) as Hok'.
    assert (Hlow : forall h, h ∈ ptn_hits (ptn_next b p) w (i + 1) -> i + 1 <= h).
    { intros h Hh. pose proof (ptn_hits_bounds _ _ _ _ Hok' Hh) as Hb.
      destruct Hok' as [Hp' _]. lia. }
    assert (Hsz : 1 <= Pattern.buf_sz p) by (destruct Hok; lia).
    cbn [ptn_hits]. unfold ptn_cover. rewrite !existsb_app.
    fold (ptn_cover (Pattern.buf_sz p) (ptn_hits (ptn_next b p) w (i + 1)) (Z.of_nat k)).
    rewrite length_cons.
    destruct (ptn_done b p) eqn:Hd.
    + rewrite IH by (rewrite ?memset_length, ?store_length; assumption).
      cbv zeta. rewrite Ha, Hf, Hs. cbn [existsb orb].
      rewrite memset_lookup by (rewrite ?store_length; lia).
      rewrite store_lookup by exact Hk.
      destruct (ptn_cover _ _ _); [rewrite orb_true_r; reflexivity|].
      rewrite !orb_false_r.
      destruct (Z.leb_spec (i - Pattern.buf_sz p) (Z.of_nat k));
        destruct (Z.ltb_spec (Z.of_nat k) i);
        destruct (Z.leb_spec (i + 1) (Z.of_nat k));
        destruct (Z.leb_spec i (Z.of_nat k));
        destruct (Z.ltb_spec (Z.of_nat k) (i + 1 + Z.of_nat (length w)));
        destruct (Z.ltb_spec (Z.of_nat k) (i + Z.of_nat (S (length w))));
        destruct (Z.ltb_spec i (Z.of_nat k));
        try lia; cbn [andb orb negb];
        repeat destruct (decide _); try lia; try reflexivity;
        try (rewrite (existsb_lt_false _ _ (i + 1) Hlow) by lia);
        destruct (Z.land (Pattern.flags p) FLAG_STATE =? 0);
        cbn [andb orb negb]; try reflexivity;
        destruct (existsb _ _); reflexivity.
    + rewrite IH by (rewrite ?store_length; assumption).
      cbv zeta. rewrite Ha, Hf, Hs. cbn [existsb orb].
      rewrite store_lookup by exact Hk.
      destruct (ptn_cover _ _ _); [reflexivity|].
      destruct (Z.leb_spec (i + 1) (Z.of_nat k));
        destruct (Z.leb_spec i (Z.of_nat k));
        destruct (Z.ltb_spec (Z.of_nat k) (i + 1 + Z.of_nat (length w)));
        destruct (Z.ltb_spec (Z.of_nat k) (i + Z.of_nat (S (length w))));
        try lia; cbn [andb orb negb];
        repeat destruct (decide _); try lia; try reflexivity;
        try (rewrite (existsb_lt_false _ _ (i + 1) Hlow) by lia);
        rewrite ?andb_false_r; reflexivity.
Qed.

Lemma update_ptnalpha_alpha_single (c : rwstat_ch_priv) (p : Pattern.t) :
  patterns c = [p] ->
  alpha (update_ptnalpha c)
  = pass_alpha (ptn_scan (window c) 0 [ptn_reset p] (mk_pass (alpha c) xff [])).2.
Proof.
  intros Hp. unfold update_ptnalpha, update_ptnalpha_paints. rewrite Hp.
  fold (window c). cbn [map].
  destruct (ptn_scan _ _ _ _) as [ps1 st]. destruct (ptn_events ps1).
  reflexivity.
Qed.

(** X10.  The alpha buffer after a pass with one registered pattern.  A
    window position inside a painted span, which runs from [h - length]
    to [h - 1] for a match completed at [h], holds the pattern's opacity;
    any other window position holds the default opacity of the moment it
    was reached: the pattern's if the pattern is flagged persist and had
    completed a match before, fully opaque otherwise.  Alpha entries
    beyond the window are not touched. *)
Theorem ptn_pass_alpha_single (c : rwstat_ch_priv) (p : Pattern.t) (k : nat) :
  patterns c = [p] ->
  Pattern.buf p <> [] -> Pattern.buf_sz p < 2 ^ 64 ->
  (k < length (alpha c))%nat ->
  alpha (update_ptnalpha c) !! k
  = if Z.of_nat k <? Z.of_nat (length (window c))
    then Some (ptn_alpha_at p (window c) (Z.of_nat k))
    else alpha c !! k.
Proof.
  intros Hp Hne Hsz Hk. rewrite (update_ptnalpha_alpha_single c p Hp).
  pose proof (ptn_reset_ok p Hne Hsz) as Hok.
  rewrite ptn_scan_single_alpha by assumption. cbv zeta.
  unfold ptn_alpha_at, ptn_default.
  change (Pattern.buf_sz (ptn_reset p)) with (Pattern.buf_sz p).
  change (Pattern.alpha (ptn_reset p)) with (Pattern.alpha p).
  change (Pattern.flags (ptn_reset p)) with (Pattern.flags p).
  rewrite Z.add_0_l.
  destruct (Z.ltb_spec (Z.of_nat k) (Z.of_nat (length (window c)))) as [Hlt|Hge].
  - rewrite (proj2 (Z.leb_le 0 (Z.of_nat k))) by lia. simpl andb.
    destruct (ptn_cover _ _ _); reflexivity.
  - rewrite andb_false_r.
    assert (Hc : ptn_cover (Pattern.buf_sz p)
                   (ptn_hits (ptn_reset p) (window c) 0) (Z.of_nat k) = false).
    { unfold ptn_cover. apply not_true_is_false. intros Hex.
      apply existsb_exists in Hex as (h & Hh & Hb).
      apply list_elem_of_In in Hh.
      pose proof (ptn_reset_hits_bounds p _ h Hsz Hh).
      apply andb_true_iff in Hb as [_ Hb]. apply Z.ltb_lt in Hb. lia. }
    rewrite Hc. reflexivity.
Qed.

Lemma ptn_pass_alpha_single_witness :
  alpha (update_ptnalpha ptn_example) !! 2%nat
  = if Z.of_nat 2 <? Z.of_nat (length (window ptn_example))
    then Some (ptn_alpha_at (Pattern.mk [xde; xad] 0 0 x80 7 FLAG_EVENT)
                 (window ptn_example) (Z.of_nat 2))
    else alpha ptn_example !! 2%nat.
Proof.
  apply (ptn_pass_alpha_single ptn_example
           (Pattern.mk [xde; xad] 0 0 x80 7 FLAG_EVENT) 2);
    [vm_compute; reflexivity | discriminate | vm_compute; reflexivity
    | vm_compute; lia].
Defined.

(** [memset] from index 0 over at least the whole buffer. *)
Lemma memset_all (l : list byte) (v : byte) (n : Z) :
  Z.of_nat (length l) <= n -> memset l 0 v n = replicate (length l) v.
Proof.
  intros Hn. apply list_eq. intros k.
  destruct (decide (k < length l)%nat) as [Hk|Hk].
  - rewrite memset_lookup by lia. rewrite decide_True by lia.
    symmetry. apply lookup_replicate_2. exact Hk.
  - rewrite !lookup_ge_None_2; rewrite ?memset_length, ?length_replicate;
      try lia. reflexivity.
Qed.

Section AlphaFull.
Variable hnorm_bucket : Z -> Z -> Z.
Variable update_entalpha : rwstat_ch_priv -> Z -> list byte.
Let step := ch_step hnorm_bucket update_entalpha.

(** In constant alpha mode the frame step leaves the alpha buffer alone. *)
Lemma ch_step_alpha_full (c : rwstat_ch_priv) :
  amode c = RW_ALPHA_FULL ->
  amode (step c) = RW_ALPHA_FULL /\ alpha (step c) = alpha c.
Proof.
  intros Hm. split.
  - unfold step. rewrite (ch_step_keeps hnorm_bucket update_entalpha amode)
      by reflexivity. exact Hm.
  - unfold step, ch_step. cbv zeta.
    set (c1 := enqueue _ c).
    set (c2 := if status_dirty c1 then _ else c1).
    assert (H2 : amode c2 = amode c /\ alpha c2 = alpha c)
      by (subst c2 c1; destruct (status_dirty _); cbn; auto).
    clearbody c2. clear c1.
    set (c3 := match clock c2 with
               | RW_CLK_BLOCK => c2 | RW_CLK_SLIDE => rebuild_hgram c2 end).
    assert (H3 : amode c3 = amode c2 /\ alpha c3 = alpha c2)
      by (subst c3; unfold rebuild_hgram; destruct (clock c2); cbn; auto).
    set (c4 := match pack c3 with
               | PACK_HINTENS => set_hgram (hnorm hnorm_bucket (hgram c3)) c3
               | _ => c3 end).
    assert (H4 : amode c4 = amode c /\ alpha c4 = alpha c).
    { destruct H2 as [E1 E2], H3 as [E3 E4].
      rewrite <- E1, <- E2, <- E3, <- E4.
      subst c4. destruct (pack c3); cbn; auto. }
    clearbody c4. destruct H4 as [H4m H4a].
    rewrite H4m, Hm. cbn. exact H4a.
Qed.

Lemma ch_call_alpha_full (c : rwstat_ch_priv) (call : ch_call) :
  amode c = RW_ALPHA_FULL ->
  amode (ch_call_run hnorm_bucket update_entalpha c call) = RW_ALPHA_FULL
  /\ alpha (ch_call_run hnorm_bucket update_entalpha c call) = alpha c.
Proof.
  intros Hm. destruct call as [chunk| |ofs|k|a i fl b]; cbn [ch_call_run];
    try (split; [exact Hm|reflexivity]).
  - unfold ch_data. cbv zeta.
    set (r := match clock c with
              | RW_CLK_BLOCK => _ | RW_CLK_SLIDE => _ end).
    assert (Hr : amode r.2 = RW_ALPHA_FULL /\ alpha r.2 = alpha c).
    { subst r. destruct (clock c); [auto|].
      destruct (_ <? _); cbn; auto. }
    destruct r as [ntw c1]. cbn [snd] in Hr. destruct Hr as [Hm1 Ha1].
    destruct (ingest_loop _ _) as [[h b] o].
    destruct (o =? _); cbn [fst]; [|cbn; auto].
    match goal with |- context [ch_step _ _ ?x] => set (c2 := x) end.
    destruct (ch_step_alpha_full c2) as [Hm2 Ha2]; [subst c2; exact Hm1|].
    unfold step in Hm2, Ha2. rewrite Hm2, Ha2. subst c2. cbn. auto.
  - apply ch_step_alpha_full, Hm.
Qed.

(** X12.  Once the alpha mode is switched to constant, the alpha buffer
    is fully opaque and stays so: after any run of data, tick, wind,
    clock and pattern calls the mode is still constant and every alpha
    entry is 0xff, whatever the buffer held before the switch. *)
Theorem ch_alpha_full_stays (c : rwstat_ch_priv) (calls : list ch_call) :
  Z.of_nat (length (alpha c)) <= wrap_sz (base c * base c) ->
  let c' := ch_calls hnorm_bucket update_entalpha
              (ch_alpha c RW_ALPHA_FULL) calls in
  amode c' = RW_ALPHA_FULL
  /\ alpha c' = replicate (length (alpha c)) xff.
Proof.
  intros Hlen.
  assert (Hstart : amode (ch_alpha c RW_ALPHA_FULL) = RW_ALPHA_FULL
                   /\ alpha (ch_alpha c RW_ALPHA_FULL)
                      = replicate (length (alpha c)) xff).
  { unfold ch_alpha. cbn [amode alpha base set_amode set_alpha].
    rewrite memset_all by exact Hlen. auto. }
  revert Hstart. generalize (ch_alpha c RW_ALPHA_FULL) as c0.
  unfold ch_calls. induction calls as [|call calls IH]; intros c0 [Hm Ha];
    [cbn; auto|].
  cbn [fold_left]. apply IH.
  destruct (ch_call_alpha_full c0 call Hm) as [Hm' Ha'].
  rewrite Ha', Ha. auto.
Qed.

End AlphaFull.

(** The pattern example after a pass holds the pattern's opacity in its
    alpha buffer; the switch wipes it. *)
Lemma ch_alpha_full_stays_witness :
  alpha (update_ptnalpha ptn_example) <> replicate 9 xff
  /\ alpha (ch_calls hnorm_bucket_q update_entalpha_id
              (ch_alpha (update_ptnalpha ptn_example) RW_ALPHA_FULL)
              [CallData [x01; x02]; CallTick; CallData [x03]])
     = replicate (length (alpha (update_ptnalpha ptn_example))) xff.
Proof.
  split; [vm_compute; discriminate|].
  apply (ch_alpha_full_stays hnorm_bucket_q update_entalpha_id
           (update_ptnalpha ptn_example)
           [CallData [x01; x02]; CallTick; CallData [x03]]).
  vm_compute. discriminate.
Defined.

(** ** The frame step *)

Section StepMore.
Variable hnorm_bucket : Z -> Z -> Z.
Variable update_entalpha : rwstat_ch_priv -> Z -> list byte.
Let step := ch_step hnorm_bucket update_entalpha.

(** X13.  What a frame step queues: the frame status with the two
    counters, then the stream info if the configuration was flagged
    changed, then, in pattern alpha mode, the match notifications of the
    pass.  Afterwards the changed flag is clear, so the stream info is
    not repeated, and the frame counter has caught up with the total. *)
Theorem ch_step_notifications (c : rwstat_ch_priv) :
  Z.of_nat (length (window c)) < 2 ^ 31 ->
  cont (step c)
  = cont c
    ++ [FRAMESTATUS (cnt_local c) (cnt_total c)]
    ++ (if status_dirty c
        then [STREAMINFO (48 + Z.of_nat (pack_index (pack c)))
                (48 + Z.of_nat (map_index (chmap c))) (48 + pack_sz c)]
        else [])
    ++ match amode c with
       | RW_ALPHA_PTN => ptn_notifications (patterns c) (window c)
       | _ => []
       end
  /\ status_dirty (step c) = false
  /\ cnt_local (step c) = cnt_total c
  /\ cnt_total (step c) = cnt_total c.
Proof.
  intros Hlen. unfold step, ch_step. cbv zeta.
  set (c1 := enqueue _ c).
  set (c2 := if status_dirty c1 then _ else c1).
  set (evs := if status_dirty c then _ else []).
  assert (H2 : cont c2 = cont c ++ [FRAMESTATUS (cnt_local c) (cnt_total c)] ++ evs
               /\ status_dirty c2 = false /\ cnt_total c2 = cnt_total c
               /\ amode c2 = amode c /\ patterns c2 = patterns c
               /\ window c2 = window c).
  { subst c2 c1 evs. unfold enqueue, window. cbn [status_dirty set_cont].
    destruct (status_dirty c) eqn:Hd; cbn; rewrite ?Hd;
      rewrite <- ?app_assoc; auto 10. }
  destruct H2 as (Hc & Hd & Ht & Ha & Hp & Hw).
  set (c3 := match clock c2 with
             | RW_CLK_BLOCK => c2 | RW_CLK_SLIDE => rebuild_hgram c2 end).
  assert (H3 : cont c3 = cont c2 /\ status_dirty c3 = status_dirty c2
               /\ cnt_total c3 = cnt_total c2 /\ amode c3 = amode c2
               /\ patterns c3 = patterns c2 /\ window c3 = window c2
               /\ pack c3 = pack c2)
    by (subst c3; unfold rebuild_hgram, window; destruct (clock c2); cbn; auto 10).
  set (c4 := match pack c3 with
             | PACK_HINTENS => set_hgram (hnorm hnorm_bucket (hgram c3)) c3
             | _ => c3 end).
  assert (H4 : cont c4 = cont c2 /\ status_dirty c4 = status_dirty c2
               /\ cnt_total c4 = cnt_total c2 /\ amode c4 = amode c2
               /\ patterns c4 = patterns c2 /\ window c4 = window c2).
  { destruct H3 as (A1 & A2 & A3 & A4 & A5 & A6 & _).
    subst c4. unfold window in *. destruct (pack c3); cbn; auto 10. }
  clearbody c4. clear c3 H3.
  destruct H4 as (B1 & B2 & B3 & B4 & B5 & B6).
  rewrite B4, Ha.
  destruct (amode c); cbn [cont status_dirty cnt_local cnt_total set_cnt_local
                           set_alpha].
  - rewrite B1, B2, B3, Hc, Hd, Ht, app_nil_r. auto.
  - rewrite (update_ptnalpha_keeps status_dirty) by reflexivity.
    rewrite (update_ptnalpha_keeps cnt_total) by reflexivity.
    rewrite update_ptnalpha_notifications by (rewrite B6, Hw; exact Hlen).
    rewrite B1, B2, B3, B5, B6, Hc, Hd, Ht, Hp, Hw, <- !app_assoc. auto.
  - rewrite B1, B2, B3, Hc, Hd, Ht, app_nil_r. auto.
Qed.

End StepMore.

(** ** The channel between operations *)

Lemma ptn_scan_alpha_length w i ps st :
  length (pass_alpha (ptn_scan w i ps st).2) = length (pass_alpha st).
Proof.
  assert (Heach : forall b i j ps st,
             length (pass_alpha (ptn_each b i j ps st).2)
             = length (pass_alpha st)).
  { clear. intros b i j ps. revert j. induction ps as [|p ps IH]; intros j st;
      [reflexivity|].
    simpl. rewrite ptn_match_eq.
    destruct (ptn_each b i (S j) ps _) as [ps1 st2] eqn:E. simpl.
    apply (f_equal (fun r => length (pass_alpha r.2))) in E.
    rewrite IH in E. simpl in E. rewrite <- E.
    destruct (ptn_done b p); [apply memset_length|reflexivity]. }
  revert i ps st. induction w as [|b w IH]; intros i ps st; [reflexivity|].
  simpl. destruct (ptn_each _ _ _ _ _) as [ps1 st2] eqn:E.
  rewrite IH. apply (f_equal (fun r => length (pass_alpha r.2))) in E.
  rewrite Heach in E. simpl in E. rewrite <- E. apply store_length.
Qed.

Lemma update_ptnalpha_alpha_length (c : rwstat_ch_priv) :
  length (alpha (update_ptnalpha c)) = length (alpha c).
Proof.
  unfold update_ptnalpha, update_ptnalpha_paints.
  destruct (patterns c) as [|p0 ps0]; [cbn; apply memset_length|].
  destruct (ptn_scan _ _ _ _) as [ps1 st] eqn:E.
  destruct (ptn_events ps1) as [ps2 evs]. cbn.
  apply (f_equal (fun r => length (pass_alpha r.2))) in E.
  rewrite ptn_scan_alpha_length in E. simpl in E. symmetry. exact E.
Qed.

Lemma fold_hgram_inc_length (xs : list byte) (h : list Z) :
  length (fold_left hgram_inc xs h) = length h.
Proof.
  revert h. induction xs as [|x xs IH]; intros h; [reflexivity|].
  simpl. rewrite IH. apply hgram_inc_length.
Qed.

Section Invariant.
Variable hnorm_bucket : Z -> Z -> Z.
Variable update_entalpha : rwstat_ch_priv -> Z -> list byte.
(** [update_entalpha] fills the alpha buffer in place. *)
Hypothesis update_entalpha_length :
  forall c bsz, length (update_entalpha c bsz) = length (alpha c).
Let step := ch_step hnorm_bucket update_entalpha.
Let data := ch_data hnorm_bucket update_entalpha.
Let pack_f := ch_pack hnorm_bucket update_entalpha.
Let resize_f := ch_resize hnorm_bucket update_entalpha.
Let map_f := ch_map hnorm_bucket update_entalpha.

Lemma ch_step_alloc c : ch_alloc c -> ch_alloc (step c).
Proof.
  unfold ch_alloc. intros (Hb & Ha & Hh). unfold step.
  rewrite ch_step_buf, ch_step_buf_sz, ch_step_base.
  split; [exact Hb|]. unfold ch_step. cbv zeta.
  set (c1 := enqueue _ c).
  set (c2 := if status_dirty c1 then _ else c1).
  assert (H2 : alpha c2 = alpha c /\ hgram c2 = hgram c)
    by (subst c2 c1; destruct (status_dirty _); cbn; auto).
  destruct H2 as [H2a H2h].
  set (c3 := match clock c2 with
             | RW_CLK_BLOCK => c2 | RW_CLK_SLIDE => rebuild_hgram c2 end).
  assert (H3 : alpha c3 = alpha c /\ length (hgram c3) = 256%nat).
  { subst c3. unfold rebuild_hgram. destruct (clock c2); cbn;
      rewrite ?fold_hgram_inc_length, H2a, H2h; auto. }
  destruct H3 as [H3a H3h].
  set (c4 := match pack c3 with
             | PACK_HINTENS => set_hgram (hnorm hnorm_bucket (hgram c3)) c3
             | _ => c3 end).
  assert (H4 : alpha c4 = alpha c /\ length (hgram c4) = 256%nat).
  { subst c4. destruct (pack c3); cbn; auto. split; [exact H3a|].
    unfold hnorm. destruct (0 <? _); [rewrite length_map|]; exact H3h. }
  clearbody c4. destruct H4 as [H4a H4h].
  destruct (amode c4); cbn [alpha hgram set_cnt_local set_alpha].
  - rewrite H4a. auto.
  - rewrite update_ptnalpha_alpha_length, H4a.
    rewrite (update_ptnalpha_keeps hgram) by reflexivity. auto.
  - rewrite update_entalpha_length, H4a. auto.
Qed.

Lemma ch_step_cmap c : cmap (step c) = cmap c.
Proof. apply (ch_step_keeps hnorm_bucket update_entalpha cmap); reflexivity. Qed.

Lemma ch_step_inv c : ch_inv c -> ch_inv (step c).
Proof.
  intros (Ha & Hc & Hp & Hb). unfold ch_inv, ch_cmap_ok, step in *.
  rewrite ch_step_cmap, ch_step_chmap, ch_step_base, ch_step_pack.
  split; [apply ch_step_alloc, Ha|]. split; [exact Hc|].
  split; [|exact Hb]. apply (packed_step hnorm_bucket update_entalpha), Hp.
Qed.

Lemma ch_pack_footprint_keeps {A} (f : rwstat_ch_priv -> A) :
  (forall v c, f (set_pack_sz v c) = f c) ->
  (forall v c, f (set_pack v c) = f c) ->
  forall c p, f (ch_pack_footprint c p) = f c.
Proof.
  intros H1 H2 c p. unfold ch_pack_footprint. cbv zeta.
  destruct (chmap _); rewrite ?H1, ?H2; reflexivity.
Qed.

(** What the three switches keep whatever path they take. *)
Lemma switch_keeps {A} (f : rwstat_ch_priv -> A) :
  (forall v c, f (set_cont v c) = f c) ->
  (forall v c, f (set_patterns v c) = f c) ->
  (forall v c, f (set_alpha v c) = f c) ->
  (forall v c, f (set_hgram v c) = f c) ->
  (forall v c, f (set_status_dirty v c) = f c) ->
  (forall v c, f (set_cnt_local v c) = f c) ->
  (forall v c, f (set_pack_sz v c) = f c) ->
  (forall v c, f (set_pack v c) = f c) ->
  (forall v c, f (set_cmap v c) = f c) ->
  (forall v c, f (set_chmap v c) = f c) ->
  (forall v c, f (set_buf_sz v c) = f c) ->
  (forall v c, f (set_buf v c) = f c) ->
  (forall v c, f (set_base v c) = f c) ->
  forall fuel c c',
    (forall p, pack_f fuel c p = Some c' -> f c' = f c)
    /\ (forall b, resize_f fuel c b = Some c' -> f c' = f c)
    /\ (forall m, map_f fuel c m = Some c' -> f c' = f c).
Proof.
  intros Hc Hp Ha Hh Hd Hl Hps Hpk Hcm Hm Hbz Hb Hbs.
  induction fuel as [|fuel IH]; intros c c';
    [repeat split; intros; discriminate|].
  split; [|split].
  - intros p. rewrite (ch_pack_S hnorm_bucket update_entalpha). cbv zeta.
    match goal with |- context [?a =? ?b] => destruct (a =? b) end.
    + cbn [mbind option_bind]. intros [= <-].
      rewrite Hd. apply ch_pack_footprint_keeps; assumption.
    + match goal with |- context [ch_resize ?a ?b ?c ?d ?e] =>
        destruct (ch_resize a b c d e) as [c3|] eqn:E; [|discriminate] end.
      cbn [mbind option_bind]. intros [= <-]. rewrite Hd.
      rewrite (proj1 (proj2 (IH _ _)) _ E).
      apply ch_pack_footprint_keeps; assumption.
  - intros b. rewrite (ch_resize_S hnorm_bucket update_entalpha). cbv zeta.
    intros E. rewrite (proj2 (proj2 (IH _ _)) _ E).
    rewrite Hbs, Ha, Hb, Hbz. reflexivity.
  - intros m. rewrite (ch_map_S hnorm_bucket update_entalpha). cbv zeta.
    set (c1 := set_cmap None (set_chmap m c)).
    assert (H1 : f c1 = f c) by (subst c1; rewrite Hcm, Hm; reflexivity).
    destruct (match m with
              | MAP_HILBERT => _ | _ => Some c1 end) as [c2|] eqn:E2;
      [|discriminate].
    assert (H2 : f c2 = f c).
    { destruct m; try (injection E2 as <-; exact H1).
      destruct (build_cmap _) as [tbl|]; [|discriminate].
      injection E2 as <-. rewrite Hcm. exact H1. }
    cbn [mbind option_bind].
    match goal with |- context [ch_pack ?a ?b ?c ?d ?e] =>
      destruct (ch_pack a b c d e) as [c3|] eqn:E3; [|discriminate] end.
    cbn [mbind option_bind]. intros [= <-].
    unfold step. rewrite (ch_step_keeps hnorm_bucket update_entalpha f) by assumption.
    rewrite Hd, (proj1 (IH _ _) _ E3). exact H2.
Qed.

Lemma switch_kept fuel c c' :
  (forall p, pack_f fuel c p = Some c' -> ch_kept c c')
  /\ (forall b, resize_f fuel c b = Some c' -> ch_kept c c')
  /\ (forall m, map_f fuel c m = Some c' -> ch_kept c c').
Proof.
  destruct (switch_keeps clock (fun _ _ => eq_refl) (fun _ _ => eq_refl)
              (fun _ _ => eq_refl) (fun _ _ => eq_refl) (fun _ _ => eq_refl)
              (fun _ _ => eq_refl) (fun _ _ => eq_refl) (fun _ _ => eq_refl)
              (fun _ _ => eq_refl) (fun _ _ => eq_refl) (fun _ _ => eq_refl)
              (fun _ _ => eq_refl) (fun _ _ => eq_refl) fuel c c')
    as (Kc1 & Kc2 & Kc3).
  destruct (switch_keeps amode (fun _ _ => eq_refl) (fun _ _ => eq_refl)
              (fun _ _ => eq_refl) (fun _ _ => eq_refl) (fun _ _ => eq_refl)
              (fun _ _ => eq_refl) (fun _ _ => eq_refl) (fun _ _ => eq_refl)
              (fun _ _ => eq_refl) (fun _ _ => eq_refl) (fun _ _ => eq_refl)
              (fun _ _ => eq_refl) (fun _ _ => eq_refl) fuel c c')
    as (Ka1 & Ka2 & Ka3).
  destruct (switch_keeps cnt_total (fun _ _ => eq_refl) (fun _ _ => eq_refl)
              (fun _ _ => eq_refl) (fun _ _ => eq_refl) (fun _ _ => eq_refl)
              (fun _ _ => eq_refl) (fun _ _ => eq_refl) (fun _ _ => eq_refl)
              (fun _ _ => eq_refl) (fun _ _ => eq_refl) (fun _ _ => eq_refl)
              (fun _ _ => eq_refl) (fun _ _ => eq_refl) fuel c c')
    as (Kt1 & Kt2 & Kt3).
  destruct (switch_keeps buf_ofs (fun _ _ => eq_refl) (fun _ _ => eq_refl)
              (fun _ _ => eq_refl) (fun _ _ => eq_refl) (fun _ _ => eq_refl)
              (fun _ _ => eq_refl) (fun _ _ => eq_refl) (fun _ _ => eq_refl)
              (fun _ _ => eq_refl) (fun _ _ => eq_refl) (fun _ _ => eq_refl)
              (fun _ _ => eq_refl) (fun _ _ => eq_refl) fuel c c')
    as (Ko1 & Ko2 & Ko3).
  unfold ch_kept.
  split; [|split]; intros x Hx; repeat split; eauto.
Qed.

Lemma ch_alloc_dirty v c : ch_alloc c -> ch_alloc (set_status_dirty v c).
Proof. intros H. exact H. Qed.

(** Whatever path a switch takes, it leaves buffers of the sizes in the
    fields and the curve table of the mapping. *)
Lemma switch_alloc fuel :
  forall c c',
    (forall p, pack_f fuel c p = Some c' ->
               ch_alloc c -> ch_cmap_ok c -> - 2 ^ 32 < base c < 2 ^ 32 ->
               ch_alloc c' /\ ch_cmap_ok c'
               /\ base c' = base c /\ chmap c' = chmap c)
    /\ (forall b, resize_f fuel c b = Some c' ->
                  length (hgram c) = 256%nat -> - 2 ^ 32 < b < 2 ^ 32 ->
                  ch_alloc c' /\ ch_cmap_ok c'
                  /\ base c' = b /\ chmap c' = chmap c)
    /\ (forall m, map_f fuel c m = Some c' ->
                  ch_alloc c -> - 2 ^ 32 < base c < 2 ^ 32 ->
                  ch_alloc c' /\ ch_cmap_ok c'
                  /\ base c' = base c /\ chmap c' = m).
Proof.
  induction fuel as [|fuel IH]; intros c c';
    [repeat split; intros; discriminate|].
  split; [|split].
  - intros p. rewrite (ch_pack_S hnorm_bucket update_entalpha). cbv zeta.
    intros E Ha Hc Hb.
    destruct (ch_pack_footprint_fields c p) as (H1 & H2 & H3 & H4 & H5).
    assert (Hh : length (hgram (ch_pack_footprint c p)) = 256%nat).
    { rewrite (ch_pack_footprint_keeps hgram) by reflexivity. apply Ha. }
    revert E.
    match goal with |- context [?a =? ?b] => destruct (a =? b) end.
    + cbn [mbind option_bind]. intros [= <-].
      unfold ch_alloc, ch_cmap_ok in *.
      cbn [buf buf_sz alpha base hgram cmap chmap set_status_dirty].
      rewrite (ch_pack_footprint_keeps buf), (ch_pack_footprint_keeps alpha),
        (ch_pack_footprint_keeps cmap), H2, H3, H4 by reflexivity.
      rewrite Hh. tauto.
    + match goal with |- context [ch_resize ?a ?b ?c ?d ?e] =>
        destruct (ch_resize a b c d e) as [c3|] eqn:E; [|discriminate] end.
      cbn [mbind option_bind]. intros [= <-].
      destruct (proj1 (proj2 (IH _ _)) _ E Hh) as (Q1 & Q2 & Q3 & Q4);
        [rewrite H3; exact Hb|].
      rewrite H3 in Q3. rewrite H2 in Q4. auto.
  - intros b. rewrite (ch_resize_S hnorm_bucket update_entalpha). cbv zeta.
    intros E Hh Hb.
    match type of E with ch_map _ _ _ ?c4 _ = _ => set (c4' := c4) in * end.
    destruct (proj2 (proj2 (IH _ _)) _ E) as (Q1 & Q2 & Q3 & Q4).
    + subst c4'. unfold ch_alloc.
      cbn [buf buf_sz alpha base hgram set_base set_alpha set_buf set_buf_sz].
      rewrite !length_replicate.
      pose proof (wrap_sz_range (b * b)).
      pose proof (wrap_sz_range (wrap_sz (b * b) * pack_sz c)).
      rewrite (wrap_sz_small (b * b)) in * by nia.
      repeat split; try lia; exact Hh.
    + subst c4'. cbn. exact Hb.
    + subst c4'. cbn in Q3, Q4. auto.
  - intros m. rewrite (ch_map_S hnorm_bucket update_entalpha). cbv zeta.
    intros E Ha Hb. revert E.
    set (c1 := set_cmap None (set_chmap m c)).
    destruct (match m with
              | MAP_HILBERT => _ | _ => Some c1 end) as [c2|] eqn:E2;
      [|discriminate].
    assert (H2 : ch_alloc c2 /\ ch_cmap_ok c2 /\ base c2 = base c
                 /\ chmap c2 = m).
    { destruct m; try (injection E2 as <-; subst c1; repeat split; apply Ha).
      destruct (build_cmap (base c1)) as [tbl|] eqn:Et; [|discriminate].
      injection E2 as <-. subst c1. unfold ch_cmap_ok. cbn in *.
      rewrite Et. repeat split; apply Ha. }
    destruct H2 as (A2 & C2 & B2 & M2).
    cbn [mbind option_bind].
    match goal with |- context [ch_pack ?a ?b ?c ?d ?e] =>
      destruct (ch_pack a b c d e) as [c3|] eqn:E3; [|discriminate] end.
    cbn [mbind option_bind]. intros [= <-].
    destruct (proj1 (IH _ _) _ E3 A2 C2) as (Q1 & Q2 & Q3 & Q4);
      [rewrite B2; exact Hb|].
    split; [apply ch_step_alloc, ch_alloc_dirty, Q1|].
    unfold ch_cmap_ok, step in *.
    rewrite ch_step_cmap, ch_step_chmap, ch_step_base.
    cbn [cmap chmap base set_status_dirty].
    rewrite Q3, Q4, B2, M2. rewrite Q3, Q4, B2, M2 in Q2. auto.
Qed.

(** The events of a frame step outside the pattern alpha mode. *)
Lemma ch_step_cont_plain (c : rwstat_ch_priv) :
  amode c <> RW_ALPHA_PTN ->
  cont (step c)
  = cont c ++ FRAMESTATUS (cnt_local c) (cnt_total c)
      :: (if status_dirty c
          then [STREAMINFO (48 + Z.of_nat (pack_index (pack c)))
                  (48 + Z.of_nat (map_index (chmap c))) (48 + pack_sz c)]
          else []).
Proof.
  intros Hm. unfold step, ch_step. cbv zeta.
  set (c1 := enqueue _ c).
  set (c2 := if status_dirty c1 then _ else c1).
  assert (H2 : cont c2 = cont c ++ FRAMESTATUS (cnt_local c) (cnt_total c)
                 :: (if status_dirty c
                     then [STREAMINFO (48 + Z.of_nat (pack_index (pack c)))
                             (48 + Z.of_nat (map_index (chmap c)))
                             (48 + pack_sz c)]
                     else [])
               /\ amode c2 = amode c).
  { subst c2 c1. unfold enqueue. cbn [status_dirty set_cont].
    destruct (status_dirty c); cbn; rewrite <- ?app_assoc; auto. }
  destruct H2 as [Hc Ha]. rewrite <- Hc. clearbody c2.
  set (c3 := match clock c2 with
             | RW_CLK_BLOCK => c2 | RW_CLK_SLIDE => rebuild_hgram c2 end).
  assert (H3 : cont c3 = cont c2 /\ amode c3 = amode c2)
    by (subst c3; unfold rebuild_hgram; destruct (clock c2); cbn; auto).
  set (c4 := match pack c3 with
             | PACK_HINTENS => set_hgram (hnorm hnorm_bucket (hgram c3)) c3
             | _ => c3 end).
  assert (H4 : cont c4 = cont c2 /\ amode c4 = amode c2)
    by (subst c4; destruct (pack c3); cbn; auto).
  clearbody c4. destruct H4 as [H4c H4a].
  rewrite H4a, Ha. destruct (amode c); [|congruence|]; cbn; exact H4c.
Qed.

Lemma ch_step_cnt_local c : cnt_local (step c) = cnt_total c.
Proof.
  rewrite <- (ch_step_keeps hnorm_bucket update_entalpha cnt_total)
    by reflexivity.
  reflexivity.
Qed.

(** A packing switch that finds the window already of the right size. *)
Lemma ch_pack_sized_eq f c p :
  0 <= base c <= 2 ^ 30 ->
  buf_sz c = base c * base c * sample_footprint p (chmap c) ->
  pack_f (S f) c p = Some (set_status_dirty true (ch_pack_footprint c p)).
Proof.
  intros Hb Hsz. pose proof (sample_footprint_range p (chmap c)) as Hk.
  rewrite (ch_pack_S hnorm_bucket update_entalpha). cbv zeta.
  destruct (ch_pack_footprint_fields c p) as (H1 & H2 & H3 & H4 & H5).
  rewrite H3, H4, H5, size_no_wrap, (proj2 (Z.eqb_eq _ _) Hsz) by assumption.
  reflexivity.
Qed.

(** A mapping switch that finds the window already of the right size:
    the window stays, one frame is stepped. *)
Lemma ch_map_sized_facts f c m :
  0 <= base c <= 2 ^ 30 ->
  buf_sz c = base c * base c * sample_footprint (pack c) m ->
  exists c', map_f (S (S f)) c m = Some c'
    /\ buf c' = buf c
    /\ cnt_local c' = cnt_total c
    /\ (amode c <> RW_ALPHA_PTN ->
        cont c' = cont c ++ [FRAMESTATUS (cnt_local c) (cnt_total c);
                             stream_info (pack c) m]).
Proof.
  intros Hb Hsz. rewrite (ch_map_S hnorm_bucket update_entalpha). cbv zeta.
  assert (Hc2 : exists c2,
    match m with
    | MAP_HILBERT =>
        tbl ← build_cmap (base (set_cmap None (set_chmap m c)));
        Some (set_cmap (Some tbl) (set_cmap None (set_chmap m c)))
    | _ => Some (set_cmap None (set_chmap m c))
    end = Some c2
    /\ exists t, c2 = set_cmap t (set_chmap m c)).
  { destruct m; try (eexists; split; [reflexivity|eexists; reflexivity]).
    cbn [base set_cmap set_chmap].
    destruct (build_cmap_total (base c) Hb) as [tbl ->]. simpl.
    eexists; split; [reflexivity|eexists; reflexivity]. }
  destruct Hc2 as (c2 & -> & t & ->).
  cbn [mbind option_bind].
  set (c2 := set_cmap t (set_chmap m c)).
  pose proof (ch_pack_sized_eq f c2 (pack c2) Hb Hsz) as E.
  unfold pack_f in E. rewrite E. cbn [mbind option_bind].
  eexists. split; [reflexivity|].
  destruct (ch_pack_footprint_fields c2 (pack c2)) as (H1 & H2 & H3 & H4 & H5).
  split; [|split].
  - fold step. rewrite (ch_step_buf hnorm_bucket update_entalpha).
    cbn [buf set_status_dirty].
    rewrite (ch_pack_footprint_keeps buf) by reflexivity. reflexivity.
  - fold step. rewrite ch_step_cnt_local. cbn [cnt_total set_status_dirty].
    rewrite (ch_pack_footprint_keeps cnt_total) by reflexivity. reflexivity.
  - intros Ha. fold step. rewrite ch_step_cont_plain.
    + cbn [cont cnt_local cnt_total status_dirty pack chmap pack_sz
             set_status_dirty].
      rewrite H1, H2, H5.
      rewrite (ch_pack_footprint_keeps cont),
        (ch_pack_footprint_keeps cnt_local),
        (ch_pack_footprint_keeps cnt_total) by reflexivity.
      reflexivity.
    + cbn [amode set_status_dirty].
      rewrite (ch_pack_footprint_keeps amode) by reflexivity. exact Ha.
Qed.

(** [ch_resize]: a zeroed window of the new size, one frame stepped. *)
Lemma ch_resize_facts f c b :
  0 <= b <= 2 ^ 30 ->
  pack_sz c = sample_footprint (pack c) (chmap c) ->
  exists c', resize_f (S (S (S f))) c b = Some c'
    /\ packed (pack c) (chmap c) b c'
    /\ buf c'
       = replicate (Z.to_nat (b * b * sample_footprint (pack c) (chmap c))) x00
    /\ cnt_local c' = cnt_total c
    /\ (amode c <> RW_ALPHA_PTN ->
        cont c' = cont c ++ [FRAMESTATUS (cnt_local c) (cnt_total c);
                             stream_info (pack c) (chmap c)]).
Proof.
  intros Hb Hps.
  destruct (ch_resize_footprint hnorm_bucket update_entalpha f c b Hb Hps)
    as (c' & E & Hpk).
  exists c'. split; [exact E|]. split; [exact Hpk|].
  rewrite (ch_resize_S hnorm_bucket update_entalpha) in E. cbv zeta in E.
  pose proof (sample_footprint_range (pack c) (chmap c)) as Hk.
  rewrite Hps, size_no_wrap in E by assumption.
  match type of E with ch_map _ _ _ ?c4 _ = _ => set (c4' := c4) in * end.
  destruct (ch_map_sized_facts f c4' (chmap c4')) as (c'' & E' & Q1 & Q2 & Q3).
  - subst c4'. cbn. exact Hb.
  - subst c4'. cbn. reflexivity.
  - unfold map_f in E'. rewrite E in E'. injection E' as <-.
    subst c4'. cbn in Q1, Q2, Q3. auto.
Qed.

(** A packing switch that changes the size of the window. *)
Lemma ch_pack_resized_facts f c p :
  0 <= base c <= 2 ^ 30 ->
  buf_sz c <> base c * base c * sample_footprint p (chmap c) ->
  exists c', pack_f (S (S (S (S f)))) c p = Some c'
    /\ packed p (chmap c) (base c) c'
    /\ buf c' = replicate
                  (Z.to_nat (base c * base c * sample_footprint p (chmap c)))
                  x00
    /\ cnt_local c' = cnt_total c
    /\ (amode c <> RW_ALPHA_PTN ->
        cont c' = cont c ++ [FRAMESTATUS (cnt_local c) (cnt_total c);
                             stream_info p (chmap c)]).
Proof.
  intros Hb Hsz.
  rewrite (ch_pack_S hnorm_bucket update_entalpha). cbv zeta.
  pose proof (sample_footprint_range p (chmap c)) as Hk.
  destruct (ch_pack_footprint_fields c p) as (H1 & H2 & H3 & H4 & H5).
  rewrite H3, H4, H5, size_no_wrap by assumption.
  rewrite (proj2 (Z.eqb_neq _ _) Hsz).
  destruct (ch_resize_facts f (ch_pack_footprint c p) (base c))
    as (c' & E & Hpk & Q1 & Q2 & Q3);
    [assumption|rewrite H1, H2, H5; reflexivity|].
  unfold resize_f in E. rewrite E. cbn [mbind option_bind].
  eexists. split; [reflexivity|].
  rewrite H1, H2 in Hpk, Q1, Q3.
  rewrite (ch_pack_footprint_keeps cnt_total) in Q2, Q3 by reflexivity.
  rewrite (ch_pack_footprint_keeps cnt_local),
    (ch_pack_footprint_keeps cont),
    (ch_pack_footprint_keeps amode) in Q3 by reflexivity.
  split; [apply (packed_dirty hnorm_bucket update_entalpha); exact Hpk|].
  cbn. auto.
Qed.

(** A mapping switch that changes the size of the window: the packing
    switch inside it resizes and steps, then the mapping switch steps
    again. *)
Lemma ch_map_resized_facts f c m :
  0 <= base c <= 2 ^ 30 ->
  buf_sz c <> base c * base c * sample_footprint (pack c) m ->
  exists c', map_f (S (S (S (S (S f))))) c m = Some c'
    /\ packed (pack c) m (base c) c'
    /\ buf c' = replicate
                  (Z.to_nat (base c * base c * sample_footprint (pack c) m))
                  x00
    /\ cnt_local c' = cnt_total c
    /\ (amode c <> RW_ALPHA_PTN ->
        cont c' = cont c ++ [FRAMESTATUS (cnt_local c) (cnt_total c);
                             stream_info (pack c) m;
                             FRAMESTATUS (cnt_total c) (cnt_total c);
                             stream_info (pack c) m]).
Proof.
  intros Hb Hsz. rewrite (ch_map_S hnorm_bucket update_entalpha). cbv zeta.
  assert (Hc2 : exists c2,
    match m with
    | MAP_HILBERT =>
        tbl ← build_cmap (base (set_cmap None (set_chmap m c)));
        Some (set_cmap (Some tbl) (set_cmap None (set_chmap m c)))
    | _ => Some (set_cmap None (set_chmap m c))
    end = Some c2
    /\ exists t, c2 = set_cmap t (set_chmap m c)).
  { destruct m; try (eexists; split; [reflexivity|eexists; reflexivity]).
    cbn [base set_cmap set_chmap].
    destruct (build_cmap_total (base c) Hb) as [tbl ->]. simpl.
    eexists; split; [reflexivity|eexists; reflexivity]. }
  destruct Hc2 as (c2 & -> & t & ->).
  cbn [mbind option_bind].
  set (c2 := set_cmap t (set_chmap m c)).
  destruct (ch_pack_resized_facts f c2 (pack c2) Hb Hsz)
    as (c3 & E & Hpk & Q1 & Q2 & Q3).
  unfold pack_f in E. rewrite E. cbn [mbind option_bind].
  eexists. split; [reflexivity|]. fold step.
  destruct (switch_kept (S (S (S (S f)))) c2 c3) as (K & _ & _).
  destruct (K _ E) as (_ & Ka & Kt & _). clear K.
  subst c2. cbn in Hpk, Q1, Q2, Q3, Ka, Kt.
  split; [apply (packed_step hnorm_bucket update_entalpha),
            (packed_dirty hnorm_bucket update_entalpha), Hpk|].
  split; [rewrite (ch_step_buf hnorm_bucket update_entalpha); exact Q1|].
  split; [rewrite ch_step_cnt_local; exact Kt|].
  intros Ha. rewrite ch_step_cont_plain by (cbn; congruence).
  destruct Hpk as (P1 & P2 & _ & P4 & _).
  cbn [cont cnt_local cnt_total status_dirty pack chmap pack_sz
         set_status_dirty].
  rewrite (Q3 Ha), Q2, Kt, P1, P2, P4, <- app_assoc. reflexivity.
Qed.

Lemma ingest_loop_lengths xs h b o :
  length (ingest_loop xs (h, b, o)).1.1 = length h
  /\ length (ingest_loop xs (h, b, o)).1.2 = length b.
Proof.
  revert h b o. induction xs as [|x xs IH]; intros h b o; [split; reflexivity|].
  unfold ingest_loop in *. simpl fold_left.
  destruct (IH (hgram_inc h x) (store b o x) (wrap_sz (o + 1))) as [-> ->].
  rewrite hgram_inc_length, store_length. auto.
Qed.

Lemma memmove_front_length (l : list byte) (src n : Z) :
  length (memmove_front l src n) = length l.
Proof.
  unfold memmove_front. cbv zeta. rewrite length_app, length_drop.
  assert (length (take (Z.to_nat n) (drop (Z.to_nat src) l)) <= length l)%nat.
  { rewrite length_take, length_drop. lia. }
  lia.
Qed.

Lemma ch_inv_window c h b o :
  ch_inv c -> length b = length (buf c) -> length h = 256%nat ->
  ch_inv (set_buf_ofs o (set_buf b (set_hgram h c))).
Proof.
  unfold ch_inv, ch_alloc, ch_cmap_ok, packed. cbn.
  intros ((A1 & A2 & A3) & Hc & Hp & Hb) Hlb Hlh.
  rewrite Hlb, Hlh. auto 10.
Qed.

(** X14.  Absorbing bytes keeps the channel well formed: the window and
    the alpha buffer keep the sizes the fields give, the histogram its 256
    buckets, the curve table goes with the mapping, and the buffer size is
    side * side * footprint.  The same holds of a tick, of registering a
    pattern and of setting the stream position. *)
Theorem ch_data_keeps_inv (c : rwstat_ch_priv) (chunk : list byte) :
  ch_inv c ->
  ch_inv (data c chunk).1.1
  /\ ch_inv (ch_tick hnorm_bucket update_entalpha c)
  /\ (forall a i fl b, ch_inv (ch_pattern c a i fl b))
  /\ (forall ofs, ch_inv (ch_wind c ofs)).
Proof.
  intros Hinv. split; [|split; [apply ch_step_inv, Hinv|split; intros; exact Hinv]].
  unfold data, ch_data. cbv zeta.
  set (in_sz := Z.of_nat (length chunk)).
  set (r := match clock c with
            | RW_CLK_BLOCK => _ | RW_CLK_SLIDE => _ end).
  assert (Hr : ch_inv r.2).
  { subst r. destruct (clock c); [exact Hinv|].
    destruct (in_sz <? buf_sz c); [|exact Hinv]. cbn [snd].
    pose proof (ch_inv_window c (hgram c)
                  (memmove_front (buf c) in_sz (wrap_sz (buf_sz c - in_sz)))
                  (wrap_sz (buf_sz c - in_sz)) Hinv) as H.
    destruct Hinv as ((_ & _ & Hh) & _).
    specialize (H (memmove_front_length _ _ _) Hh).
    exact H. }
  destruct r as [ntw c1]. cbn [snd] in Hr.
  pose proof (ingest_loop_lengths (take (Z.to_nat ntw) chunk)
                (hgram c1) (buf c1) (buf_ofs c1)) as [L1 L2].
  destruct (ingest_loop _ _) as [[h b] o]. cbn [fst snd] in L1, L2.
  assert (Hh : length h = 256%nat)
    by (rewrite L1; destruct Hr as ((_ & _ & Hh) & _); exact Hh).
  destruct (o =? _); cbn [fst].
  - apply ch_step_inv. apply (ch_inv_window _ h b 0 Hr L2 Hh).
  - apply (ch_inv_window _ h b o Hr L2 Hh).
Qed.

(** X15.  A packing switch completes and keeps the fill offset.  If the
    window already has the size of the new footprint, the switch touches
    neither the window, the alpha buffer, the histogram nor the event
    queue; otherwise it leaves a zeroed window of the new size and steps
    one frame, which queues a frame status and the stream info of the new
    modes. *)
Theorem ch_pack_switch_window (fuel : nat) (c : rwstat_ch_priv)
  (p : rwstat_pack) :
  (4 <= fuel)%nat -> 0 <= base c <= 2 ^ 30 ->
  exists c', pack_f fuel c p = Some c'
    /\ buf_ofs c' = buf_ofs c
    /\ if decide (buf_sz c = base c * base c * sample_footprint p (chmap c))
       then buf c' = buf c /\ alpha c' = alpha c /\ hgram c' = hgram c
            /\ cont c' = cont c /\ cnt_local c' = cnt_local c
       else buf c' = replicate
                       (Z.to_nat (base c * base c
                                  * sample_footprint p (chmap c))) x00
            /\ cnt_local c' = cnt_total c
            /\ (amode c <> RW_ALPHA_PTN ->
                cont c' = cont c ++ [FRAMESTATUS (cnt_local c) (cnt_total c);
                                     stream_info p (chmap c)]).
Proof.
  intros Hf Hb. destruct fuel as [|[|[|[|f]]]]; try lia.
  destruct (decide _) as [Hsz|Hsz].
  - rewrite (ch_pack_sized_eq _ c p Hb Hsz). eexists. split; [reflexivity|].
    cbn [buf_ofs buf alpha hgram cont cnt_local set_status_dirty].
    rewrite (ch_pack_footprint_keeps buf_ofs), (ch_pack_footprint_keeps buf),
      (ch_pack_footprint_keeps alpha), (ch_pack_footprint_keeps hgram),
      (ch_pack_footprint_keeps cont), (ch_pack_footprint_keeps cnt_local)
      by reflexivity.
    auto 10.
  - destruct (ch_pack_resized_facts f c p Hb Hsz) as (c' & E & _ & Q).
    exists c'. split; [exact E|].
    destruct (switch_kept (S (S (S (S f)))) c c') as (K & _ & _).
    destruct (K _ E) as (_ & _ & _ & Ko). auto.
Qed.

(** X16.  A mapping switch completes, keeps the fill offset and always
    steps a frame.  If the window already has the size of the new
    footprint its bytes stay and one frame status and stream info are
    queued; otherwise the window is zeroed at the new size and two frames
    are stepped, one by the resize inside the packing switch and one by the
    mapping switch, each queueing a frame status and the stream info. *)
Theorem ch_map_switch_window (fuel : nat) (c : rwstat_ch_priv)
  (m : rwstat_mapping) :
  (5 <= fuel)%nat -> 0 <= base c <= 2 ^ 30 ->
  exists c', map_f fuel c m = Some c'
    /\ buf_ofs c' = buf_ofs c
    /\ cnt_local c' = cnt_total c
    /\ if decide (buf_sz c = base c * base c * sample_footprint (pack c) m)
       then buf c' = buf c
            /\ (amode c <> RW_ALPHA_PTN ->
                cont c' = cont c ++ [FRAMESTATUS (cnt_local c) (cnt_total c);
                                     stream_info (pack c) m])
       else buf c' = replicate
                       (Z.to_nat (base c * base c
                                  * sample_footprint (pack c) m)) x00
            /\ (amode c <> RW_ALPHA_PTN ->
                cont c' = cont c ++ [FRAMESTATUS (cnt_local c) (cnt_total c);
                                     stream_info (pack c) m;
                                     FRAMESTATUS (cnt_total c) (cnt_total c);
                                     stream_info (pack c) m]).
Proof.
  intros Hf Hb. destruct fuel as [|[|[|[|[|f]]]]]; try lia.
  assert (K : forall c', map_f (S (S (S (S (S f))))) c m = Some c' ->
                         buf_ofs c' = buf_ofs c).
  { intros c' E. destruct (switch_kept (S (S (S (S (S f))))) c c') as (_ & _ & K).
    destruct (K _ E) as (_ & _ & _ & Ko). exact Ko. }
  destruct (decide _) as [Hsz|Hsz].
  - destruct (ch_map_sized_facts (S (S (S f))) c m Hb Hsz)
      as (c' & E & Q1 & Q2 & Q3).
    exists c'. auto 10.
  - destruct (ch_map_resized_facts f c m Hb Hsz) as (c' & E & _ & Q1 & Q2 & Q3).
    exists c'. auto 10.
Qed.

(** X17.  [rwstat_addch] on a segment of width [w] returns a well-formed
    channel with the clock, packing and mapping asked for, side [w],
    entropy alpha mode, a zeroed window of side * side * footprint bytes,
    fill offset and stream position 0 and the changed flag set.  On the
    way it has stepped two frames (one if [w] is 0): the window is first
    sized with footprint 0, so the packing switch inside the first mapping
    switch resizes again. *)
Theorem rwstat_addch_channel (fuel : nat) (k : rwstat_clock)
  (m : rwstat_mapping) (p : rwstat_pack) (w : Z) :
  (6 <= fuel)%nat -> 0 <= w <= 2 ^ 30 ->
  exists c,
    rwstat_addch hnorm_bucket update_entalpha fuel k m p w = Some c
    /\ ch_inv c
    /\ clock c = k /\ pack c = p /\ chmap c = m /\ base c = w
    /\ amode c = RW_ALPHA_ENTBASE /\ status_dirty c = true
    /\ buf c = replicate (Z.to_nat (w * w * sample_footprint p m)) x00
    /\ buf_ofs c = 0 /\ cnt_total c = 0
    /\ cont c = if w =? 0
                then [FRAMESTATUS 0 0; stream_info p m]
                else [FRAMESTATUS 0 0; stream_info p m;
                      FRAMESTATUS 0 0; stream_info p m].
Proof.
  intros Hf Hw. destruct fuel as [|[|[|[|[|[|f]]]]]]; try lia.
  unfold rwstat_addch. rewrite (ch_resize_S hnorm_bucket update_entalpha).
  cbv zeta. cbn [pack_sz zero_ch].
  rewrite Z.mul_0_r. change (wrap_sz 0) with 0.
  rewrite (wrap_sz_small (w * w)) by nia.
  set (c4 := set_base w _).
  assert (Hfields : base c4 = w /\ pack c4 = p /\ chmap c4 = m
                    /\ buf_sz c4 = 0 /\ buf c4 = [] /\ cont c4 = []
                    /\ cnt_local c4 = 0 /\ cnt_total c4 = 0
                    /\ amode c4 = RW_ALPHA_ENTBASE /\ clock c4 = k
                    /\ buf_ofs c4 = 0) by (subst c4; cbn; auto 12).
  destruct Hfields as (F1 & F2 & F3 & F4 & F5 & F6 & F7 & F8 & F9 & F10 & F11).
  assert (Hal : ch_alloc c4).
  { subst c4. unfold ch_alloc.
    cbn [buf buf_sz alpha base hgram set_base set_alpha set_buf set_buf_sz
           zero_ch].
    rewrite !length_replicate, !Z2Nat.id by nia. repeat split. }
  assert (Hb4 : 0 <= base c4 <= 2 ^ 30) by (rewrite F1; exact Hw).
  assert (Hne : amode c4 <> RW_ALPHA_PTN) by (rewrite F9; discriminate).
  pose proof (sample_footprint_range p m) as Hk.
  assert (Hc : exists c',
             map_f (S (S (S (S (S f))))) c4 m = Some c'
             /\ packed p m w c'
             /\ buf c' = replicate (Z.to_nat (w * w * sample_footprint p m)) x00
             /\ cont c' = if w =? 0
                          then [FRAMESTATUS 0 0; stream_info p m]
                          else [FRAMESTATUS 0 0; stream_info p m;
                                FRAMESTATUS 0 0; stream_info p m]).
  { destruct (Z.eqb_spec w 0) as [Hw0|Hw0].
    - assert (Hsz : buf_sz c4 = base c4 * base c4 * sample_footprint (pack c4) m)
        by (rewrite F1, F4, Hw0; reflexivity).
      destruct (ch_map_sized_facts (S (S (S f))) c4 m Hb4 Hsz)
        as (c' & E & Q1 & Q2 & Q3).
      destruct (ch_map_sized hnorm_bucket update_entalpha (S (S (S f))) c4 m
                  Hb4 Hsz) as (c'' & E' & Hpk).
      unfold map_f in E. rewrite E in E'. injection E' as <-.
      exists c'. split; [exact E|]. rewrite F1, F2 in Hpk.
      split; [exact Hpk|]. rewrite Q1, F5, (Q3 Hne), F6, F7, F8, F2, Hw0.
      auto.
    - assert (Hsz : buf_sz c4 <> base c4 * base c4 * sample_footprint (pack c4) m)
        by (rewrite F1, F2, F4; nia).
      destruct (ch_map_resized_facts f c4 m Hb4 Hsz)
        as (c' & E & Hpk & Q1 & Q2 & Q3).
      exists c'. split; [exact E|]. rewrite F1, F2 in Hpk, Q1.
      split; [exact Hpk|]. rewrite Q1, (Q3 Hne), F6, F7, F8, F2. auto. }
  destruct Hc as (c' & E & Hpk & Hbuf & Hcont).
  unfold map_f in E. replace (chmap c4) with m by (symmetry; exact F3).
  rewrite E. cbn [mbind option_bind].
  eexists. split; [reflexivity|].
  destruct (switch_alloc (S (S (S (S (S f))))) c4 c') as (_ & _ & A).
  destruct (A m E Hal) as (A1 & A2 & A3 & A4); [lia|]. clear A.
  destruct (switch_kept (S (S (S (S (S f))))) c4 c') as (_ & _ & K).
  destruct (K m E) as (K1 & K2 & K3 & K4). clear K.
  pose proof Hpk as (P1 & P2 & P3 & _).
  split.
  { unfold ch_inv, ch_cmap_ok. cbn [base pack chmap cmap set_status_dirty].
    split; [exact A1|]. split; [exact A2|].
    rewrite P1, P2, P3.
    split; [apply (packed_dirty hnorm_bucket update_entalpha), Hpk|exact Hw]. }
  cbn. rewrite K1, K2, K3, K4, F8, F9, F10, F11. auto 12.
Qed.

Lemma packed_inv p m b c :
  packed p m b c -> ch_alloc c -> ch_cmap_ok c -> 0 <= b <= 2 ^ 30 -> ch_inv c.
Proof.
  intros Hpk Ha Hc Hb. pose proof Hpk as (P1 & P2 & P3 & _).
  unfold ch_inv. rewrite P1, P2, P3. auto.
Qed.

Lemma switch_inv (fuel : nat) (c : rwstat_ch_priv) :
  (5 <= fuel)%nat -> ch_inv c ->
  (forall p, exists c', pack_f fuel c p = Some c' /\ ch_inv c')
  /\ (forall m, exists c', map_f fuel c m = Some c' /\ ch_inv c').
Proof.
  intros Hf (Ha & Hc & Hpk & Hb).
  destruct fuel as [|[|[|[|[|f]]]]]; try lia. split.
  - intros p.
    destruct (ch_pack_switch hnorm_bucket update_entalpha (S f) c p Hb)
      as (c' & E & Hpk').
    exists c'. split; [exact E|].
    destruct (switch_alloc (S (S (S (S (S f))))) c c') as (A & _ & _).
    destruct (A p E Ha Hc) as (A1 & A2 & _); [lia|].
    apply (packed_inv _ _ _ _ Hpk' A1 A2 Hb).
  - intros m.
    destruct (ch_map_switch hnorm_bucket update_entalpha f c m Hb)
      as (c' & E & Hpk').
    exists c'. split; [exact E|].
    destruct (switch_alloc (S (S (S (S (S f))))) c c') as (_ & _ & A).
    destruct (A m E Ha) as (A1 & A2 & _); [lia|].
    apply (packed_inv _ _ _ _ Hpk' A1 A2 Hb).
Qed.

Lemma ch_alpha_inv c a : ch_inv c -> ch_inv (ch_alpha c a).
Proof.
  unfold ch_inv, ch_alloc, ch_cmap_ok, packed, ch_alpha. cbv zeta.
  intros Hinv. destruct a; cbn; rewrite ?memset_length; exact Hinv.
Qed.

Lemma consume_event_cases (fuel : nat) (c : rwstat_ch_priv) (iv : Z) :
  let ev := rwstat_consume_event hnorm_bucket update_entalpha fuel c
              (GRAPHMODE iv) in
  let ok (r : option rwstat_ch_priv) := c1 ← r; Some (true, c1, []) in
  ev = Some (false, c, [iv])
  \/ (exists k, ev = Some (true, ch_reclock c k, []))
  \/ (exists a, ev = Some (true, ch_alpha c a, []))
  \/ (exists m, ev = ok (map_f fuel c m))
  \/ (exists p, ev = ok (pack_f fuel c p)).
Proof.
  intros ev ok. subst ev ok. unfold rwstat_consume_event.
  destruct iv as [|q|q]; [right; left; eexists; reflexivity| |left; reflexivity].
  do 6 (try (destruct q as [q|q|];
             try (left; reflexivity);
             try (right; left; eexists; reflexivity);
             try (right; right; left; eexists; reflexivity);
             try (right; right; right; left; eexists; reflexivity);
             try (right; right; right; right; eexists; reflexivity))).
Qed.

(** X18.  The dispatcher keeps the channel well formed: whatever the
    event, it returns, and the channel it leaves has buffers of the sizes
    its fields give, the curve table of its mapping and a buffer size of
    side * side * footprint. *)
Theorem consume_event_keeps_inv (fuel : nat) (c : rwstat_ch_priv)
  (ev : arcan_event) :
  (5 <= fuel)%nat -> ch_inv c ->
  exists r c' out,
    rwstat_consume_event hnorm_bucket update_entalpha fuel c ev
    = Some (r, c', out)
    /\ ch_inv c'.
Proof.
  intros Hf Hinv. destruct ev as [iv|]; [|exists false, c, []; auto].
  destruct (switch_inv fuel c Hf Hinv) as [Hp Hm].
  destruct (consume_event_cases fuel c iv)
    as [->|[(k & ->)|[(a & ->)|[(m & ->)|(p & ->)]]]].
  - eauto.
  - exists true, (ch_reclock c k), []. split; [reflexivity|exact Hinv].
  - exists true, (ch_alpha c a), []. split; [reflexivity|].
    apply ch_alpha_inv, Hinv.
  - destruct (Hm m) as (c' & E & Hi). rewrite E.
    exists true, c', []. auto.
  - destruct (Hp p) as (c' & E & Hi). rewrite E.
    exists true, c', []. auto.
Qed.

End Invariant.

(** ** The curve visits neighbouring cells *)

Lemma hilbert_loop_walk (m : nat) :
  forall (j fuel : nat) (t x y : Z),
    (j + m <= 15)%nat -> (m <= fuel)%nat ->
    0 <= t < 2 ^ 31 ->
    0 <= x < 2 ^ Z.of_nat j -> 0 <= y < 2 ^ Z.of_nat j ->
    hilbert_loop fuel (2 ^ Z.of_nat (j + m)) (2 ^ Z.of_nat j) t x y
    = Some (hilbert_walk m (2 ^ Z.of_nat j) t x y).
Proof.
  induction m as [|m IH]; intros j fuel t x y Hjm Hf Ht Hx Hy.
  - rewrite Nat.add_0_r.
    destruct fuel; cbn [hilbert_loop hilbert_walk]; rewrite Z.ltb_irrefl;
      reflexivity.
  - destruct fuel as [|f]; [lia|].
    pose proof (pow2_pos j) as Hp.
    pose proof (pow2_le j 14 ltac:(lia)) as Hj14.
    change (2 ^ Z.of_nat 14) with (2 ^ 14) in Hj14.
    rewrite hilbert_round; try assumption; try lia;
      [|apply pow2_lt_succ].
    cbn [hilbert_walk].
    assert (Hq : 0 <= t mod 4 < 4) by (apply Z.mod_pos_bound; lia).
    pose proof (hilbert_place_range _ (t mod 4) x y Hp Hq Hx Hy) as [Hx1 Hy1].
    destruct (hilbert_place _ _ _ _) as [x1 y1]. simpl in Hx1, Hy1.
    rewrite <- pow2_succ in *.
    replace (j + S m)%nat with (S j + m)%nat by lia.
    apply IH; try lia; try assumption.
    Z.div_mod_to_equations. lia.
Qed.

(** The last round placed by the top digit. *)
Lemma hilbert_walk_top (m : nat) :
  forall s t x y, 0 <= t ->
    hilbert_walk (S m) s t x y
    = let '(a, b) := hilbert_walk m s t x y in
      hilbert_place (2 ^ Z.of_nat m * s) ((t / 4 ^ Z.of_nat m) mod 4) a b.
Proof.
  induction m as [|m IH]; intros s t x y Ht.
  - cbn [hilbert_walk]. change (2 ^ Z.of_nat 0) with 1.
    change (4 ^ Z.of_nat 0) with 1. rewrite Z.div_1_r, Z.mul_1_l.
    destruct (hilbert_place _ _ _ _); reflexivity.
  - change (hilbert_walk (S (S m)) s t x y)
      with (let '(x1, y1) := hilbert_place s (t mod 4) x y in
            hilbert_walk (S m) (2 * s) (t / 4) x1 y1).
    change (hilbert_walk (S m) s t x y)
      with (let '(x1, y1) := hilbert_place s (t mod 4) x y in
            hilbert_walk m (2 * s) (t / 4) x1 y1).
    destruct (hilbert_place s (t mod 4) x y) as [x1 y1].
    rewrite IH by (apply Z.div_pos; lia).
    rewrite pow2_succ, pow4_succ.
    rewrite Z.div_div by (pose proof (pow4_pos m); lia).
    replace (2 ^ Z.of_nat m * (2 * s)) with (2 * 2 ^ Z.of_nat m * s) by ring.
    reflexivity.
Qed.

(** One placement moves a pair of neighbours to a pair of neighbours. *)
Lemma hilbert_place_adjacent (s q a b c d : Z) :
  grid_adjacent (a, b) (c, d) ->
  grid_adjacent (hilbert_place s q a b) (hilbert_place s q c d).
Proof.
  unfold grid_adjacent, hilbert_place. cbn [fst snd]. intros H.
  destruct (q =? 0); [cbn [fst snd]; lia|].
  destruct (q =? 1); [cbn [fst snd]; lia|].
  destruct (q =? 2); cbn [fst snd]; lia.
Qed.

(** The exit of one quadrant is next to the entry of the following one. *)
Lemma hilbert_place_join (s q : Z) :
  0 <= q < 3 ->
  grid_adjacent (hilbert_place s q (s - 1) 0) (hilbert_place s (q + 1) 0 0).
Proof.
  intros Hq. unfold grid_adjacent, hilbert_place.
  repeat (match goal with
          | |- context [?a =? ?b] => destruct (Z.eqb_spec a b)
          end); cbn [fst snd]; lia.
Qed.

Lemma succ_div_mod (P t : Z) :
  0 < P -> 0 <= t ->
  (t mod P + 1 < P /\ (t + 1) / P = t / P /\ (t + 1) mod P = t mod P + 1)
  \/ (t mod P = P - 1 /\ (t + 1) / P = t / P + 1 /\ (t + 1) mod P = 0).
Proof.
  intros HP Ht.
  pose proof (Z.div_mod t P ltac:(lia)) as Hdm.
  pose proof (Z.mod_pos_bound t P HP) as Hr.
  destruct (decide (t mod P + 1 < P)) as [Hlt|Hge].
  - left. split; [exact Hlt|].
    assert (Hq : (t + 1) / P = t / P)
      by (symmetry; apply (Z.div_unique_pos _ _ _ (t mod P + 1)); lia).
    split; [exact Hq|].
    symmetry. apply (Z.mod_unique_pos _ _ (t / P)); lia.
  - right. split; [lia|].
    assert (Hq : (t + 1) / P = t / P + 1)
      by (symmetry; apply (Z.div_unique_pos _ _ _ 0); lia).
    split; [exact Hq|].
    symmetry. apply (Z.mod_unique_pos _ _ (t / P + 1)); lia.
Qed.

Lemma mod_four_times (P t : Z) :
  0 < P -> t mod (4 * P) = t mod P + P * ((t / P) mod 4).
Proof.
  intros HP. rewrite (Z.mul_comm 4 P). apply Z.rem_mul_r; lia.
Qed.

(** The walk of [m] rounds from the origin: it starts at the origin, ends
    at the far end of the bottom row and moves to a neighbour at every
    index. *)
Lemma hilbert_walk_curve (m : nat) :
  forall t, 0 <= t ->
    (t mod 4 ^ Z.of_nat m = 0 -> hilbert_walk m 1 t 0 0 = (0, 0))
    /\ (t mod 4 ^ Z.of_nat m = 4 ^ Z.of_nat m - 1 ->
        hilbert_walk m 1 t 0 0 = (2 ^ Z.of_nat m - 1, 0))
    /\ ((t + 1) mod 4 ^ Z.of_nat m <> 0 ->
        grid_adjacent (hilbert_walk m 1 t 0 0) (hilbert_walk m 1 (t + 1) 0 0)).
Proof.
  induction m as [|m IH]; intros t Ht.
  - change (4 ^ Z.of_nat 0) with 1. change (2 ^ Z.of_nat 0) with 1.
    cbn [hilbert_walk]. rewrite !Z.mod_1_r. repeat split; congruence.
  - pose proof (pow4_pos m) as HP.
    destruct (IH t Ht) as (I1 & I2 & I3).
    destruct (IH (t + 1) ltac:(lia)) as (J1 & _ & _).
    rewrite !hilbert_walk_top by lia. rewrite Z.mul_1_r.
    rewrite pow4_succ, pow2_succ, !mod_four_times by exact HP.
    set (P := 4 ^ Z.of_nat m) in *. set (s := 2 ^ Z.of_nat m) in *.
    pose proof (Z.mod_pos_bound t P HP) as Hr.
    pose proof (Z.mod_pos_bound (t / P) 4 ltac:(lia)) as Hq.
    pose proof (Z.mod_pos_bound ((t + 1) / P) 4 ltac:(lia)) as Hq'.
    split; [|split].
    + intros H0. assert (Hr0 : t mod P = 0) by nia.
      assert (Hq0 : (t / P) mod 4 = 0) by nia.
      rewrite (I1 Hr0), Hq0. reflexivity.
    + intros H3. assert (Hr3 : t mod P = P - 1) by nia.
      assert (Hq3 : (t / P) mod 4 = 3) by nia.
      rewrite (I2 Hr3), Hq3. unfold hilbert_place. cbn [Z.eqb].
      f_equal; lia.
    + intros Hne.
      destruct (succ_div_mod P t HP Ht) as [(Hlt & Ed & Em)|(Hlast & Ed & Em)].
      * rewrite Ed. specialize (I3 ltac:(lia)).
        destruct (hilbert_walk m 1 t 0 0) as [a b].
        destruct (hilbert_walk m 1 (t + 1) 0 0) as [c d].
        apply hilbert_place_adjacent, I3.
      * rewrite (I2 Hlast), (J1 Em).
        rewrite Em, Ed in Hne.
        assert (Hq3 : (t / P) mod 4 <> 3).
        { intros H3. apply Hne.
          rewrite <- Zplus_mod_idemp_l, H3.
          change ((3 + 1) mod 4) with 0. lia. }
        assert (Hq1 : (t / P + 1) mod 4 = (t / P) mod 4 + 1).
        { rewrite <- Zplus_mod_idemp_l. apply Z.mod_small. lia. }
        rewrite Ed, Hq1. apply hilbert_place_join. lia.
Qed.

Lemma cmap_entry_walk (k : nat) (i : Z) :
  (k <= 15)%nat -> 0 <= i < 4 ^ Z.of_nat k ->
  cmap_entry (2 ^ Z.of_nat k) i = Some (hilbert_walk k 1 i 0 0).
Proof.
  intros Hk Hi.
  destruct (cmap_entry_d2xy k i Hk Hi) as (x & y & Ec & Ed & _).
  rewrite Ec, <- Ed. unfold hilbert_d2xy.
  pose proof (pow4_le_15 k Hk) as H4.
  apply (hilbert_loop_walk k 0 hilbert_fuel i 0 0);
    try (unfold hilbert_fuel; lia); change (2 ^ Z.of_nat 0) with 1; lia.
Qed.

(** X19.  The table that [ch_map] builds for the curve mapping of a side
    2^k, k up to 15, walks the grid: it starts at the origin, ends at the
    far end of the row y = 0, and each entry is a cell that shares an edge
    with the cell of the entry before it. *)
Theorem hilbert_table_neighbours (k : nat) (tbl : list (Z * Z)) :
  (k <= 15)%nat ->
  build_cmap (2 ^ Z.of_nat k) = Some tbl ->
  tbl !! 0%nat = Some (0, 0)
  /\ last tbl = Some (2 ^ Z.of_nat k - 1, 0)
  /\ forall (i : nat) p q,
       tbl !! i = Some p -> tbl !! S i = Some q -> grid_adjacent p q.
Proof.
  intros Hk E. destruct (build_cmap_lookup _ _ E) as [Hlen Hl].
  pose proof (pow4_le_15 k Hk) as H4. pose proof (pow4_pos k) as HP.
  rewrite pow2_sqr, wrap_sz_small in Hlen, Hl by lia.
  assert (Hentry : forall i : nat,
             Z.of_nat i < 4 ^ Z.of_nat k ->
             tbl !! i = Some (hilbert_walk k 1 (Z.of_nat i) 0 0)).
  { intros i Hi. apply Hl. split; [exact Hi|].
    apply cmap_entry_walk; [exact Hk|lia]. }
  split; [|split].
  - rewrite (Hentry 0%nat) by (cbn; lia). f_equal.
    apply (hilbert_walk_curve k 0); [lia|]. apply Z.mod_0_l. lia.
  - rewrite last_lookup, Hlen.
    rewrite Hentry by lia. f_equal.
    apply (hilbert_walk_curve k); [lia|].
    rewrite Z.mod_small by lia. lia.
  - intros i p q Hp Hq.
    assert (Hi : Z.of_nat (S i) < 4 ^ Z.of_nat k)
      by (apply Hl in Hq; lia).
    rewrite Hentry in Hp, Hq by lia.
    injection Hp as <-. injection Hq as <-.
    rewrite Nat2Z.inj_succ. unfold Z.succ.
    apply (hilbert_walk_curve k); [lia|].
    rewrite Z.mod_small by lia. lia.
Qed.

Lemma hilbert_table_neighbours_witness :
  build_cmap (2 ^ Z.of_nat 1) = Some [(0, 0); (0, 1); (1, 1); (1, 0)]
  /\ last [(0, 0); (0, 1); (1, 1); (1, 0)] = Some (2 ^ Z.of_nat 1 - 1, 0)
  /\ grid_adjacent (0, 1) (1, 1).
Proof.
  assert (E : build_cmap (2 ^ Z.of_nat 1)
              = Some [(0, 0); (0, 1); (1, 1); (1, 0)]) by (vm_compute; reflexivity).
  split; [exact E|].
  destruct (hilbert_table_neighbours 1 _ ltac:(lia) E) as (_ & Hlast & Hadj).
  split; [exact Hlast|]. apply (Hadj 1%nat); reflexivity.
Defined.

(** ** The fill offset across a switch *)

Section SwitchLeft.
Variable hnorm_bucket : Z -> Z -> Z.
Variable update_entalpha : rwstat_ch_priv -> Z -> list byte.
Let pack_f := ch_pack hnorm_bucket update_entalpha.

(** X21.  A packing switch does not reset the fill offset.  When the new
    window is shorter than the offset already reached, the offset lies
    beyond the window and [ch_left], the unsigned difference of the two,
    wraps: it reports more room than the whole window has. *)
Theorem ch_pack_shrink_left (fuel : nat) (c : rwstat_ch_priv)
  (p : rwstat_pack) :
  (4 <= fuel)%nat -> 0 <= base c <= 2 ^ 30 ->
  base c * base c * sample_footprint p (chmap c) < buf_ofs c < 2 ^ 64 ->
  exists c', pack_f fuel c p = Some c'
    /\ buf_sz c' = base c * base c * sample_footprint p (chmap c)
    /\ buf_ofs c' = buf_ofs c
    /\ ch_left c' = 2 ^ 64 - (buf_ofs c - buf_sz c')
    /\ buf_sz c' < ch_left c'.
Proof.
  intros Hf Hb Ho. destruct fuel as [|[|[|[|f]]]]; try lia.
  destruct (ch_pack_switch hnorm_bucket update_entalpha f c p Hb)
    as (c' & E & Hpk).
  exists c'. split; [exact E|].
  destruct (switch_kept hnorm_bucket update_entalpha (S (S (S (S f)))) c c')
    as (K & _ & _).
  destruct (K _ E) as (_ & _ & _ & Ko).
  destruct Hpk as (_ & _ & _ & _ & Hsz).
  pose proof (sample_footprint_range p (chmap c)) as Hk.
  assert (Hl : ch_left c' = 2 ^ 64 - (buf_ofs c - buf_sz c')).
  { unfold ch_left, wrap_sz. rewrite Ko, Hsz.
    symmetry. apply (Z.mod_unique_pos _ _ (-1)); nia. }
  rewrite Hl, Ko, Hsz. repeat split; try reflexivity. nia.
Qed.

End SwitchLeft.

Lemma ch_pack_shrink_left_witness :
  exists c',
    ch_pack hnorm_bucket_q update_entalpha_id 4
      (mk_chp RW_CLK_BLOCK PACK_TIGHT MAP_WRAP RW_ALPHA_FULL false 4 None
         [] 0 0 10 (replicate 256 0) 2 (replicate 16 x00) 16
         (replicate 4 xff) [])
      PACK_INTENS = Some c'
    /\ buf_sz c' = 4 /\ buf_ofs c' = 10
    /\ ch_left c' = 2 ^ 64 - (10 - buf_sz c').
Proof.
  destruct (ch_pack_shrink_left hnorm_bucket_q update_entalpha_id 4
              (mk_chp RW_CLK_BLOCK PACK_TIGHT MAP_WRAP RW_ALPHA_FULL false 4
                 None [] 0 0 10 (replicate 256 0) 2 (replicate 16 x00) 16
                 (replicate 4 xff) [])
              PACK_INTENS) as (c' & E & H1 & H2 & H3 & _).
  - lia.
  - simpl. lia.
  - vm_compute. split; reflexivity.
  - exists c'. split; [exact E|]. split; [exact H1|].
    split; [exact H2|exact H3].
Defined.

(** ** Patterns from the arguments *)

Lemma set_patterns_same (c : rwstat_ch_priv) :
  set_patterns (patterns c ++ []) c = c.
Proof. rewrite app_nil_r. destruct c; reflexivity. Qed.

Section AddPatternsProps.
Variable strtoul16 : list byte -> Z * bool.
Variable arg_val : Z -> option (list byte).
Variable arg_opt : Z -> bool.
Let loop := addpatterns_loop strtoul16 arg_val arg_opt.

Lemma addpatterns_loop_spec (n : Z) :
  n < 2 ^ 31 -> arg_val n = None ->
  forall fuel c i,
    0 <= i <= n -> (Z.to_nat (n - i) < fuel)%nat ->
    exists news,
      loop fuel c i = Some (set_patterns (patterns c ++ news) c)
      /\ Z.of_nat (length news) <= n - i
      /\ forall (j : nat) p, news !! j = Some p ->
           Pattern.flags p = 0
           /\ Pattern.id p = i + Z.of_nat j
           /\ Pattern.alpha p = u8 (i + Z.of_nat j)
           /\ Pattern.buf_pos p = 0 /\ Pattern.evc p = 0
           /\ Pattern.buf p <> []
           /\ arg_opt (i + Z.of_nat j) = true
           /\ exists val, arg_val (i + Z.of_nat j) = Some val
                /\ Pattern.buf p
                   = map (fun tv => u8 (strtoul16 tv).1) (tokens val).
Proof.
  intros Hn Hnone.
  assert (Hstop : forall c i, 0 <= i <= n ->
            exists news : list Pattern.t,
              Some c = Some (set_patterns (patterns c ++ news) c)
              /\ Z.of_nat (length news) <= n - i
              /\ forall (j : nat) p, news !! j = Some p ->
                   Pattern.flags p = 0
                   /\ Pattern.id p = i + Z.of_nat j
                   /\ Pattern.alpha p = u8 (i + Z.of_nat j)
                   /\ Pattern.buf_pos p = 0 /\ Pattern.evc p = 0
                   /\ Pattern.buf p <> []
                   /\ arg_opt (i + Z.of_nat j) = true
                   /\ exists val, arg_val (i + Z.of_nat j) = Some val
                        /\ Pattern.buf p
                           = map (fun tv => u8 (strtoul16 tv).1) (tokens val)).
  { intros c i Hi. exists []. rewrite set_patterns_same.
    split; [reflexivity|]. split; [simpl; lia|]. intros j p Hj.
    rewrite lookup_nil in Hj. discriminate. }
  induction fuel as [|fuel IH]; intros c i Hi Hf; [lia|].
  unfold loop. cbn [addpatterns_loop].
  destruct (arg_val i) as [val|] eqn:Ev; [|apply Hstop, Hi].
  destruct (tokens val) as [|tk toks] eqn:Et; [apply Hstop, Hi|].
  destruct (existsb _ _); [apply Hstop, Hi|].
  destruct (arg_opt i) eqn:Eo; [|apply Hstop, Hi].
  assert (Hin : i < n) by (destruct (decide (i = n)); [congruence|lia]).
  rewrite (wrap_int_small (i + 1)) by lia.
  unfold wrap32. rewrite (Z.mod_small i) by lia.
  set (bptn := map (fun tv => u8 (strtoul16 tv).1) (tk :: toks)).
  set (p0 := Pattern.mk bptn 0 0 (u8 i) i 0).
  destruct (IH (ch_pattern c (u8 i) i 0 bptn) (i + 1) ltac:(lia) ltac:(lia))
    as (news & E & Hlen & Hreg).
  fold loop. rewrite E. exists (p0 :: news).
  split; [|split].
  - unfold ch_pattern. cbn [patterns set_patterns]. fold p0.
    rewrite <- app_assoc. reflexivity.
  - rewrite length_cons. lia.
  - intros [|j] p Hj.
    + injection Hj as <-. rewrite Z.add_0_r. cbn.
      repeat split; try assumption; [discriminate|].
      exists val. rewrite Ev, Et. auto.
    + cbn in Hj. specialize (Hreg j p Hj).
      replace (i + Z.of_nat (S j)) with (i + 1 + Z.of_nat j) by lia.
      exact Hreg.
Qed.

(** X22.  [rwstat_addpatterns] over an argument array that has no "val"
    number [n] returns, and leaves everything but the pattern list as it
    was.  It appends at most [n] patterns; the one taken from pair [j] has
    identifier [j], opacity [j] as a byte, no flag set, a byte string with
    one byte per comma-separated token of the value, at least one, and
    pair [j] has an "opt".  Without an argument array nothing changes. *)
Theorem addpatterns_registered (n : Z) (fuel : nat) (c : rwstat_ch_priv) :
  0 <= n < 2 ^ 31 -> arg_val n = None -> (Z.to_nat n < fuel)%nat ->
  rwstat_addpatterns strtoul16 arg_val arg_opt fuel c false = Some c
  /\ exists news,
      rwstat_addpatterns strtoul16 arg_val arg_opt fuel c true
      = Some (set_patterns (patterns c ++ news) c)
      /\ Z.of_nat (length news) <= n
      /\ forall (j : nat) p, news !! j = Some p ->
           Pattern.flags p = 0
           /\ Pattern.id p = Z.of_nat j
           /\ Pattern.alpha p = u8 (Z.of_nat j)
           /\ Pattern.buf_pos p = 0 /\ Pattern.evc p = 0
           /\ Pattern.buf p <> []
           /\ arg_opt (Z.of_nat j) = true
           /\ exists val, arg_val (Z.of_nat j) = Some val
                /\ Pattern.buf p
                   = map (fun tv => u8 (strtoul16 tv).1) (tokens val).
Proof.
  intros Hn Hnone Hf. split; [reflexivity|].
  destruct (addpatterns_loop_spec n ltac:(lia) Hnone fuel c 0)
    as (news & E & Hlen & Hreg); [lia|rewrite Z.sub_0_r; exact Hf|].
  exists news. split; [exact E|]. split; [lia|]. exact Hreg.
Qed.

Lemma ptn_notifications_unflagged (ps : list Pattern.t) (w : list byte) :
  Forall (fun p => Z.land (Pattern.flags p) FLAG_EVENT = 0) ps ->
  ptn_notifications ps w = [].
Proof.
  intros H. unfold ptn_notifications.
  induction H as [|p ps Hp _ IH]; [reflexivity|].
  cbn [flat_map]. rewrite IH, Hp. reflexivity.
Qed.

(** X23.  Patterns that come from the arguments never notify: on a
    channel whose patterns were all registered by [rwstat_addpatterns],
    the pattern pass queues no event, whatever the window holds. *)
Theorem addpatterns_silent (n : Z) (fuel : nat) (c : rwstat_ch_priv) :
  0 <= n < 2 ^ 31 -> arg_val n = None -> (Z.to_nat n < fuel)%nat ->
  patterns c = [] ->
  Z.of_nat (length (window c)) < 2 ^ 31 ->
  exists c',
    rwstat_addpatterns strtoul16 arg_val arg_opt fuel c true = Some c'
    /\ window c' = window c
    /\ cont (update_ptnalpha c') = cont c'.
Proof.
  intros Hn Hnone Hf Hps Hw.
  destruct (addpatterns_loop_spec n ltac:(lia) Hnone fuel c 0)
    as (news & E & Hlen & Hreg); [lia|rewrite Z.sub_0_r; exact Hf|].
  eexists. split; [exact E|]. split; [reflexivity|].
  rewrite update_ptnalpha_notifications by exact Hw.
  rewrite ptn_notifications_unflagged; [apply app_nil_r|].
  cbn [patterns set_patterns]. rewrite Hps. cbn [app].
  apply Forall_lookup. intros j p Hj.
  destruct (Hreg j p Hj) as (-> & _). reflexivity.
Qed.

End AddPatternsProps.

Lemma addpatterns_registered_witness :
  exists news,
    rwstat_addpatterns strtoul16_hex arg_val_example arg_opt_example 2
      block_example true
    = Some (set_patterns (patterns block_example ++ news) block_example)
    /\ Z.of_nat (length news) <= 1
    /\ forall (j : nat) p, news !! j = Some p ->
         Pattern.flags p = 0 /\ Pattern.id p = Z.of_nat j.
Proof.
  destruct (addpatterns_registered strtoul16_hex arg_val_example
              arg_opt_example 1 2 block_example)
    as (_ & news & E & Hlen & Hreg); [lia|reflexivity|simpl; lia|].
  exists news. split; [exact E|]. split; [exact Hlen|].
  intros j p Hj. destruct (Hreg j p Hj) as (H1 & H2 & _). auto.
Defined.

Lemma addpatterns_silent_witness :
  exists c',
    rwstat_addpatterns strtoul16_hex arg_val_example arg_opt_example 2
      block_example true = Some c'
    /\ window c' = window block_example
    /\ cont (update_ptnalpha c') = cont c'.
Proof.
  apply (addpatterns_silent strtoul16_hex arg_val_example arg_opt_example 1);
    [lia|reflexivity|simpl; lia|reflexivity|vm_compute; reflexivity].
Defined.

(** ** The properties above on the small channels *)

Ltac run_hyp :=
  vm_compute; repeat split; first [reflexivity | discriminate].

Lemma ch_data_consumed_le_witness :
  0 <= (ch_data hnorm_bucket_q update_entalpha_id block_example
          [x01; x02; x03; x04; x05]).1.2 <= 5.
Proof.
  apply (ch_data_consumed_le hnorm_bucket_q update_entalpha_id block_example
           [x01; x02; x03; x04; x05]).
  run_hyp.
Defined.

Lemma slide_ingest_large_chunk_witness :
  exists c',
    ch_data hnorm_bucket_q update_entalpha_id slide_example
      [x01; x02; x03; x04; x05]
    = (c', buf_sz slide_example, true)
    /\ buf c' = take (Z.to_nat (buf_sz slide_example)) [x01; x02; x03; x04; x05]
    /\ (exists evs,
          cont c'
          = cont slide_example
            ++ FRAMESTATUS (cnt_local slide_example) (cnt_total slide_example)
               :: evs)
    /\ cnt_local c' = cnt_total slide_example.
Proof.
  destruct (slide_ingest_large_chunk hnorm_bucket_q update_entalpha_id
              slide_example [x01; x02; x03; x04; x05])
    as (c' & st & E & Hst & Hw & _ & Hbuilt & _); [run_hyp..|].
  assert (H0 : buf_ofs slide_example = 0) by (vm_compute; reflexivity).
  assert (Et : st = true) by (apply Hst, H0). subst st.
  destruct (Hw H0) as [Hb _]. destruct (Hbuilt H0) as (_ & He & Hl & _).
  exists c'. auto.
Defined.

Lemma block_ingest_window_witness :
  exists c' st,
    ch_data hnorm_bucket_q update_entalpha_id block_example [x01; x02]
    = (c', Z.min (Z.of_nat 2) (buf_sz block_example - buf_ofs block_example),
       st)
    /\ ch_left c'
       = if st then buf_sz block_example
         else buf_sz block_example - buf_ofs block_example
              - Z.min (Z.of_nat 2)
                  (buf_sz block_example - buf_ofs block_example).
Proof.
  destruct (block_ingest_window hnorm_bucket_q update_entalpha_id
              block_example [x01; x02])
    as (c' & st & E & _ & Hl); [run_hyp..|].
  exists c', st. split; [exact E|exact Hl].
Defined.

Lemma block_ingest_split_witness :
  exists c1,
    ch_data hnorm_bucket_q update_entalpha_id block_example [x01]
    = (c1, Z.of_nat 1, false)
    /\ ch_data hnorm_bucket_q update_entalpha_id block_example
         ([x01] ++ [x02; x03])
       = ((ch_data hnorm_bucket_q update_entalpha_id c1 [x02; x03]).1.1,
          Z.of_nat 1
          + (ch_data hnorm_bucket_q update_entalpha_id c1 [x02; x03]).1.2,
          (ch_data hnorm_bucket_q update_entalpha_id c1 [x02; x03]).2).
Proof.
  apply (block_ingest_split hnorm_bucket_q update_entalpha_id block_example
           [x01] [x02; x03]); run_hyp.
Defined.

Lemma block_histogram_counts_witness :
  hgram_sum (hgram (ch_data hnorm_bucket_q update_entalpha_id block_example
                      [x01; x02]).1.1)
  = hgram_sum (hgram block_example)
    + (ch_data hnorm_bucket_q update_entalpha_id block_example [x01; x02]).1.2.
Proof.
  apply (block_histogram_counts hnorm_bucket_q update_entalpha_id
           block_example [x01; x02]);
    [run_hyp | run_hyp | run_hyp | run_hyp | run_hyp | | run_hyp].
  apply Forall_forall. intros x Hx. vm_compute in Hx.
  repeat (apply elem_of_cons in Hx as [->|Hx]; [lia|]).
  apply elem_of_nil in Hx. contradiction.
Defined.

Lemma ptn_pass_notifications_witness :
  cont (update_ptnalpha ptn_example)
  = cont ptn_example
    ++ ptn_notifications (patterns ptn_example) (window ptn_example).
Proof. apply (ptn_pass_notifications ptn_example). run_hyp. Defined.

Lemma ptn_pass_keeps_patterns_witness :
  exists q,
    patterns (update_ptnalpha ptn_example) !! 0%nat = Some q
    /\ Pattern.buf q = [xde; xad] /\ Pattern.evc q = 0
    /\ 0 <= Pattern.buf_pos q < 2.
Proof.
  destruct (ptn_pass_keeps_patterns ptn_example) as [_ H].
  destruct (H 0%nat (Pattern.mk [xde; xad] 0 0 x80 7 FLAG_EVENT))
    as (q & E & Hb & _ & _ & _ & He & Hp); [vm_compute; reflexivity|].
  exists q. split; [exact E|]. split; [exact Hb|]. split; [exact He|].
  apply Hp; [discriminate|run_hyp].
Defined.

Lemma ptn_paints_within_witness :
  1 <= paint_len (mk_paint 0 3 x80 2) /\ -1 <= paint_start (mk_paint 0 3 x80 2)
  /\ paint_start (mk_paint 0 3 x80 2) + paint_len (mk_paint 0 3 x80 2)
     < Z.of_nat (length (window ptn_example)).
Proof.
  refine (proj1 (ptn_paints_within ptn_example _) (mk_paint 0 3 x80 2) _).
  - repeat constructor.
  - apply (list_elem_of_lookup_2 _ 1%nat). vm_compute. reflexivity.
Defined.

Lemma ch_step_notifications_witness :
  cont (ch_step hnorm_bucket_q update_entalpha_id ptn_example)
  = cont ptn_example
    ++ [FRAMESTATUS (cnt_local ptn_example) (cnt_total ptn_example)]
    ++ (if status_dirty ptn_example
        then [STREAMINFO (48 + Z.of_nat (pack_index (pack ptn_example)))
                (48 + Z.of_nat (map_index (chmap ptn_example)))
                (48 + pack_sz ptn_example)]
        else [])
    ++ match amode ptn_example with
       | RW_ALPHA_PTN =>
           ptn_notifications (patterns ptn_example) (window ptn_example)
       | _ => []
       end.
Proof.
  apply (ch_step_notifications hnorm_bucket_q update_entalpha_id ptn_example).
  run_hyp.
Defined.

Lemma ch_data_keeps_inv_witness :
  ch_inv (ch_data hnorm_bucket_q update_entalpha_id block_example
            [x01; x02; x03; x04; x05]).1.1.
Proof.
  refine (proj1 (ch_data_keeps_inv hnorm_bucket_q update_entalpha_id
                   (fun c bsz => eq_refl) block_example
                   [x01; x02; x03; x04; x05] _)).
  unfold ch_inv, ch_alloc, ch_cmap_ok, packed. vm_compute.
  repeat split; first [reflexivity | discriminate].
Defined.

Lemma ch_pack_switch_window_witness :
  exists c',
    ch_pack hnorm_bucket_q update_entalpha_id 4 block_example PACK_TIGHT
    = Some c'
    /\ buf_ofs c' = buf_ofs block_example.
Proof.
  destruct (ch_pack_switch_window hnorm_bucket_q update_entalpha_id 4
              block_example PACK_TIGHT) as (c' & E & Ho & _);
    [lia|run_hyp|].
  exists c'. split; [exact E|exact Ho].
Defined.

Lemma ch_map_switch_window_witness :
  exists c',
    ch_map hnorm_bucket_q update_entalpha_id 5 block_example MAP_TUPLE
    = Some c'
    /\ buf_ofs c' = buf_ofs block_example
    /\ cnt_local c' = cnt_total block_example.
Proof.
  destruct (ch_map_switch_window hnorm_bucket_q update_entalpha_id 5
              block_example MAP_TUPLE) as (c' & E & Ho & Hl & _);
    [lia|run_hyp|].
  exists c'. split; [exact E|]. split; [exact Ho|exact Hl].
Defined.

Lemma rwstat_addch_channel_witness :
  exists c,
    rwstat_addch hnorm_bucket_q update_entalpha_id 6
      RW_CLK_BLOCK MAP_HILBERT PACK_TIGHT 4 = Some c
    /\ ch_inv c
    /\ buf c = replicate (Z.to_nat (4 * 4 * sample_footprint PACK_TIGHT MAP_HILBERT))
                 x00.
Proof.
  destruct (rwstat_addch_channel hnorm_bucket_q update_entalpha_id
              (fun c bsz => eq_refl) 6 RW_CLK_BLOCK MAP_HILBERT PACK_TIGHT 4)
    as (c & E & Hi & _ & _ & _ & _ & _ & _ & Hb & _); [lia|lia|].
  exists c. split; [exact E|]. split; [exact Hi|exact Hb].
Defined.

Lemma consume_event_keeps_inv_witness :
  exists r c' out,
    rwstat_consume_event hnorm_bucket_q update_entalpha_id 5 block_example
      (GRAPHMODE 12)
    = Some (r, c', out)
    /\ ch_inv c'.
Proof.
  apply (consume_event_keeps_inv hnorm_bucket_q update_entalpha_id
           (fun c bsz => eq_refl) 5 block_example (GRAPHMODE 12));
    [lia|].
  unfold ch_inv, ch_alloc, ch_cmap_ok, packed. vm_compute.
  repeat split; first [reflexivity | discriminate].
Defined.

(** ** Resizing *)

Section Resize.
Variable hnorm_bucket : Z -> Z -> Z.
Variable update_entalpha : rwstat_ch_priv -> Z -> list byte.
Hypothesis update_entalpha_length :
  forall c bsz, length (update_entalpha c bsz) = length (alpha c).
Let resize_f := ch_resize hnorm_bucket update_entalpha.

(** X24.  [ch_resize] to side [b] on a channel whose footprint goes with
    its modes completes and leaves a well-formed channel of that side with
    the modes unchanged and a zeroed window of b * b * footprint bytes.  It
    steps one frame, which queues a frame status and the stream info, and
    it keeps the clock, the alpha mode, the stream position and the fill
    offset. *)
Theorem ch_resize_channel (fuel : nat) (c : rwstat_ch_priv) (b : Z) :
  (3 <= fuel)%nat -> 0 <= b <= 2 ^ 30 ->
  pack_sz c = sample_footprint (pack c) (chmap c) ->
  length (hgram c) = 256%nat ->
  exists c',
    resize_f fuel c b = Some c'
    /\ ch_inv c'
    /\ base c' = b /\ pack c' = pack c /\ chmap c' = chmap c
    /\ buf c'
       = replicate (Z.to_nat (b * b * sample_footprint (pack c) (chmap c))) x00
    /\ ch_kept c c'
    /\ cnt_local c' = cnt_total c
    /\ (amode c <> RW_ALPHA_PTN ->
        cont c' = cont c ++ [FRAMESTATUS (cnt_local c) (cnt_total c);
                             stream_info (pack c) (chmap c)]).
Proof.
  intros Hf Hb Hps Hh. destruct fuel as [|[|[|f]]]; try lia.
  destruct (ch_resize_facts hnorm_bucket update_entalpha f c b Hb Hps)
    as (c' & E & Hpk & Q1 & Q2 & Q3).
  exists c'. split; [exact E|].
  destruct (switch_alloc hnorm_bucket update_entalpha update_entalpha_length
              (S (S (S f))) c c') as (_ & A & _).
  destruct (A b E Hh) as (A1 & A2 & _); [lia|]. clear A.
  destruct (switch_kept hnorm_bucket update_entalpha (S (S (S f))) c c')
    as (_ & K & _).
  pose proof Hpk as (P1 & P2 & P3 & _).
  split; [apply (packed_inv _ _ _ _ Hpk A1 A2 Hb)|].
  pose proof (K b E) as Hk.
  repeat (split; [assumption|]). exact Q3.
Qed.

End Resize.

Lemma ch_resize_channel_witness :
  exists c',
    ch_resize hnorm_bucket_q update_entalpha_id 3 block_example 3 = Some c'
    /\ ch_inv c' /\ base c' = 3
    /\ buf c'
       = replicate
           (Z.to_nat (3 * 3 * sample_footprint (pack block_example)
                                (chmap block_example))) x00.
Proof.
  destruct (ch_resize_channel hnorm_bucket_q update_entalpha_id
              (fun c bsz => eq_refl) 3 block_example 3)
    as (c' & E & Hi & Hb & _ & _ & Hbuf & _); [lia|lia|run_hyp..|].
  exists c'. split; [exact E|]. split; [exact Hi|]. split; [exact Hb|exact Hbuf].
Defined.

(** ** Where a frame draws its samples *)

(** X25.  On a well-formed channel in the raster mapping, or in the curve
    mapping with a side 2^k, k up to 15, the frame step draws every sample
    of the window inside the side * side frame, and no two samples at the
    same place. *)
Theorem pack_bytes_in_frame (tuple_coord : Z -> byte -> Z)
  (c : rwstat_ch_priv) :
  ch_inv c -> 0 < base c -> chmap c <> MAP_TUPLE ->
  (chmap c = MAP_HILBERT ->
   exists k : nat, (k <= 15)%nat /\ base c = 2 ^ Z.of_nat k) ->
  let at_ofs i :=
    pack_coords tuple_coord c (drop (Z.to_nat i) (buf c)) (i / pack_sz c) in
  (forall i, 0 <= i < buf_sz c -> i mod pack_sz c = 0 ->
     exists x y, at_ofs i = Some (x, y)
                 /\ 0 <= x < base c /\ 0 <= y < base c)
  /\ (forall i i', 0 <= i < buf_sz c -> i mod pack_sz c = 0 ->
        0 <= i' < buf_sz c -> i' mod pack_sz c = 0 ->
        at_ofs i = at_ofs i' -> i = i').
Proof.
  intros (Ha & Hc & Hpk & Hb) Hpos Hm Hk at_ofs.
  destruct Hpk as (_ & _ & _ & Hps & Hsz).
  pose proof (sample_footprint_range (pack c) (chmap c)) as Hfp.
  rewrite <- Hps in Hfp, Hsz.
  assert (Hofs : forall i, 0 <= i < buf_sz c -> i mod pack_sz c = 0 ->
                   0 <= i / pack_sz c < base c * base c
                   /\ i = pack_sz c * (i / pack_sz c)).
  { intros i Hi Hmod.
    pose proof (Z.div_mod i (pack_sz c) ltac:(lia)) as Hdm.
    rewrite Hmod, Z.add_0_r in Hdm. split; [|exact Hdm]. nia. }
  assert (Hcoord : forall o, 0 <= o < base c * base c ->
            exists x y,
              pack_coords tuple_coord c [] o = Some (x, y)
              /\ 0 <= x < base c /\ 0 <= y < base c
              /\ forall o', 0 <= o' < base c * base c ->
                   pack_coords tuple_coord c [] o' = Some (x, y) -> o' = o).
  { intros o Ho. unfold pack_coords. unfold ch_cmap_ok in Hc.
    destruct (chmap c) eqn:Em; [|congruence|].
    - assert (Hdiv : forall z, 0 <= z < base c * base c ->
                0 <= z mod base c < base c /\ 0 <= z / base c < base c
                /\ z = base c * (z / base c) + z mod base c).
      { intros z Hz. pose proof (Z.mod_pos_bound z (base c) Hpos).
        pose proof (Z.div_mod z (base c) ltac:(lia)). split; [lia|].
        split; [|lia]. split; [apply Z.div_pos; lia|].
        apply Z.div_lt_upper_bound; lia. }
      destruct (Hdiv o Ho) as (H1 & H2 & H3).
      unfold int_of_size. rewrite !wrap_int_small by lia.
      exists (o mod base c), (o / base c).
      split; [reflexivity|]. split; [exact H1|]. split; [exact H2|].
      intros o' Ho'. destruct (Hdiv o' Ho') as (H1' & H2' & H3').
      rewrite !wrap_int_small by lia. intros [= E1 E2]. lia.
    - destruct (Hk eq_refl) as (k & Hk15 & Hbase).
      rewrite Hc, Hbase in *.
      destruct (build_cmap_total (2 ^ Z.of_nat k)) as [tbl Et]; [lia|].
      rewrite Et. cbn [mbind option_bind].
      destruct (build_cmap_lookup _ _ Et) as [_ Hl].
      pose proof (pow4_le_15 k Hk15) as H4.
      rewrite pow2_sqr in *. rewrite wrap_sz_small in Hl by lia.
      destruct (cmap_entry_d2xy k o Hk15 Ho) as (x & y & Ec & _ & Hx & Hy).
      exists x, y. split.
      { apply Hl. rewrite Z2Nat.id by lia. split; [lia|exact Ec]. }
      split; [exact Hx|]. split; [exact Hy|].
      intros o' Ho' E'. apply Hl in E'. rewrite Z2Nat.id in E' by lia.
      apply (cmap_entry_inj k o' o (x, y) Hk15 Ho' Ho); [apply E'|exact Ec]. }
  assert (Hsame : forall s o, pack_coords tuple_coord c s o
                              = pack_coords tuple_coord c [] o).
  { intros s o. unfold pack_coords. destruct (chmap c); congruence. }
  split.
  - intros i Hi Hmod. destruct (Hofs i Hi Hmod) as [Ho _].
    destruct (Hcoord _ Ho) as (x & y & E & Hx & Hy & _).
    exists x, y. unfold at_ofs. rewrite Hsame. auto.
  - intros i i' Hi Hmod Hi' Hmod' E.
    destruct (Hofs i Hi Hmod) as [Ho Hio].
    destruct (Hofs i' Hi' Hmod') as [Ho' Hio'].
    destruct (Hcoord _ Ho') as (x & y & E' & _ & _ & Hinj).
    unfold at_ofs in E.
    rewrite (Hsame _ (i / pack_sz c)), (Hsame _ (i' / pack_sz c)), E' in E.
    pose proof (Hinj _ Ho E). congruence.
Qed.

Lemma pack_bytes_in_frame_witness :
  exists x y,
    pack_coords (fun _ _ => 0) block_example
      (drop (Z.to_nat 3) (buf block_example)) (3 / pack_sz block_example)
    = Some (x, y)
    /\ 0 <= x < base block_example /\ 0 <= y < base block_example.
Proof.
  refine (proj1 (pack_bytes_in_frame (fun _ _ => 0) block_example _ _ _ _)
            3 _ _).
  - unfold ch_inv, ch_alloc, ch_cmap_ok, packed. vm_compute.
    repeat split; first [reflexivity | discriminate].
  - run_hyp.
  - vm_compute. discriminate.
  - vm_compute. discriminate.
  - run_hyp.
  - vm_compute. reflexivity.
Defined.
